(** * Caching and pooling layer of the conversational RAG service

    A shallow embedding of
    - [src/cache/semantic_cache.py]  (ContextOptimizer, SemanticCache),
    - [src/cache/redis_utils.py]     (RedisCache),
    - [src/database/connection_manager.py]
                                     (SQLiteConnectionPool, ChromaConnectionCache),
    together with the properties the specification states about them. *)

From Stdlib Require Import ZArith QArith Lia Lqa List String Ascii Bool.
From stdpp Require Import base option list gmap strings pretty.

Local Open Scope string_scope.
Local Open Scope Z_scope.
#[local] Set Warnings "-clear-no-such-hyp".

(** ** Python results

    A Python call either returns a value or raises.  [try_except] is a
    [try: ... except Exception: ...] block. *)

Inductive exn : Type :=
| KeyError | TypeError | AttributeError | ValueError | OverflowError
| JSONDecodeError | ConnectionError | ResponseError | OperationalError.

Inductive result (A : Type) : Type :=
| Ok (a : A)
| Raise (e : exn).
Arguments Ok {A} a.
Arguments Raise {A} e.

Definition raises {A} (r : result A) : bool :=
  match r with Ok _ => false | Raise _ => true end.

(** [', '.join(xs)] *)
Fixpoint join (sep : string) (xs : list string) : string :=
  match xs with
  | [] => ""
  | [x] => x
  | x :: rest => x ++ sep ++ join sep rest
  end.

(** The slice [l[-n:]] for a positive literal [n]: the last [n] items, the whole
    list when it has fewer. *)
Definition last_n {A} (n : nat) (l : list A) : list A :=
  drop (length l - n) l.

(** The slices [l[:n]] and [l[n:]] for [n >= 0] are stdpp's [take n l] and
    [drop n l]. *)

(** ** ContextOptimizer ([semantic_cache.py], lines 152-221) *)

Module ContextOptimizer.

(** A message is a [Dict[str, str]]. *)
Abbreviation msg := (gmap string string).

Record t := mk { max_context_tokens : Z; summary_tokens : Z }.

(** The module-level instance [ContextOptimizer()] *)
Definition context_optimizer : t := mk 3000 500.

(** [len(text) // 4] *)
Definition estimate_tokens (text : string) : nat :=
  (String.length text / 4)%nat.

(** [msg.get('content', '')] *)
Definition content_or_empty (m : msg) : string :=
  match m !! "content" with Some c => c | None => "" end.

(** [sum(self.estimate_tokens(msg.get('content', '')) for msg in history)] *)
Definition total_tokens (history : list msg) : nat :=
  sum_list (map (fun m => estimate_tokens (content_or_empty m)) history).

(** Lines 163-183. *)
Definition compress_chat_history (self : t) (chat_history : list msg)
  : list msg :=
  match chat_history with
  | [] => chat_history
  | _ =>
      let total := total_tokens chat_history in
      if Z.of_nat total <=? max_context_tokens self then chat_history
      else
        let recent_messages := last_n 10 chat_history in
        let recent_tokens := total_tokens recent_messages in
        if Z.of_nat recent_tokens <=? max_context_tokens self
        then recent_messages
        else last_n 6 chat_history
  end.

(** [[msg['content'] for msg in old_messages if msg.get('role') == 'human']]:
    indexing a selected message that has no ['content'] raises. *)
Fixpoint user_queries_of (old_messages : list msg) : result (list string) :=
  match old_messages with
  | [] => Ok []
  | m :: rest =>
      if bool_decide (m !! "role" = Some "human") then
        match m !! "content" with
        | None => Raise KeyError
        | Some c =>
            match user_queries_of rest with
            | Ok cs => Ok (c :: cs)
            | Raise e => Raise e
            end
        end
      else user_queries_of rest
  end.

(** Lines 185-196. *)
Definition summarize_old_context (old_messages : list msg) : result string :=
  match old_messages with
  | [] => Ok ""
  | _ =>
      match user_queries_of old_messages with
      | Raise e => Raise e
      | Ok user_queries =>
          if (length user_queries <=? 2)%nat then
            Ok ("Previous topics discussed: "
                  ++ join ", " (take 2 user_queries))
          else
            Ok ("Previous conversation covered "
                  ++ pretty (length user_queries)
                  ++ " topics including: "
                  ++ join ", " (take 3 user_queries) ++ "...")
      end
  end.

(** Lines 198-221.  [max(0, len(chat_history) - 10)] is truncated
    subtraction on [nat]. *)
Definition optimize_context (self : t) (chat_history : list msg)
  : result (list msg * string) :=
  match chat_history with
  | [] => Ok (chat_history, "")
  | _ =>
      if Z.of_nat (total_tokens chat_history) <=? max_context_tokens self
      then Ok (chat_history, "")
      else
        let split_point := (length chat_history - 10)%nat in
        let old_messages := take split_point chat_history in
        let recent_messages := drop split_point chat_history in
        match summarize_old_context old_messages with
        | Raise e => Raise e
        | Ok summary =>
            Ok (compress_chat_history self recent_messages, summary)
        end
  end.

(** A turn as the callers build it: [{"role": r, "content": c}]. *)
Definition turn (r c : string) : msg :=
  <["role" := r]> (<["content" := c]> ∅).

(** The texts of the turns labelled ['human'], on turns given as
    (role, content) pairs. *)
Definition human_texts (turns : list (string * string)) : list string :=
  map snd (filter (fun rc => fst rc = "human") turns).

End ContextOptimizer.

(** ** JSON values and the library functions the code calls

    [json.loads] yields a value of this type, where [JNull] is Python's [None].
    Numbers are rationals: every finite float is one, and not-a-number is
    outside the model. *)

#[warnings="-register-all"] Inductive json : Type :=
| JNull
| JBool (b : bool)
| JNum (q : Q)
| JStr (s : string)
| JList (items : list json)
| JObj (fields : gmap string json).

(** Python truthiness of a decoded value, as in [x or []]. *)
Definition truthy (j : json) : bool :=
  match j with
  | JNull => false
  | JBool b => b
  | JNum q => negb (Qeq_bool q 0)
  | JStr s => negb (String.eqb s "")
  | JList items => match items with [] => false | _ => true end
  | JObj fields => negb (bool_decide (fields = ∅))
  end.

(** [a > b] on scores is [Qltb b a]. *)
Definition Qltb (x y : Q) : bool := negb (Qle_bool y x).

(** An embedding vector. *)
Abbreviation vector := (list Q).

(** The functions of other packages that the modelled code calls.  [None]
    stands for a raised exception.
    - [json_dumps], [json_loads]: the [json] module;
    - [sha256_hexdigest], [md5_hexdigest]: [hashlib.X(s.encode()).hexdigest()];
    - [py_hash]: the builtin [hash] on strings;
    - [embed_query key q]: [OpenAIEmbeddings(openai_api_key=key).embed_query(q)];
    - [encode_vector], [decode_vector]: [base64.b64encode(pickle.dumps(v)).decode()]
      and [pickle.loads(base64.b64decode(s))];
    - [cosine_similarity q c]: [sklearn]'s [cosine_similarity([q], [c])[0][0]]. *)
Class Externals := {
  json_dumps : json -> string;
  json_loads : string -> option json;
  sha256_hexdigest : string -> string;
  md5_hexdigest : string -> string;
  py_hash : string -> Z;
  embed_query : string -> string -> option vector;
  encode_vector : vector -> string;
  decode_vector : string -> option vector;
  cosine_similarity : vector -> vector -> option Q;
}.

(** ** State and exceptions

    A computation over a state [S] that returns or raises. *)

Definition M (S A : Type) : Type := S -> result A * S.

Definition ret {S A} (a : A) : M S A := fun s => (Ok a, s).
Definition raise {S A} (e : exn) : M S A := fun s => (Raise e, s).
Definition bind {S A B} (m : M S A) (k : A -> M S B) : M S B :=
  fun s => match m s with
           | (Ok a, s') => k a s'
           | (Raise e, s') => (Raise e, s')
           end.
Definition try_except {S A} (body : M S A) (handler : exn -> M S A) : M S A :=
  fun s => match body s with
           | (Ok a, s') => (Ok a, s')
           | (Raise e, s') => handler e s'
           end.
Definition of_option {S A} (e : exn) (o : option A) : M S A :=
  match o with Some a => ret a | None => raise e end.

Notation "'let*' x ':=' m 'in' k" := (bind m (fun x => k))
  (at level 10, x name, m at level 100, k at level 200, only parsing).

(** ** The key-value service

    The Redis server as the client sees it.  Every command is one round trip:
    round trip number [n] reaches the server iff [avail n]; otherwise the client
    raises a connection error and the server is untouched.  An entry is live
    while the server clock is before its expiry.  [SETEX] refuses a
    non-positive expiry with an error reply, which the client raises (Redis
    command reference); the expiries a [timedelta] can hold are all within
    what the server accepts.  The clock counts seconds. *)

Module Redis.

Record entry := mk_entry { value : string; expires_at : Z }.

Record server := mk_server {
  now : Z;
  data : gmap string entry;
  avail : nat -> bool;
  trips : nat;
}.

Definition with_data (d : gmap string entry) (s : server) : server :=
  mk_server (now s) d (avail s) (trips s).

(** Time passing on the server between two operations. *)
Definition elapse (d : Z) (s : server) : server :=
  mk_server (now s + d) (data s) (avail s) (trips s).

Definition live (s : server) (k : string) : option string :=
  match data s !! k with
  | Some e => if now s <? expires_at e then Some (value e) else None
  | None => None
  end.

Definition round_trip {A} (cmd : server -> result A * server)
  : M server A :=
  fun s =>
    let s' := mk_server (now s) (data s) (avail s) (S (trips s)) in
    if avail s (trips s) then cmd s' else (Raise ConnectionError, s').

Definition ping : M server bool :=
  round_trip (fun s => (Ok true, s)).

Definition get (k : string) : M server (option string) :=
  round_trip (fun s => (Ok (live s k), s)).

Definition setex (k : string) (seconds : Z) (v : string) : M server bool :=
  round_trip (fun s =>
    if seconds <=? 0 then (Raise ResponseError, s)
    else (Ok true, with_data (<[k := mk_entry v (now s + seconds)]> (data s)) s)).

Definition delete (k : string) : M server Z :=
  round_trip (fun s =>
    (Ok (match live s k with Some _ => 1 | None => 0 end),
     with_data (base.delete k (data s)) s)).

(** [KEYS prefix*]: the live keys that start with [prefix], in the order
    the server lists them (one fixed order per content). *)
Definition keys (prefix : string) : M server (list string) :=
  round_trip (fun s =>
    (Ok (filter (fun k => String.prefix prefix k = true
                          /\ is_Some (live s k))
                (map fst (map_to_list (data s)))), s)).

(** [timedelta(hours=h)] and [timedelta(minutes=m)] raise when the day count
    leaves [-999999999, 999999999]; [redis-py] sends
    [int(delta.total_seconds())]. *)
Definition timedelta_seconds (unit_seconds : Z) (n : Z) : result Z :=
  let days := (n * unit_seconds) / 86400 in
  if (-999999999 <=? days) && (days <=? 999999999)
  then Ok (n * unit_seconds) else Raise OverflowError.

End Redis.

(** ** RedisCache ([redis_utils.py]) *)

Module RedisCache.

Inductive client := Client.

(** [redis_client] is [None] when the constructor could not connect. *)
Record t := mk { redis_client : option client }.

Abbreviation M := (M Redis.server).

(** A method call on [self.redis_client]; on [None] the attribute lookup
    raises. *)
Definition on_client {A} (self : t) (cmd : M A) : M A :=
  match redis_client self with
  | Some _ => cmd
  | None => raise AttributeError
  end.

(** Lines 27-35. *)
Definition is_connected (self : t) : M bool :=
  match redis_client self with
  | None => ret false
  | Some _ =>
      try_except (let* _ := Redis.ping in ret true) (fun _ => ret false)
  end.

(** [{"role": r, "content": c}] *)
Definition turn (r c : string) : json :=
  JObj (<["role" := JStr r]> (<["content" := JStr c]> ∅)).

(** A decoded value as a Python return value: [JNull] is [None]. *)
Definition py_value (j : json) : option json :=
  match j with JNull => None | _ => Some j end.

Section WithExternals.
Context `{Externals}.

(** [json.loads(s)] *)
Definition loads (s : string) : M json :=
  of_option JSONDecodeError (json_loads s).

(** Lines 37-53. *)
Definition get_chat_history (self : t) (session_id : string)
  : M (option json) :=
  let* connected := is_connected self in
  if negb connected then ret None
  else
    try_except
      (let key := "chat_history:" ++ session_id in
       let* cached_data := on_client self (Redis.get key) in
       match cached_data with
       | Some d =>
           if negb (String.eqb d "") then
             let* v := loads d in ret (py_value v)
           else ret None
       | None => ret None
       end)
      (fun _ => ret None).

(** Lines 55-71. *)
Definition set_chat_history (self : t) (session_id : string)
    (chat_history : json) (ttl_hours : Z) : M bool :=
  let* connected := is_connected self in
  if negb connected then ret false
  else
    try_except
      (let key := "chat_history:" ++ session_id in
       let* seconds := fun s => (Redis.timedelta_seconds 3600 ttl_hours, s) in
       let* _ := on_client self
                   (Redis.setex key seconds (json_dumps chat_history)) in
       ret true)
      (fun _ => ret false).

(** [current_history.extend([...])]: only a list has [extend]. *)
Definition extend (current_history : json) (new : list json) : M json :=
  match current_history with
  | JList items => ret (JList (items ++ new))
  | _ => raise AttributeError
  end.

(** Lines 73-92.  The write uses [set_chat_history]'s default
    [ttl_hours=24]. *)
Definition append_to_chat_history (self : t) (session_id : string)
    (user_query ai_response : string) : M bool :=
  let* connected := is_connected self in
  if negb connected then ret false
  else
    try_except
      (let* got := get_chat_history self session_id in
       let current_history :=
         match got with
         | Some j => if truthy j then j else JList []
         | None => JList []
         end in
       let* current_history :=
         extend current_history
           [turn "user" user_query; turn "assistant" ai_response] in
       set_chat_history self session_id current_history 24)
      (fun _ => ret false).

(** [f"rag_chain:{sha256(api_key)[:16]}:{model}"] *)
Definition rag_chain_key (api_key model : string) : string :=
  "rag_chain:" ++ String.substring 0 16 (sha256_hexdigest api_key)
               ++ ":" ++ model.

(** Lines 94-113. *)
Definition get_rag_chain_config (self : t) (api_key model : string)
  : M (option json) :=
  let* connected := is_connected self in
  if negb connected then ret None
  else
    try_except
      (let key := rag_chain_key api_key model in
       let* cached_data := on_client self (Redis.get key) in
       match cached_data with
       | Some d =>
           if negb (String.eqb d "") then
             let* v := loads d in ret (py_value v)
           else ret None
       | None => ret None
       end)
      (fun _ => ret None).

(** Lines 115-133. *)
Definition set_rag_chain_config (self : t) (api_key model : string)
    (config : json) (ttl_minutes : Z) : M bool :=
  let* connected := is_connected self in
  if negb connected then ret false
  else
    try_except
      (let key := rag_chain_key api_key model in
       let* seconds := fun s => (Redis.timedelta_seconds 60 ttl_minutes, s) in
       let* _ := on_client self
                   (Redis.setex key seconds (json_dumps config)) in
       ret true)
      (fun _ => ret false).

(** Lines 135-147. *)
Definition invalidate_chat_history (self : t) (session_id : string)
  : M bool :=
  let* connected := is_connected self in
  if negb connected then ret false
  else
    try_except
      (let key := "chat_history:" ++ session_id in
       let* _ := on_client self (Redis.delete key) in
       ret true)
      (fun _ => ret false).

End WithExternals.

End RedisCache.

(** ** RedisCache.get_cache_stats ([redis_utils.py], lines 149-174)

    [INFO] is one more round trip; what the server reports is the
    parameter [report], the statistics not being part of the store.
    [describe] is [str(e)]. *)

Module RedisCacheStats.

Definition info (report : gmap string json)
  : M Redis.server (gmap string json) :=
  Redis.round_trip (fun s => (Ok report, s)).

(** A value as an operand of [+], [>] and [/] with numbers: a number, or a
    [bool], which Python counts as 1 or 0.  With any other operand one of the
    three raises. *)
Definition operand (j : json) : result Q :=
  match j with
  | JNum q => Ok q
  | JBool b => Ok (if b then 1%Q else 0%Q)
  | _ => Raise TypeError
  end.

Definition operand_value (j : json) : option Q :=
  match operand j with Ok q => Some q | Raise _ => None end.

(** [info.get(k, default)] *)
Definition get_or (report : gmap string json) (k : string) (default : json)
  : json :=
  match report !! k with Some v => v | None => default end.

Definition get_cache_stats (describe : exn -> string)
    (report : gmap string json) (self : RedisCache.t)
  : M Redis.server (gmap string json) :=
  let* connected := RedisCache.is_connected self in
  if negb connected then ret {["connected" := JBool false]}
  else
    try_except
      (let* info := RedisCache.on_client self (info report) in
       let hits := get_or info "keyspace_hits" (JNum 0) in
       let misses := get_or info "keyspace_misses" (JNum 0) in
       let* h := fun s => (operand hits, s) in
       let* m := fun s => (operand misses, s) in
       let total := (h + m)%Q in
       let hit_rate :=
         if Qltb 0 total then (h / total * 100)%Q else 0%Q in
       ret (<["connected" := JBool true]>
           (<["used_memory_human" :=
                get_or info "used_memory_human" (JStr "N/A")]>
           (<["connected_clients" := get_or info "connected_clients" (JNum 0)]>
           (<["total_commands_processed" :=
                get_or info "total_commands_processed" (JNum 0)]>
           (<["hits" := hits]>
           (<["misses" := misses]>
           (<["hit_rate" := JNum hit_rate]>
           (<["keyspace_hits" := hits]>
           (<["keyspace_misses" := misses]> ∅))))))))))
      (fun e => ret (<["connected" := JBool false]>
                    {["error" := JStr (describe e)]})).

End RedisCacheStats.

(** ** SemanticCache ([semantic_cache.py], lines 13-150)

    The module-level [redis_cache] is the parameter [rc]; the state of a call
    is the [SemanticCache] object together with the key-value service. *)

Module SemanticCache.

(** [_embedding_model] records the credential its model was built with. *)
Record t := mk {
  similarity_threshold : Q;
  max_history_length : Z;
  embeddings_cache : gmap string vector;
  embedding_model : option string;
}.

(** [SemanticCache(similarity_threshold)] *)
Definition new (threshold : Q) : t := mk threshold 20 ∅ None.

(** The dict [find_similar_cached_response] returns on a hit. *)
Record hit := mk_hit {
  response : json;
  similarity : Q;
  original_query : json;
  timestamp : json;
}.

Abbreviation world := (t * Redis.server)%type.

Definition on_server {A} (m : M Redis.server A) : M world A :=
  fun w => match m (snd w) with (r, s') => (r, (fst w, s')) end.

Definition get_self : M world t := fun w => (Ok (fst w), w).

Definition set_self (self : t) : M world unit :=
  fun w => (Ok tt, (self, snd w)).

(** [self.embeddings_cache[query_hash] = embedding] *)
Definition remember (query_hash : string) (embedding : vector) : M world unit :=
  let* self := get_self in
  set_self (mk (similarity_threshold self) (max_history_length self)
               (<[query_hash := embedding]> (embeddings_cache self))
               (embedding_model self)).

(** [cache_entry[k]]: only an object can be indexed by a string, and the key
    has to be there. *)
Definition subscript (j : json) (k : string) : option json :=
  match j with
  | JObj fields => fields !! k
  | _ => None
  end.

(** [np.array(x)] as [cosine_similarity] accepts it: a flat list of
    numbers.  On any other value the similarity computation raises. *)
Definition as_vector (j : json) : option vector :=
  match j with
  | JList items =>
      mapM (fun x => match x with JNum q => Some q | _ => None end) items
  | _ => None
  end.

Section WithExternals.
Context `{Externals}.
Variable rc : RedisCache.t.

(** Lines 22-26.  The model is built once, with the credential of the
    first call. *)
Definition _get_embedding_model (api_key : string) : M world string :=
  let* self := get_self in
  match embedding_model self with
  | Some model => ret model
  | None =>
      let* _ := set_self (mk (similarity_threshold self)
                             (max_history_length self)
                             (embeddings_cache self) (Some api_key)) in
      ret api_key
  end.

(** Lines 28-64. *)
Definition _get_query_embedding (query api_key : string)
  : M world (option vector) :=
  let query_hash := md5_hexdigest query in
  let* self := get_self in
  match embeddings_cache self !! query_hash with
  | Some embedding => ret (Some embedding)
  | None =>
      let redis_key := "embedding:" ++ query_hash in
      let* connected := on_server (RedisCache.is_connected rc) in
      let* cached_embedding :=
        if connected
        then on_server (RedisCache.on_client rc (Redis.get redis_key))
        else ret None in
      let* found :=
        match cached_embedding with
        | Some d =>
            if negb (String.eqb d "") then
              match decode_vector d with
              | Some embedding =>
                  let* _ := remember query_hash embedding in
                  ret (Some embedding)
              | None => ret None
              end
            else ret None
        | None => ret None
        end in
      match found with
      | Some embedding => ret (Some embedding)
      | None =>
          try_except
            (let* embedding_model := _get_embedding_model api_key in
             let* embedding :=
               of_option ValueError (embed_query embedding_model query) in
             let* _ := remember query_hash embedding in
             let* connected := on_server (RedisCache.is_connected rc) in
             let* _ :=
               if connected
               then on_server (RedisCache.on_client rc
                      (Redis.setex redis_key 86400 (encode_vector embedding)))
               else ret true in
             ret (Some embedding))
            (fun _ => ret None)
      end
  end.

(** Lines 87-103: the body of the inner [try] for one non-empty record.  A failure
    anywhere leaves the loop variables as they are at that point:
    [best_similarity] is assigned before the result dict is built. *)
Definition consider (threshold : Q) (query_embedding : vector)
    (cached_data : string) (acc : option hit * Q) : option hit * Q :=
  let (best_match, best_similarity) := acc in
  match json_loads cached_data with
  | None => acc
  | Some cache_entry =>
      match subscript cache_entry "embedding" with
      | None => acc
      | Some e =>
          match as_vector e with
          | None => acc
          | Some cached_embedding =>
              match cosine_similarity query_embedding cached_embedding with
              | None => acc
              | Some similarity =>
                  if Qltb threshold similarity
                     && Qltb best_similarity similarity
                  then
                    match subscript cache_entry "response",
                          subscript cache_entry "query",
                          subscript cache_entry "timestamp" with
                    | Some r, Some q, Some ts =>
                        (Some (mk_hit r similarity q ts), similarity)
                    | _, _, _ => (best_match, similarity)
                    end
                  else acc
              end
          end
      end
  end.

(** Lines 86-103: [if cached_data: try: ... except ...] *)
Definition visit (threshold : Q) (query_embedding : vector)
    (cached_data : option string) (acc : option hit * Q) : option hit * Q :=
  match cached_data with
  | Some d =>
      if negb (String.eqb d "")
      then consider threshold query_embedding d acc
      else acc
  | None => acc
  end.

(** Lines 84-85: [for key in cache_keys: cached_data = redis_client.get(key)] *)
Fixpoint scan (threshold : Q) (query_embedding : vector)
    (cache_keys : list string) (acc : option hit * Q)
  : M Redis.server (option hit * Q) :=
  match cache_keys with
  | [] => ret acc
  | key :: rest =>
      let* cached_data := RedisCache.on_client rc (Redis.get key) in
      scan threshold query_embedding rest
           (visit threshold query_embedding cached_data acc)
  end.

(** Lines 66-114.  The embedding is resolved outside the [try]. *)
Definition find_similar_cached_response (query api_key : string)
  : M world (option hit) :=
  let* query_embedding := _get_query_embedding query api_key in
  match query_embedding with
  | None => ret None
  | Some query_embedding =>
      let* connected := on_server (RedisCache.is_connected rc) in
      if negb connected then ret None
      else
        try_except
          (let* cache_keys :=
             on_server (RedisCache.on_client rc
                          (Redis.keys "semantic_cache:")) in
           let* self := get_self in
           let* found :=
             on_server (scan (similarity_threshold self) query_embedding
                             cache_keys (None, 0%Q)) in
           ret (fst found))
          (fun _ => ret None)
  end.

(** The record [cache_response] writes; [stamp] is
    [datetime.now().isoformat()]. *)
Definition cache_entry_of (query response api_key : string)
    (context_hash : option string) (stamp : string)
    (query_embedding : vector) : json :=
  JObj (<["query" := JStr query]>
       (<["response" := JStr response]>
       (<["embedding" := JList (map JNum query_embedding)]>
       (<["context_hash" :=
            match context_hash with Some c => JStr c | None => JNull end]>
       (<["timestamp" := JStr stamp]>
       (<["api_key_hash" :=
            JStr (String.substring 0 16 (sha256_hexdigest api_key))]>
        ∅)))))).

(** Lines 116-150. *)
Definition cache_response (query response api_key : string)
    (context_hash : option string) (ttl_hours : Z) (stamp : string)
  : M world bool :=
  let* query_embedding := _get_query_embedding query api_key in
  match query_embedding with
  | None => ret false
  | Some query_embedding =>
      try_except
        (let cache_entry :=
           cache_entry_of query response api_key context_hash stamp
                          query_embedding in
         let cache_key := "semantic_cache:" ++ md5_hexdigest query in
         let* connected := on_server (RedisCache.is_connected rc) in
         if connected then
           let* seconds :=
             fun w => (Redis.timedelta_seconds 3600 ttl_hours, w) in
           let* _ := on_server (RedisCache.on_client rc
                       (Redis.setex cache_key seconds
                                    (json_dumps cache_entry))) in
           ret true
         else ret false)
        (fun _ => ret false)
  end.

End WithExternals.

End SemanticCache.

(** ** SQLiteConnectionPool ([connection_manager.py], lines 19-75)

    A connection object is identified by its allocation number: the [n]-th
    object [sqlite3.connect] returns is [n].  [threading.local] is a map from
    the calling thread to its [connection] attribute.  [sqlite3.connect] may
    raise: attempt number [n] succeeds iff [connect_ok n]. *)

Module SQLiteConnectionPool.

Abbreviation thread := nat.
Abbreviation connection := nat.

Record stats := mk_stats {
  connections_created : Z;
  connections_reused : Z;
  active_connections : Z;
}.

Record t := mk {
  db_path : string;
  max_connections : Z;
  _local : gmap thread connection;
  _pool : list connection;
  _stats : stats;
(* the environment *)
connect_ok : nat -> bool;
attempts : nat;
allocated : nat;
}.

(** [SQLiteConnectionPool(db_path, max_connections)] *)
Definition new (path : string) (max : Z) (ok : nat -> bool) : t :=
  mk path max ∅ [] (mk_stats 0 0 0) ok 0 0.

(** [sqlite3.connect(self.db_path, check_same_thread=False)] *)
Definition connect : M t connection :=
  fun s =>
    let tried := mk (db_path s) (max_connections s) (_local s) (_pool s)
                    (_stats s) (connect_ok s) (S (attempts s)) in
    if connect_ok s (attempts s)
    then (Ok (allocated s), tried (S (allocated s)))
    else (Raise OperationalError, tried (allocated s)).

Definition update (f : t -> gmap thread connection * list connection * stats)
  : M t unit :=
  fun s => match f s with
           | (l, p, st) =>
               (Ok tt, mk (db_path s) (max_connections s) l p st
                          (connect_ok s) (attempts s) (allocated s))
           end.

(** Lines 34-57. *)
Definition get_connection (me : thread) : M t connection :=
  fun s =>
    match _local s !! me with
    | Some conn =>
        (let* _ := update (fun s =>
           (_local s, _pool s,
            mk_stats (connections_created (_stats s))
                     (connections_reused (_stats s) + 1)
                     (active_connections (_stats s)))) in
         ret conn) s
    | None =>
        match last (_pool s) with
        | Some conn =>
(* with self._pool_lock: conn = self._pool.pop() *)
(let* _ := update (fun s =>
   (<[me := conn]> (_local s), removelast (_pool s),
    mk_stats (connections_created (_stats s))
             (connections_reused (_stats s) + 1)
             (active_connections (_stats s) + 1))) in
 ret conn) s
| None =>
(let* conn := connect in
 let* _ := update (fun s =>
   (<[me := conn]> (_local s), _pool s,
    mk_stats (connections_created (_stats s) + 1)
             (connections_reused (_stats s))
             (active_connections (_stats s) + 1))) in
 ret conn) s
end
end.

(** Calls by the given threads, in the order they take effect; the outcome
    of each call is recorded next to its caller. *)
Fixpoint run (calls : list thread) (s : t)
  : list (thread * result connection) * t :=
  match calls with
  | [] => ([], s)
  | me :: rest =>
      match get_connection me s with
      | (r, s') =>
          match run rest s' with
          | (trace, s'') => ((me, r) :: trace, s'')
          end
      end
  end.

(** What holds of every pool built by [new] and used through
    [get_connection]: nothing fills the free list, every connection object
    made is held by exactly one thread. *)
Definition consistent (s : t) : Prop :=
  _pool s = [] /\
  allocated s = size (_local s) /\
  forall me c, _local s !! me = Some c -> (c < allocated s)%nat.

End SQLiteConnectionPool.

(** ** ChromaConnectionCache ([connection_manager.py], lines 77-138)

    A vectorstore object is identified by the number of the factory
    invocation that made it.  The environment is the clock [time.time()],
    read in seconds, and the factory: invocation number [n] with credential [k] succeeds iff
    [factory_ok k n].  [invocations] logs the credentials the factory was
    called with. *)

Module ChromaConnectionCache.

Record vectorstore := mk_vs { made_with : string; serial : nat }.

Record t := mk {
  cache_ttl_minutes : Z;
  _connections : gmap string (vectorstore * Z);
(* the environment *)
now : Z;
factory_ok : string -> nat -> bool;
invocations : list string;
}.

(** [ChromaConnectionCache(cache_ttl_minutes)] at clock reading [t0] *)
Definition new (ttl : Z) (t0 : Z) (ok : string -> nat -> bool) : t :=
  mk ttl ∅ t0 ok [].

Definition with_connections (c : gmap string (vectorstore * Z)) (s : t) : t :=
  mk (cache_ttl_minutes s) c (now s) (factory_ok s) (invocations s).

(** The clock moving on by [d]. *)
Definition elapse (d : Z) (s : t) : t :=
  mk (cache_ttl_minutes s) (_connections s) (now s + d) (factory_ok s)
     (invocations s).

Section WithExternals.
Context `{Externals}.

(** [f"chroma_{hash(api_key)}"] *)
Definition cache_key_of (api_key : string) : string :=
  "chroma_" ++ pretty (py_hash api_key).

(** Lines 92-102, one [with self._lock] block: the cached vectorstore
    when there is a fresh one; an expired entry is removed. *)
Definition check (cache_key : string) : M t (option vectorstore) :=
  fun s =>
    match _connections s !! cache_key with
    | Some (vectorstore, timestamp) =>
        if now s - timestamp <? cache_ttl_minutes s * 60
        then (Ok (Some vectorstore), s)
        else (Ok None, with_connections (delete cache_key (_connections s)) s)
    | None => (Ok None, s)
    end.

(** Lines 106-112, outside the lock: the factory call. *)
Definition create (api_key : string) : M t vectorstore :=
  fun s =>
    let n := length (invocations s) in
    let s' := mk (cache_ttl_minutes s) (_connections s) (now s)
                 (factory_ok s) (invocations s ++ [api_key]) in
    if factory_ok s api_key n
    then (Ok (mk_vs api_key n), s')
    else (Raise ValueError, s').

(** Lines 115-116, a second [with self._lock] block. *)
Definition store (cache_key : string) (v : vectorstore) : M t unit :=
  fun s =>
    (Ok tt, with_connections (<[cache_key := (v, now s)]> (_connections s)) s).

(** Lines 85-123: one call running alone, from entry to return.  A falsy [api_key]
    ([None] or the empty string) is the empty string. *)
Definition get_vectorstore (api_key : string) : M t (option vectorstore) :=
  if String.eqb api_key "" then ret None
  else
    let cache_key := cache_key_of api_key in
    let* cached := check cache_key in
    match cached with
    | Some vectorstore => ret (Some vectorstore)
    | None =>
        try_except
          (let* vectorstore := create api_key in
           let* _ := store cache_key vectorstore in
           ret (Some vectorstore))
          (fun _ => ret None)
    end.

(** *** Concurrent callers

    The two locked blocks are atomic with respect to each other; the
    factory call between them runs outside the lock.  A caller is at one
    of these points. *)
Inductive pc : Type :=
| Entering (api_key : string)
| Creating (api_key cache_key : string)
| Storing (cache_key : string) (v : vectorstore)
| Returned (r : option vectorstore).

Definition step (p : pc) (s : t) : pc * t :=
  match p with
  | Entering api_key =>
      if String.eqb api_key "" then (Returned None, s)
      else
        let cache_key := cache_key_of api_key in
        match check cache_key s with
        | (Ok (Some v), s') => (Returned (Some v), s')
        | (_, s') => (Creating api_key cache_key, s')
        end
  | Creating api_key cache_key =>
      match create api_key s with
      | (Ok v, s') => (Storing cache_key v, s')
      | (Raise _, s') => (Returned None, s')
      end
  | Storing cache_key v =>
      match store cache_key v s with
      | (_, s') => (Returned (Some v), s')
      end
  | Returned r => (Returned r, s)
  end.

(** What the scheduler does next: let caller [i] take its next step, or
    let the clock move on. *)
Inductive event := Run (i : nat) | Tick (d : Z).

Fixpoint interleave (schedule : list event) (callers : list pc) (s : t)
  : list pc * t :=
  match schedule with
  | [] => (callers, s)
  | Run i :: rest =>
      match callers !! i with
      | Some p =>
          match step p s with
          | (p', s') => interleave rest (<[i := p']> callers) s'
          end
      | None => interleave rest callers s
      end
  | Tick d :: rest => interleave rest callers (elapse d s)
  end.

(** Factory invocations for the fingerprint [cache_key]. *)
Definition invocations_for (cache_key : string) (s : t) : nat :=
  length (filter (fun k => cache_key_of k = cache_key) (invocations s)).

(** Calls that do not overlap: each waits [d], then runs alone. *)
Fixpoint in_turn (calls : list (Z * string)) (s : t)
  : list (string * result (option vectorstore)) * t :=
  match calls with
  | [] => ([], s)
  | (d, api_key) :: rest =>
      match get_vectorstore api_key (elapse d s) with
      | (r, s') =>
          match in_turn rest s' with
          | (trace, s'') => ((api_key, r) :: trace, s'')
          end
      end
  end.

End WithExternals.

End ChromaConnectionCache.

(** ** Statistics and housekeeping of the connection manager
       ([connection_manager.py], lines 69-75 and 125-138) *)

Module ConnectionStats.

(** [SQLiteConnectionPool.get_stats]: the path, the configured maximum and
    the three counters. *)
Definition get_stats (s : SQLiteConnectionPool.t) : gmap string json :=
  <["db_path" := JStr (SQLiteConnectionPool.db_path s)]>
  (<["max_connections" := JNum (inject_Z (SQLiteConnectionPool.max_connections s))]>
  (<["connections_created" :=
       JNum (inject_Z (SQLiteConnectionPool.connections_created
                         (SQLiteConnectionPool._stats s)))]>
  (<["connections_reused" :=
       JNum (inject_Z (SQLiteConnectionPool.connections_reused
                         (SQLiteConnectionPool._stats s)))]>
  (<["active_connections" :=
       JNum (inject_Z (SQLiteConnectionPool.active_connections
                         (SQLiteConnectionPool._stats s)))]> ∅)))).

(** [ChromaConnectionCache.clear_cache] *)
Definition clear_cache (s : ChromaConnectionCache.t) : ChromaConnectionCache.t :=
  ChromaConnectionCache.with_connections ∅ s.

(** [ChromaConnectionCache.get_cache_stats]; the keys are listed in the
    order of the map. *)
Definition get_cache_stats (s : ChromaConnectionCache.t) : gmap string json :=
  <["cached_connections" :=
      JNum (inject_Z (Z.of_nat (size (ChromaConnectionCache._connections s))))]>
  (<["cache_ttl_minutes" :=
      JNum (inject_Z (ChromaConnectionCache.cache_ttl_minutes s))]>
  (<["cache_keys" :=
      JList (map (fun kv => JStr (fst kv))
                 (map_to_list (ChromaConnectionCache._connections s)))]> ∅)).

(** The successful outcomes in a trace of calls. *)
Definition served {A B} (trace : list (A * result B)) : nat :=
  length (filter (fun c => raises (snd c) = false) trace).

(** Every cached vectorstore is one the factory was invoked for, with a
    credential of the fingerprint it is cached under. *)
Definition well_keyed `{Externals} (s : ChromaConnectionCache.t) : Prop :=
  forall cache_key v stored,
    ChromaConnectionCache._connections s !! cache_key = Some (v, stored) ->
    ChromaConnectionCache.cache_key_of (ChromaConnectionCache.made_with v)
    = cache_key /\
    ChromaConnectionCache.invocations s !! ChromaConnectionCache.serial v
    = Some (ChromaConnectionCache.made_with v).

(** The counters of a pool that has served [n] calls. *)
Definition accounted (s : SQLiteConnectionPool.t) (n : nat) : Prop :=
  SQLiteConnectionPool.connections_created (SQLiteConnectionPool._stats s)
  = Z.of_nat (SQLiteConnectionPool.allocated s) /\
  SQLiteConnectionPool.active_connections (SQLiteConnectionPool._stats s)
  = Z.of_nat (size (SQLiteConnectionPool._local s)) /\
  SQLiteConnectionPool.connections_created (SQLiteConnectionPool._stats s)
  + SQLiteConnectionPool.connections_reused (SQLiteConnectionPool._stats s)
  = Z.of_nat n.

(** Where a caller that entered [get_vectorstore] with the credential
    [api_key] can be: what it holds belongs to the fingerprint of that
    credential. *)
Definition caller_ok `{Externals} (api_key : string)
    (p : ChromaConnectionCache.pc) (s : ChromaConnectionCache.t) : Prop :=
  match p with
  | ChromaConnectionCache.Entering k => k = api_key
  | ChromaConnectionCache.Creating k cache_key =>
      k = api_key /\ cache_key = ChromaConnectionCache.cache_key_of api_key
  | ChromaConnectionCache.Storing cache_key v =>
      cache_key = ChromaConnectionCache.cache_key_of api_key /\
      ChromaConnectionCache.made_with v = api_key /\
      ChromaConnectionCache.invocations s !! ChromaConnectionCache.serial v
      = Some api_key
  | ChromaConnectionCache.Returned (Some v) =>
      ChromaConnectionCache.cache_key_of (ChromaConnectionCache.made_with v)
      = ChromaConnectionCache.cache_key_of api_key /\
      ChromaConnectionCache.invocations s !! ChromaConnectionCache.serial v
      = Some (ChromaConnectionCache.made_with v)
  | ChromaConnectionCache.Returned None => True
  end.

End ConnectionStats.

(** ** db_utils: the conversation history behind the cache
       ([db_utils.py], lines 23-67)

    The relational store is outside the model: what the [SELECT] of
    [get_chat_history] returns, or the exception it raises, is the parameter
    [rows], pairs of [user_query] and [gpt_response] in the order of the
    result. *)

Module DbUtils.

(** [for msg in cached_history]: a list yields its items, an empty string or
    object nothing; indexing the keys of an object or the characters of a
    string by ['role'] raises, and a number or a [bool] cannot be iterated
    over. *)
Definition iterate (cached_history : json) : result (list json) :=
  match cached_history with
  | JList items => Ok items
  | JStr s => if String.eqb s "" then Ok [] else Raise TypeError
  | JObj fields => if bool_decide (fields = ∅) then Ok [] else Raise TypeError
  | _ => Raise TypeError
  end.

(** [msg[k]] *)
Definition item (msg : json) (k : string) : result json :=
  match msg with
  | JObj fields =>
      match fields !! k with Some v => Ok v | None => Raise KeyError end
  | _ => Raise TypeError
  end.

(** [{"role": r, "content": c}] with any value as content *)
Definition message (r : string) (c : json) : gmap string json :=
  <["role" := JStr r]> (<["content" := c]> ∅).

(** Lines 37-43: from the format of the cache to the format of the chain. *)
Fixpoint convert (items : list json) : result (list (gmap string json)) :=
  match items with
  | [] => Ok []
  | msg :: rest =>
      match item msg "role" with
      | Raise e => Raise e
      | Ok role =>
          let relabelled :=
            match role with
            | JStr "user" => Some "human"
            | JStr "assistant" => Some "ai"
            | _ => None
            end in
          match relabelled with
          | Some label =>
              match item msg "content" with
              | Raise e => Raise e
              | Ok content =>
                  match convert rest with
                  | Ok messages => Ok (message label content :: messages)
                  | Raise e => Raise e
                  end
              end
          | None => convert rest
          end
      end
  end.

(** Lines 52-56 and 58-61: the two lists built from the rows. *)
Definition messages_of (rows : list (string * string))
  : list (gmap string json) :=
  flat_map (fun row => [message "human" (JStr (fst row));
                        message "ai" (JStr (snd row))]) rows.

Definition cache_format_of (rows : list (string * string)) : list json :=
  flat_map (fun row => [RedisCache.turn "user" (fst row);
                        RedisCache.turn "assistant" (snd row)]) rows.

Section WithExternals.
Context `{Externals} (rc : RedisCache.t).

(** Lines 32-67. *)
Definition get_chat_history (session_id : string)
    (rows : result (list (string * string)))
  : M Redis.server (list (gmap string json)) :=
  let* cached_history := RedisCache.get_chat_history rc session_id in
  match cached_history with
  | Some cached =>
      let* items := fun s => (iterate cached, s) in
      fun s => (convert items, s)
  | None =>
      let* rows := fun s => (rows, s) in
      let messages := messages_of rows in
      let cache_format_messages := cache_format_of rows in
      let* _ :=
        match cache_format_messages with
        | [] => ret false
        | _ => RedisCache.set_chat_history rc session_id
                 (JList cache_format_messages) 24
        end in
      ret messages
  end.

(** Lines 23-30; [inserted] is the outcome of the [INSERT] and its commit. *)
Definition insert_application_logs (session_id user_query gpt_response : string)
    (inserted : result unit) : M Redis.server bool :=
  let* _ := fun s => (inserted, s) in
  RedisCache.append_to_chat_history rc session_id user_query gpt_response.

End WithExternals.

End DbUtils.

(** ** The service being there or not *)

(** From now on no round trip reaches the server. *)
Definition unreachable (s : Redis.server) : Prop :=
  forall n, (Redis.trips s <= n)%nat -> Redis.avail s n = false.

(** From now on every round trip reaches the server. *)
Definition reachable (s : Redis.server) : Prop :=
  forall n, (Redis.trips s <= n)%nat -> Redis.avail s n = true.

(** What a reachable service answers to [get_chat_history]: the decoded live
    entry of the session. *)
Definition cached_history `{Externals} (s : Redis.server) (session_id : string)
  : option json :=
  match Redis.live s ("chat_history:" ++ session_id) with
  | Some d =>
      if negb (String.eqb d "") then
        match json_loads d with
        | Some v => RedisCache.py_value v
        | None => None
        end
      else None
  | None => None
  end.

(** A computation that returns, whatever the state. *)
Definition never_raises {S A} (m : M S A) : Prop :=
  forall s, exists a, (m s).1 = Ok a.

(** ** The records of the semantic cache, as the scan reads them *)

(** The similarity of a record to the query, when the record decodes and
    carries an embedding the similarity is defined on. *)
Definition score `{Externals} (query_embedding : vector) (d : string)
  : option Q :=
  match json_loads d with
  | Some cache_entry =>
      match SemanticCache.subscript cache_entry "embedding" with
      | Some e =>
          match SemanticCache.as_vector e with
          | Some cached_embedding =>
              cosine_similarity query_embedding cached_embedding
          | None => None
          end
      | None => None
      end
  | None => None
  end.

(** The match a scored record stands for, when it has the other fields. *)
Definition hit_of `{Externals} (query_embedding : vector) (d : string)
  : option SemanticCache.hit :=
  match json_loads d, score query_embedding d with
  | Some cache_entry, Some similarity =>
      match SemanticCache.subscript cache_entry "response",
            SemanticCache.subscript cache_entry "query",
            SemanticCache.subscript cache_entry "timestamp" with
      | Some r, Some q, Some ts =>
          Some (SemanticCache.mk_hit r similarity q ts)
      | _, _, _ => None
      end
  | _, _ => None
  end.

(** The non-empty live value under a key. *)
Definition record_value (s : Redis.server) (k : string) : option string :=
  match Redis.live s k with
  | Some d => if negb (String.eqb d "") then Some d else None
  | None => None
  end.

(** [h] is what some live record of the semantic-cache namespace stands
    for. *)
Definition is_candidate `{Externals} (s : Redis.server)
    (query_embedding : vector) (h : SemanticCache.hit) : Prop :=
  exists k d, String.prefix "semantic_cache:" k = true /\
              record_value s k = Some d /\
              hit_of query_embedding d = Some h.

(** Every scored record of the namespace has the fields of a match, as the
    records [cache_response] writes do. *)
Definition complete_records `{Externals} (s : Redis.server)
    (query_embedding : vector) : bool :=
  forallb (fun ke : string * Redis.entry =>
             match record_value s (fst ke) with
             | Some d =>
                 negb (String.prefix "semantic_cache:" (fst ke))
                 || match score query_embedding d with
                    | Some _ => bool_decide (is_Some (hit_of query_embedding d))
                    | None => true
                    end
             | None => true
             end)
          (map_to_list (Redis.data s)).

(** The keys [KEYS semantic_cache:*] lists on the store [s]. *)
Definition namespace_keys (s : Redis.server) : list string :=
  filter (fun k => String.prefix "semantic_cache:" k = true
                   /\ is_Some (Redis.live s k))
         (map fst (map_to_list (Redis.data s))).

(** The record under key [k] of the store [s] stands for the match [h]. *)
Definition stands_for `{Externals} (s : Redis.server) (qe : vector)
    (k : string) (h : SemanticCache.hit) : Prop :=
  exists d, record_value s k = Some d /\ hit_of qe d = Some h.

(** The loop variables [(best_match, best_similarity)] after the keys
    [seen]: the match held is one of the records seen and scores
    [best_similarity], above the threshold and above 0; without a match
    [best_similarity] still is 0; and no record seen scores above both the
    threshold and [best_similarity]. *)
Definition best_so_far `{Externals} (s : Redis.server) (qe : vector)
    (threshold : Q) (seen : list string) (acc : option SemanticCache.hit * Q)
  : Prop :=
  (acc.1 = None -> acc.2 = 0%Q) /\
  (forall h, acc.1 = Some h ->
     acc.2 = SemanticCache.similarity h /\
     (threshold < acc.2)%Q /\ (0 < acc.2)%Q /\
     exists k, k ∈ seen /\ stands_for s qe k h) /\
  (forall k h, k ∈ seen -> stands_for s qe k h ->
     (SemanticCache.similarity h <= acc.2)%Q \/
     (SemanticCache.similarity h <= threshold)%Q).

(** What the loop keeps true of [(best_match, best_similarity)] on any
    store and any wire: the running best never drops below 0, and a match it
    holds scored above both the threshold and 0. *)
Definition above_floor (threshold : Q) (acc : option SemanticCache.hit * Q)
  : Prop :=
  (0 <= acc.2)%Q /\
  forall h, acc.1 = Some h ->
    (threshold < SemanticCache.similarity h)%Q /\
    (0 < SemanticCache.similarity h)%Q.

(** ** What a step leaves alone *)

(** Every final state of [m] is related to its initial state by [R]. *)
Definition preserves {S A} (R : S -> S -> Prop) (m : M S A) : Prop :=
  forall s, R s (m s).2.

(** The server after further round trips that left the clock, the wire and
    the semantic-cache namespace as they were. *)
Definition server_frame (s s' : Redis.server) : Prop :=
  Redis.now s' = Redis.now s /\
  Redis.avail s' = Redis.avail s /\
  (Redis.trips s <= Redis.trips s')%nat /\
  forall k, String.prefix "semantic_cache:" k = true ->
            Redis.data s' !! k = Redis.data s !! k.

Definition world_frame (w w' : SemanticCache.world) : Prop :=
  SemanticCache.similarity_threshold w'.1 = SemanticCache.similarity_threshold w.1 /\
  server_frame w.2 w'.2.

(** [n] more round trips, all answered, none of them a write. *)
Definition bump (n : nat) (s : Redis.server) : Redis.server :=
  Redis.mk_server (Redis.now s) (Redis.data s) (Redis.avail s)
                  (Redis.trips s + n).

(** [s'] differs from [s] at most in the entry under [key] and in the
    count of round trips. *)
Definition only_key (key : string) (s s' : Redis.server) : Prop :=
  Redis.now s' = Redis.now s /\
  Redis.avail s' = Redis.avail s /\
  (Redis.trips s <= Redis.trips s')%nat /\
  forall k, k <> key -> Redis.data s' !! k = Redis.data s !! k.

(** The session holds the list [prior], or nothing and [prior] is empty. *)
Definition holds_history `{Externals} (s : Redis.server) (session_id : string)
    (prior : list json) : Prop :=
  (cached_history s session_id = None /\ prior = [])
  \/ cached_history s session_id = Some (JList prior).

(** ** Test doubles

    Stand-ins for the external libraries, in the manner of the mocks of the
    repository's unit tests; they serve to run the model on concrete data.
    The printer writes a value in the layout of [json.dumps]; the decoders
    invert the printers on the values listed as known. *)

Module Fixture.

Definition quoted (s : string) : string := String "034" (s ++ String "034" "").

Fixpoint dumps (j : json) : string :=
  match j with
  | JNull => "null"
  | JBool b => if b then "true" else "false"
  | JNum q =>
      match Qden q with
      | 1%positive => pretty (Qnum q)
      | d => pretty (Qnum q) ++ "/" ++ pretty (Zpos d)
      end
  | JStr s => quoted s
  | JList items => "[" ++ join ", " (map dumps items) ++ "]"
  | JObj fields =>
      "{" ++ join ", " (map_fold (fun k v acc =>
                          (quoted k ++ ": " ++ dumps v) :: acc) [] fields) ++ "}"
  end.

Definition loads (known : list json) (s : string) : option json :=
  List.find (fun j => String.eqb (dumps j) s) known.

Definition hash (k : string) : Z :=
  fold_left (fun h c => (31 * h + Z.of_nat (nat_of_ascii c)) mod 2 ^ 61)
            (list_ascii_of_string k) 7.

Definition hexdigest (k : string) : string := "h" ++ pretty (hash k).

Definition dot (a b : vector) : Q :=
  Qred (fold_right Qplus 0%Q (zip_with Qmult a b)).

Definition exact_sqrt (q : Q) : option Q :=
  match Qred q with
  | Qmake n 1%positive =>
      let r := Z.sqrt n in if r * r =? n then Some (inject_Z r) else None
  | _ => None
  end.

(** The cosine of two vectors of equal, positive length whose norms are
    integers; 0 when one of them is the zero vector, as [sklearn] has it. *)
Definition cosine (a b : vector) : option Q :=
  if negb (Nat.eqb (length a) (length b)) || Nat.eqb (length a) 0 then None
  else
    match exact_sqrt (dot a a), exact_sqrt (dot b b) with
    | Some na, Some nb =>
        if Qeq_bool (na * nb) 0 then Some 0%Q
        else Some (Qred (dot a b / (na * nb)))
    | _, _ => None
    end.

Definition encode (v : vector) : string := dumps (JList (map JNum v)).

Definition decode (known : list vector) (s : string) : option vector :=
  List.find (fun v => String.eqb (encode v) s) known.

(** The provider knows the texts listed in [known] and refuses the empty
    credential. *)
Definition embed (known : list (string * vector)) (key q : string)
  : option vector :=
  if String.eqb key "" then None
  else snd <$> List.find (fun kv => String.eqb (fst kv) q) known.

Definition externals (docs : list json) (texts : list (string * vector))
  : Externals :=
  {| json_dumps := dumps;
     json_loads := loads docs;
     sha256_hexdigest := hexdigest;
     md5_hexdigest := hexdigest;
     py_hash := hash;
     embed_query := embed texts;
     encode_vector := encode;
     decode_vector := decode (map snd texts);
     cosine_similarity := cosine |}.

(** *** Sample data *)

Definition up : nat -> bool := fun _ => true.
Definition down : nat -> bool := fun _ => false.

(** A [RedisCache] whose constructor connected. *)
Definition redis_cache : RedisCache.t := RedisCache.mk (Some RedisCache.Client).

Definition greeting : json :=
  JList [RedisCache.turn "user" "hi"; RedisCache.turn "assistant" "hello"].

Definition texts : list (string * vector) :=
  [("what is RAG?", [3; 4]%Q); ("what's RAG?", [4; 3]%Q);
   ("how is the weather?", [-4; 3]%Q); ("tell me a joke", [0; 5]%Q)].

(** The records [cache_response] writes for two answered queries. *)
Definition rag_entry : json :=
  @SemanticCache.cache_entry_of (externals [] texts)
    "what is RAG?" "RAG is retrieval augmented generation" "sk-1" None
    "2024-01-01T00:00:00" [3; 4]%Q.

Definition weather_entry : json :=
  @SemanticCache.cache_entry_of (externals [] texts)
    "how is the weather?" "sunny" "sk-1" None
    "2024-01-01T00:00:01" [-4; 3]%Q.

Definition libs : Externals :=
  externals [greeting; rag_entry; weather_entry] texts.

(** An empty store at clock 0. *)
Definition empty_server (avail : nat -> bool) : Redis.server :=
  Redis.mk_server 0 ∅ avail 0.

(** Session [s1] holds [greeting], written at clock 0 with a TTL of one
    hour. *)
Definition server_with_greeting : Redis.server :=
  Redis.mk_server 0
    {["chat_history:s1" := Redis.mk_entry (dumps greeting) 3600]} up 0.

(** The semantic cache holds both answers, written at clock 0 with the
    default TTL of six hours. *)
Definition server_with_answers : Redis.server :=
  Redis.mk_server 0
    (<["semantic_cache:" ++ hexdigest "what is RAG?" :=
         Redis.mk_entry (dumps rag_entry) 21600]>
     (<["semantic_cache:" ++ hexdigest "how is the weather?" :=
         Redis.mk_entry (dumps weather_entry) 21600]> ∅))
    up 0.

(** The semantic cache holds the weather answer only. *)
Definition server_with_weather : Redis.server :=
  Redis.mk_server 0
    {["semantic_cache:" ++ hexdigest "how is the weather?" :=
        Redis.mk_entry (dumps weather_entry) 21600]}
    up 0.

End Fixture.

(** * Properties *)

(** ** ContextOptimizer *)

Module ContextOptimizerFacts.
Import ContextOptimizer.

Lemma last_n_suffix {A} (n : nat) (l : list A) :
  (take (length l - n) l ++ last_n n l)%list = l.
Proof. unfold last_n. apply take_drop. Qed.

Lemma last_n_length {A} (n : nat) (l : list A) :
  length (last_n n l) = Nat.min n (length l).
Proof. unfold last_n. rewrite length_drop. lia. Qed.

Lemma turn_role r c : turn r c !! "role" = Some r.
Proof. unfold turn. apply lookup_insert_eq. Qed.

Lemma turn_content r c : turn r c !! "content" = Some c.
Proof.
  unfold turn. rewrite lookup_insert_ne by discriminate.
  apply lookup_insert_eq.
Qed.

Lemma user_queries_of_turns (turns : list (string * string)) :
  user_queries_of (map (fun rc => turn (fst rc) (snd rc)) turns)
  = Ok (human_texts turns).
Proof.
  unfold human_texts.
  induction turns as [|[r c] turns IH]; [reflexivity|].
  cbn [map user_queries_of fst snd].
  rewrite turn_role, turn_content, IH, filter_cons. cbn [fst].
  destruct (decide (r = "human")) as [->|Hne].
  - rewrite bool_decide_eq_true_2 by reflexivity. reflexivity.
  - rewrite bool_decide_eq_false_2 by congruence. reflexivity.
Qed.

(** C5.  [compress_chat_history] returns the history unchanged when its
    estimate (the sum over the turns of a quarter of the characters of the
    content, rounded down) is within the budget; otherwise the last 10
    turns when their estimate is within the budget; otherwise the last 6
    turns.  Nothing else is ever returned.  "The last n turns" is the
    suffix of length [min n (length history)]. *)
Theorem compress_two_stages (self : t) (history : list msg) :
  let budget := max_context_tokens self in
  let estimate := fun h : list msg =>
    Z.of_nat (sum_list (map (fun m =>
      (String.length (default "" (m !! "content")) / 4)%nat) h)) in
  (estimate history <= budget ->
     compress_chat_history self history = history) /\
  (budget < estimate history -> estimate (last_n 10 history) <= budget ->
     compress_chat_history self history = last_n 10 history) /\
  (budget < estimate history -> budget < estimate (last_n 10 history) ->
     compress_chat_history self history = last_n 6 history) /\
  (forall n, exists older,
     history = (older ++ last_n n history)%list /\
     length (last_n n history) = Nat.min n (length history)).
Proof.
  intros budget estimate.
  assert (Hest : forall h, estimate h = Z.of_nat (total_tokens h)).
  { intros h. reflexivity. }
  rewrite !Hest. fold budget.
  unfold compress_chat_history. fold budget.
  repeat split.
  - intros Hle. destruct history; [reflexivity|].
    destruct (Z.leb_spec (Z.of_nat (total_tokens (g :: history))) budget);
      [reflexivity | lia].
  - intros Hgt Hle. destruct history as [|m history'] eqn:E.
    + cbn in Hgt, Hle. lia.
    + rewrite <- E in *.
      destruct (Z.leb_spec (Z.of_nat (total_tokens history)) budget); [lia|].
      destruct (Z.leb_spec (Z.of_nat (total_tokens (last_n 10 history))) budget);
        [reflexivity | lia].
  - intros Hgt Hgt'. destruct history as [|m history'] eqn:E.
    + reflexivity.
    + rewrite <- E in *.
      destruct (Z.leb_spec (Z.of_nat (total_tokens history)) budget); [lia|].
      destruct (Z.leb_spec (Z.of_nat (total_tokens (last_n 10 history))) budget);
        [lia | reflexivity].
  - intros n. exists (take (length history - n) history).
    split; [symmetry; apply last_n_suffix | apply last_n_length].
Qed.

(** C6, as the code has it.  On turns given as (role, content) pairs,
    [summarize_old_context] returns the empty string exactly when the list
    is empty.  On a non-empty list it returns a sentence over the texts of
    the turns labelled ['human']: the prefix "Previous topics discussed: "
    followed by all of them when there are at most two (the bare prefix
    when there is none), and otherwise the count and the first three. *)
Theorem summarize_old_context_sentence (turns : list (string * string)) :
  let old := map (fun rc => turn (fst rc) (snd rc)) turns in
  let texts := human_texts turns in
  (turns = [] -> summarize_old_context old = Ok "") /\
  (turns <> [] -> (length texts <= 2)%nat ->
     summarize_old_context old
     = Ok ("Previous topics discussed: " ++ join ", " texts)) /\
  (turns <> [] -> (3 <= length texts)%nat ->
     summarize_old_context old
     = Ok ("Previous conversation covered " ++ pretty (length texts)
             ++ " topics including: " ++ join ", " (take 3 texts) ++ "...")) /\
  (summarize_old_context old = Ok "" <-> turns = []).
Proof.
  intros old texts.
  assert (Hq : user_queries_of old = Ok texts) by apply user_queries_of_turns.
  assert (Hshape : turns <> [] ->
            summarize_old_context old
            = if (length texts <=? 2)%nat
              then Ok ("Previous topics discussed: " ++ join ", " (take 2 texts))
              else Ok ("Previous conversation covered " ++ pretty (length texts)
                         ++ " topics including: "
                         ++ join ", " (take 3 texts) ++ "...")).
  { intros Hne. unfold summarize_old_context. rewrite Hq.
    subst old. destruct turns; [congruence | reflexivity]. }
  repeat split.
  - intros ->. reflexivity.
  - intros Hne Hlen. rewrite (Hshape Hne).
    destruct (Nat.leb_spec (length texts) 2); [|lia].
    rewrite take_ge by lia. reflexivity.
  - intros Hne Hlen. rewrite (Hshape Hne).
    destruct (Nat.leb_spec (length texts) 2); [lia | reflexivity].
  - intros Hempty. destruct turns as [|rc turns']; [reflexivity|].
    rewrite Hshape in Hempty by discriminate.
    destruct (length texts <=? 2)%nat; discriminate.
  - intros ->. reflexivity.
Qed.

(** C6, counterexample.  A list with an assistant turn and no user turn is
    not summarised to the empty string, whichever label the assistant
    carries; and with the labels [user] and [assistant] the text of the
    user turn is not part of the summary. *)
Lemma summarize_old_context_without_user_turn :
  summarize_old_context [turn "assistant" "Hello"]
    = Ok "Previous topics discussed: " /\
  summarize_old_context [turn "ai" "Hello"]
    = Ok "Previous topics discussed: " /\
  summarize_old_context [turn "user" "Hi"; turn "assistant" "Hello"]
    = Ok "Previous topics discussed: ".
Proof. repeat split; vm_compute; reflexivity. Qed.

Example summarize_three_topics :
  summarize_old_context
    [turn "human" "What is AI?"; turn "ai" "AI is artificial intelligence";
     turn "human" "How does ML work?"; turn "human" "And DL?";
     turn "human" "And RL?"]
  = Ok "Previous conversation covered 4 topics including: What is AI?, How does ML work?, And DL?...".
Proof. vm_compute. reflexivity. Qed.

(** Scenario C of the specification with a budget of 1 token and turns of
    8 characters: the history and its last ten turns exceed the budget, so
    the last six turns are returned. *)
Example compress_twelve_turns :
  let h := map (fun n : nat => turn "human" ("turn-" ++ pretty (100 + n)%nat))
               (seq 0 12) in
  compress_chat_history (mk 1 500) h = drop 6 h.
Proof. vm_compute. reflexivity. Qed.

End ContextOptimizerFacts.

(** ** RedisCache *)

Lemma try_except_never_raises {S A} (body : M S A) (x : A) :
  never_raises (try_except body (fun _ => ret x)).
Proof.
  intros s. unfold try_except, ret. destruct (body s) as [[a|e] s']; eauto.
Qed.

Module RedisCacheFacts.
Import RedisCache.

Ltac step_trip :=
  match goal with
  | |- context [Redis.avail ?s ?n] => destruct (Redis.avail s n) eqn:?
  end.

Ltac unfold_ops :=
  unfold get_chat_history, set_chat_history, append_to_chat_history,
    get_rag_chain_config, set_rag_chain_config, invalidate_chat_history,
    is_connected, on_client, loads, extend, of_option,
    Redis.ping, Redis.get, Redis.setex, Redis.delete, Redis.round_trip,
    Redis.with_data, bind, try_except, ret, raise in *.

Lemma is_connected_total (self : t) (s : Redis.server) :
  exists b, (is_connected self s).1 = Ok b /\
    Redis.data (is_connected self s).2 = Redis.data s /\
    Redis.now (is_connected self s).2 = Redis.now s /\
    Redis.avail (is_connected self s).2 = Redis.avail s /\
    (b = true -> redis_client self = Some Client /\
                 Redis.avail s (Redis.trips s) = true /\
                 Redis.trips (is_connected self s).2 = S (Redis.trips s)).
Proof.
  unfold_ops. destruct (redis_client self) as [[]|]; cbn.
  - step_trip; cbn; eauto 10.
  - exists false. repeat split; congruence.
Qed.

Lemma is_connected_down (self : t) (s : Redis.server) :
  redis_client self = None \/ unreachable s ->
  (is_connected self s).1 = Ok false /\
  Redis.data (is_connected self s).2 = Redis.data s.
Proof.
  intros Hdown. unfold_ops. destruct (redis_client self) as [[]|]; cbn.
  - destruct Hdown as [|Hdown]; [discriminate|].
    rewrite (Hdown (Redis.trips s)) by lia. cbn. auto.
  - auto.
Qed.

Lemma is_connected_up (self : t) (s : Redis.server) :
  redis_client self = Some Client -> Redis.avail s (Redis.trips s) = true ->
  is_connected self s
  = (Ok true, Redis.mk_server (Redis.now s) (Redis.data s) (Redis.avail s)
                              (S (Redis.trips s))).
Proof. intros Hc Ha. unfold_ops. rewrite Hc, Ha. reflexivity. Qed.

Lemma guarded_never_raises {A} (self : t) (x : A) (body : M A) :
  never_raises
    (let* connected := is_connected self in
     if negb connected then ret x else try_except body (fun _ => ret x)).
Proof.
  intros s. unfold bind.
  destruct (is_connected_total self s) as (b & Hb & _).
  destruct (is_connected self s) as [r s1]. cbn in Hb. subst r.
  destruct b; cbn; [apply try_except_never_raises | eauto].
Qed.

(** No public operation lets an exception out, whatever the service does
    and whenever it stops answering. *)
Lemma operations_never_raise `{Externals} (self : t)
    (session_id user_query ai_response api_key model : string)
    (chat_history config : json) (ttl_hours ttl_minutes : Z) :
  never_raises (get_chat_history self session_id) /\
  never_raises (set_chat_history self session_id chat_history ttl_hours) /\
  never_raises (append_to_chat_history self session_id user_query ai_response) /\
  never_raises (get_rag_chain_config self api_key model) /\
  never_raises (set_rag_chain_config self api_key model config ttl_minutes) /\
  never_raises (invalidate_chat_history self session_id).
Proof. repeat split; apply guarded_never_raises. Qed.

Ltac declined Hdown :=
  unfold get_chat_history, set_chat_history, append_to_chat_history,
    get_rag_chain_config, set_rag_chain_config, invalidate_chat_history, bind;
  match goal with
  | |- context [is_connected ?self ?s] =>
      destruct (is_connected_down self s Hdown) as [Hr Hd];
      destruct (is_connected self s) as [r s1]; cbn in Hr, Hd; subst r;
      cbn; auto
  end.

(** C2.  When the key-value service cannot be reached (the client was never
    built, or no round trip gets through), every read of the cache returns a
    miss, every write returns not-applied and leaves the stored entries as
    they were, and each of them returns rather than raises. *)
Theorem fail_open `{Externals} (self : t) (s : Redis.server)
    (session_id user_query ai_response api_key model : string)
    (chat_history config : json) (ttl_hours ttl_minutes : Z) :
  redis_client self = None \/ unreachable s ->
  (get_chat_history self session_id s).1 = Ok None /\
  (get_rag_chain_config self api_key model s).1 = Ok None /\
  ((set_chat_history self session_id chat_history ttl_hours s).1 = Ok false /\
   Redis.data (set_chat_history self session_id chat_history ttl_hours s).2
   = Redis.data s) /\
  ((append_to_chat_history self session_id user_query ai_response s).1 = Ok false /\
   Redis.data (append_to_chat_history self session_id user_query ai_response s).2
   = Redis.data s) /\
  ((set_rag_chain_config self api_key model config ttl_minutes s).1 = Ok false /\
   Redis.data (set_rag_chain_config self api_key model config ttl_minutes s).2
   = Redis.data s) /\
  ((invalidate_chat_history self session_id s).1 = Ok false /\
   Redis.data (invalidate_chat_history self session_id s).2 = Redis.data s).
Proof.
  intros Hdown. repeat split; declined Hdown.
Qed.

Lemma live_ext (s1 s2 : Redis.server) (k : string) :
  Redis.data s1 = Redis.data s2 -> Redis.now s1 = Redis.now s2 ->
  Redis.live s1 k = Redis.live s2 k.
Proof. intros Hd Hn. unfold Redis.live. rewrite Hd, Hn. reflexivity. Qed.

Lemma timedelta_seconds_ok (unit n x : Z) :
  Redis.timedelta_seconds unit n = Ok x -> x = n * unit.
Proof.
  unfold Redis.timedelta_seconds.
  destruct (_ && _); congruence.
Qed.

(** A read leaves the store alone and answers a miss or the live entry. *)
Lemma get_chat_history_outcome `{Externals} (self : t) (session_id : string)
    (s : Redis.server) :
  Redis.data (get_chat_history self session_id s).2 = Redis.data s /\
  Redis.now (get_chat_history self session_id s).2 = Redis.now s /\
  ((get_chat_history self session_id s).1 = Ok None \/
   (get_chat_history self session_id s).1 = Ok (cached_history s session_id)).
Proof.
  unfold cached_history. unfold_ops.
  destruct (redis_client self) as [[]|]; cbn; [|auto].
  step_trip; cbn; [|auto].
  step_trip; cbn; [|auto].
  unfold Redis.live; cbn.
  destruct (Redis.data s !! _) as [e|]; cbn; [|auto].
  destruct (Redis.now s <? Redis.expires_at e); cbn; [|auto].
  destruct (negb (Redis.value e =? "")%string); cbn; [|auto].
  destruct (json_loads (Redis.value e)); cbn; auto.
Qed.

Lemma get_chat_history_reachable `{Externals} (self : t) (session_id : string)
    (s : Redis.server) :
  redis_client self = Some Client -> reachable s ->
  (get_chat_history self session_id s).1 = Ok (cached_history s session_id).
Proof.
  intros Hc Hup. unfold cached_history. unfold_ops.
  rewrite Hc. cbn. rewrite (Hup (Redis.trips s)) by lia. cbn.
  rewrite (Hup (S (Redis.trips s))) by lia. cbn.
  unfold Redis.live; cbn.
  destruct (Redis.data s !! _) as [e|]; cbn; [|auto].
  destruct (Redis.now s <? Redis.expires_at e); cbn; [|auto].
  destruct (negb (Redis.value e =? "")%string); cbn; [|auto].
  destruct (json_loads (Redis.value e)); cbn; auto.
Qed.

Lemma get_chat_history_miss `{Externals} (self : t) (session_id : string)
    (s : Redis.server) :
  Redis.live s ("chat_history:" ++ session_id) = None ->
  (get_chat_history self session_id s).1 = Ok None.
Proof.
  intros Hnone.
  destruct (get_chat_history_outcome self session_id s) as (_ & _ & [Hr|Hr]);
    rewrite Hr; [reflexivity|].
  unfold cached_history. rewrite Hnone. reflexivity.
Qed.

(** A write is either declined, leaving the store alone, or it stores the
    encoded history with an expiry [ttl_hours] hours from now. *)
Lemma set_chat_history_outcome `{Externals} (self : t) (session_id : string)
    (chat_history : json) (ttl_hours : Z) (s : Redis.server) :
  Redis.now (set_chat_history self session_id chat_history ttl_hours s).2
  = Redis.now s /\
  Redis.avail (set_chat_history self session_id chat_history ttl_hours s).2
  = Redis.avail s /\
  (((set_chat_history self session_id chat_history ttl_hours s).1 = Ok false /\
    Redis.data (set_chat_history self session_id chat_history ttl_hours s).2
    = Redis.data s) \/
   ((set_chat_history self session_id chat_history ttl_hours s).1 = Ok true /\
    0 < ttl_hours /\
    Redis.data (set_chat_history self session_id chat_history ttl_hours s).2
    = <["chat_history:" ++ session_id :=
          Redis.mk_entry (json_dumps chat_history)
                         (Redis.now s + ttl_hours * 3600)]> (Redis.data s))).
Proof.
  unfold_ops.
  destruct (redis_client self) as [[]|]; cbn; [|auto].
  step_trip; cbn; [|auto].
  destruct (Redis.timedelta_seconds 3600 ttl_hours) as [x|e] eqn:Htd; cbn; [|auto].
  apply timedelta_seconds_ok in Htd. subst x.
  step_trip; cbn; [|auto].
  destruct (Z.leb_spec (ttl_hours * 3600) 0); cbn; [auto|].
  split; [reflexivity|]. split; [reflexivity|]. right.
  split; [reflexivity|]. split; [lia | reflexivity].
Qed.

(** C7, as the code has it.  A [set_chat_history] with [ttl_hours <= 0] is
    declined: it returns not-applied and leaves every stored entry and the
    clock as they were.  A later read of the session therefore is a miss
    whenever the session had no live entry, and with the service reachable
    it answers exactly what the store held before the write. *)
Theorem nonpositive_ttl_stores_nothing `{Externals} (self : t)
    (session_id : string) (chat_history : json) (ttl_hours : Z)
    (s : Redis.server) :
  ttl_hours <= 0 ->
  let s' := (set_chat_history self session_id chat_history ttl_hours s).2 in
  (set_chat_history self session_id chat_history ttl_hours s).1 = Ok false /\
  Redis.data s' = Redis.data s /\
  (forall later,
     Redis.live (Redis.elapse later s) ("chat_history:" ++ session_id) = None ->
     (get_chat_history self session_id (Redis.elapse later s')).1 = Ok None) /\
  (forall later,
     redis_client self = Some Client -> reachable s' ->
     (get_chat_history self session_id (Redis.elapse later s')).1
     = Ok (cached_history (Redis.elapse later s) session_id)).
Proof.
  intros Httl s'.
  destruct (set_chat_history_outcome self session_id chat_history ttl_hours s)
    as (Hnow & Havail & [[Hr Hd]|[_ [Hpos _]]]); [|lia].
  fold s' in Hnow, Hd.
  assert (Hlive : forall later k,
            Redis.live (Redis.elapse later s') k
            = Redis.live (Redis.elapse later s) k).
  { intros later k. apply live_ext; cbn; congruence. }
  repeat split; [exact Hr | exact Hd | |].
  - intros later Hnone. apply get_chat_history_miss. rewrite Hlive. exact Hnone.
  - intros later Hc Hup.
    rewrite get_chat_history_reachable; [|exact Hc|exact Hup].
    unfold cached_history. rewrite Hlive. reflexivity.
Qed.

(** C7, counterexample.  Session [s1] holds a greeting with an hour to live;
    writing the empty history with [ttl_hours = 0] is declined, and the read
    that follows is a hit on the greeting, not a miss. *)
Lemma nonpositive_ttl_keeps_earlier_entry :
  let H := Fixture.libs in
  let s' := (set_chat_history Fixture.redis_cache "s1" (JList []) 0
               Fixture.server_with_greeting).2 in
  (set_chat_history Fixture.redis_cache "s1" (JList []) 0
     Fixture.server_with_greeting).1 = Ok false /\
  (get_chat_history Fixture.redis_cache "s1" s').1 = Ok (Some Fixture.greeting).
Proof. vm_compute. split; reflexivity. Qed.

(** C9.  A successful [append_to_chat_history] rewrites the whole entry of
    the session: the value is the encoding of the history it read (the empty
    list on a miss) extended by the two new turns, and the expiry is 24
    hours after the current clock, whatever expiry the entry had before. *)
Theorem append_resets_ttl `{Externals} (self : t)
    (session_id user_query ai_response : string) (s : Redis.server) :
  (append_to_chat_history self session_id user_query ai_response s).1 = Ok true ->
  exists items,
    (items = [] \/ cached_history s session_id = Some (JList items)) /\
    Redis.now (append_to_chat_history self session_id user_query ai_response s).2
    = Redis.now s /\
    Redis.data (append_to_chat_history self session_id user_query ai_response s).2
    = <["chat_history:" ++ session_id :=
          Redis.mk_entry
            (json_dumps (JList (items ++ [turn "user" user_query;
                                          turn "assistant" ai_response])))
            (Redis.now s + 24 * 3600)]> (Redis.data s).
Proof.
  unfold append_to_chat_history, bind, try_except.
  destruct (is_connected_total self s) as (b & Hb & Hd1 & Hn1 & _).
  destruct (is_connected self s) as [r1 s1]. cbn in Hb, Hd1, Hn1. subst r1.
  destruct b; cbn; [|discriminate].
  destruct (get_chat_history_outcome self session_id s1) as (Hd2 & Hn2 & Hgot).
  destruct (get_chat_history self session_id s1) as [r2 s2].
  cbn in Hd2, Hn2, Hgot.
  assert (Hsame : cached_history s1 session_id = cached_history s session_id).
  { unfold cached_history. rewrite (live_ext s1 s) by assumption. reflexivity. }
  rewrite Hsame in Hgot. clear Hsame.
  assert (exists got, r2 = Ok got /\
            (got = None \/ got = cached_history s session_id))
    as (got & -> & Hgot') by (destruct Hgot; subst; eauto).
  clear Hgot.
  set (current := match got with
                  | Some j => if truthy j then j else JList []
                  | None => JList []
                  end).
  assert (Hcur : forall items, current = JList items ->
            items = [] \/ cached_history s session_id = Some (JList items)).
  { intros items Hitems. subst current.
    destruct got as [j|]; [|left; congruence].
    destruct (truthy j); [|left; congruence].
    right. destruct Hgot' as [?|<-]; [discriminate | congruence]. }
  destruct current as [| | | |items|]; cbn; try discriminate.
  destruct (set_chat_history_outcome self session_id
              (JList (items ++ [turn "user" user_query;
                                turn "assistant" ai_response])) 24 s2)
    as (Hn3 & _ & [[Hr _]|[Hr [_ Hd3]]]).
  - destruct (set_chat_history _ _ _ _ s2) as [r3 s3]. cbn in *. subst r3.
    discriminate.
  - destruct (set_chat_history _ _ _ _ s2) as [r3 s3]. cbn in *. subst r3.
    intros _. exists items. split; [apply Hcur; reflexivity|].
    cbn. split; [congruence|]. rewrite Hd3, Hd2, Hd1, Hn2, Hn1. reflexivity.
Qed.

(** [fail_open] on a service no round trip reaches. *)
Lemma fail_open_witness :
  let H := Fixture.libs in
  let s := Fixture.empty_server Fixture.down in
  (get_chat_history Fixture.redis_cache "s1" s).1 = Ok None /\
  (append_to_chat_history Fixture.redis_cache "s1" "hi" "hello" s).1 = Ok false /\
  (invalidate_chat_history Fixture.redis_cache "s1" s).1 = Ok false.
Proof.
  intros H s.
  destruct (fail_open Fixture.redis_cache s "s1" "hi" "hello" "sk-1" "gpt-4o"
              Fixture.greeting JNull 24 30)
    as (Hget & _ & _ & [Happend _] & _ & [Hdel _]).
  - right. intros n _. reflexivity.
  - split; [exact Hget|]. split; [exact Happend | exact Hdel].
Defined.

(** [nonpositive_ttl_stores_nothing] on an empty, reachable store: the write
    with [ttl_hours = 0] is declined and the session still misses. *)
Lemma nonpositive_ttl_stores_nothing_witness :
  let H := Fixture.libs in
  let s := Fixture.empty_server Fixture.up in
  let s' := (set_chat_history Fixture.redis_cache "s1" Fixture.greeting 0 s).2 in
  (set_chat_history Fixture.redis_cache "s1" Fixture.greeting 0 s).1 = Ok false /\
  (get_chat_history Fixture.redis_cache "s1" (Redis.elapse 5 s')).1 = Ok None.
Proof.
  intros H s s'.
  destruct (nonpositive_ttl_stores_nothing Fixture.redis_cache "s1"
              Fixture.greeting 0 s) as (Hr & _ & Hmiss & _).
  - lia.
  - split; [exact Hr|]. apply Hmiss. reflexivity.
Defined.

(** [append_resets_ttl] on the session written with a TTL of one hour. *)
Lemma append_resets_ttl_witness :
  let H := Fixture.libs in
  let s := Fixture.server_with_greeting in
  exists items,
    (items = [] \/ cached_history s "s1" = Some (JList items)) /\
    Redis.now (append_to_chat_history Fixture.redis_cache "s1" "bye" "goodbye" s).2
    = Redis.now s /\
    Redis.data (append_to_chat_history Fixture.redis_cache "s1" "bye" "goodbye" s).2
    = <["chat_history:" ++ "s1" :=
          Redis.mk_entry
            (json_dumps (JList (items ++ [turn "user" "bye";
                                          turn "assistant" "goodbye"])))
            (Redis.now s + 24 * 3600)]> (Redis.data s).
Proof.
  intros H s.
  apply (append_resets_ttl Fixture.redis_cache "s1" "bye" "goodbye" s).
  vm_compute. reflexivity.
Defined.

(** The entry of the sample session before and after an append: the four
    turns, and the expiry moved from 3600 to 86400. *)
Example append_moves_expiry :
  let H := Fixture.libs in
  let s := Fixture.server_with_greeting in
  Redis.expires_at <$> (Redis.data s !! "chat_history:s1") = Some 3600 /\
  (Redis.data (append_to_chat_history Fixture.redis_cache "s1" "bye" "goodbye" s).2
     !! "chat_history:s1")
  = Some (Redis.mk_entry
            (json_dumps (JList [turn "user" "hi"; turn "assistant" "hello";
                                turn "user" "bye"; turn "assistant" "goodbye"]))
            86400).
Proof. vm_compute. split; reflexivity. Qed.

End RedisCacheFacts.

(** ** SemanticCache *)

Section Frames.
Context {S : Type} (R : S -> S -> Prop) `{!PreOrder R}.

Lemma preserves_ret {A} (a : A) : preserves R (ret a).
Proof. intros s. reflexivity. Qed.

Lemma preserves_raise {A} (e : exn) : preserves R (@raise S A e).
Proof. intros s. reflexivity. Qed.

Lemma preserves_of_option {A} (e : exn) (o : option A) :
  preserves R (of_option e o).
Proof. destruct o; [apply preserves_ret | apply preserves_raise]. Qed.

Lemma preserves_bind {A B} (m : M S A) (k : A -> M S B) :
  preserves R m -> (forall a, preserves R (k a)) -> preserves R (bind m k).
Proof.
  intros Hm Hk s. unfold bind. specialize (Hm s).
  destruct (m s) as [[a|e] s1]; cbn in *; [|exact Hm].
  etransitivity; [exact Hm | apply Hk].
Qed.

Lemma preserves_try_except {A} (body : M S A) (handler : exn -> M S A) :
  preserves R body -> (forall e, preserves R (handler e)) ->
  preserves R (try_except body handler).
Proof.
  intros Hm Hk s. unfold try_except. specialize (Hm s).
  destruct (body s) as [[a|e] s1]; cbn in *; [exact Hm|].
  etransitivity; [exact Hm | apply Hk].
Qed.

End Frames.

#[local] Instance server_frame_preorder : PreOrder server_frame.
Proof.
  split.
  - intros s. unfold server_frame. auto.
  - intros s1 s2 s3 (Hn & Ha & Ht & Hd) (Hn' & Ha' & Ht' & Hd').
    unfold server_frame. repeat split; try congruence; [lia|].
    intros k Hk. rewrite Hd', Hd by assumption. reflexivity.
Qed.

#[local] Instance world_frame_preorder : PreOrder world_frame.
Proof.
  split.
  - intros w. split; reflexivity.
  - intros w1 w2 w3 [Ht Hs] [Ht' Hs']. split; [congruence|].
    etransitivity; eassumption.
Qed.

Module SemanticCacheFacts.
Import SemanticCache.

Lemma Qltb_lt (x y : Q) : Qltb x y = true <-> (x < y)%Q.
Proof.
  unfold Qltb. rewrite negb_true_iff. split.
  - intros Hb. apply Qnot_le_lt. intros Hle.
    apply Qle_bool_iff in Hle. congruence.
  - intros Hlt. destruct (Qle_bool y x) eqn:Hb; [|reflexivity].
    apply Qle_bool_iff in Hb. lra.
Qed.

Lemma round_trip_frame {A} (cmd : Redis.server -> result A * Redis.server) :
  (forall s, server_frame s (cmd s).2) ->
  preserves server_frame (Redis.round_trip cmd).
Proof.
  intros Hcmd s. unfold Redis.round_trip.
  set (s' := Redis.mk_server _ _ _ _).
  assert (Hs' : server_frame s s').
  { unfold server_frame. cbn. repeat split; auto. }
  destruct (Redis.avail s (Redis.trips s)); [|exact Hs'].
  etransitivity; [exact Hs' | apply Hcmd].
Qed.

Lemma get_frame (k : string) : preserves server_frame (Redis.get k).
Proof. apply round_trip_frame. intros s. reflexivity. Qed.

Lemma ping_frame : preserves server_frame Redis.ping.
Proof. apply round_trip_frame. intros s. reflexivity. Qed.

Lemma keys_frame (p : string) : preserves server_frame (Redis.keys p).
Proof. apply round_trip_frame. intros s. reflexivity. Qed.

Lemma setex_embedding_frame (h : string) (seconds : Z) (v : string) :
  preserves server_frame (Redis.setex ("embedding:" ++ h) seconds v).
Proof.
  apply round_trip_frame. intros s.
  destruct (seconds <=? 0); [reflexivity|].
  unfold server_frame. cbn. repeat split; auto.
  intros k Hk. apply lookup_insert_ne. intros <-. discriminate.
Qed.

Lemma on_client_frame {A} (rc : RedisCache.t) (cmd : M Redis.server A) :
  preserves server_frame cmd ->
  preserves server_frame (RedisCache.on_client rc cmd).
Proof.
  intros Hcmd. unfold RedisCache.on_client.
  destruct (RedisCache.redis_client rc); [exact Hcmd | apply preserves_raise; apply _].
Qed.

Lemma is_connected_frame (rc : RedisCache.t) :
  preserves server_frame (RedisCache.is_connected rc).
Proof.
  unfold RedisCache.is_connected.
  destruct (RedisCache.redis_client rc); [|apply preserves_ret; apply _].
  apply preserves_try_except; [apply _| |intros; apply preserves_ret; apply _].
  apply preserves_bind; [apply _|apply ping_frame|].
  intros; apply preserves_ret; apply _.
Qed.

Lemma on_server_frame {A} (m : M Redis.server A) :
  preserves server_frame m -> preserves world_frame (on_server m).
Proof.
  intros Hm [self s]. unfold on_server. cbn. specialize (Hm s).
  destruct (m s) as [r s']. split; [reflexivity | exact Hm].
Qed.

Lemma get_self_frame : preserves world_frame get_self.
Proof. intros w. reflexivity. Qed.

Lemma remember_frame (query_hash : string) (embedding : vector) :
  preserves world_frame (remember query_hash embedding).
Proof. intros w. split; reflexivity. Qed.

Lemma _get_embedding_model_frame (api_key : string) :
  preserves world_frame (_get_embedding_model api_key).
Proof.
  intros w. unfold _get_embedding_model, bind, get_self, set_self, ret.
  cbn. destruct (embedding_model w.1); cbn; split; reflexivity.
Qed.

Ltac frame_step :=
  first
    [ apply preserves_ret; apply _
    | apply preserves_raise; apply _
    | apply preserves_of_option; apply _
    | apply get_self_frame
    | apply remember_frame
    | apply _get_embedding_model_frame
    | apply on_server_frame
    | apply on_client_frame
    | apply is_connected_frame
    | apply get_frame
    | apply keys_frame
    | apply setex_embedding_frame
    | apply preserves_bind; [apply _ | | intros ?]
    | apply preserves_try_except; [apply _ | | intros ?]
    | match goal with |- preserves _ (match ?x with _ => _ end) => destruct x end
    | match goal with |- preserves _ (if ?x then _ else _) => destruct x end ].

(** Resolving the embedding of a query leaves the threshold, the clock, the
    wire and the semantic-cache namespace as they were. *)
Lemma _get_query_embedding_frame `{Externals} (rc : RedisCache.t)
    (query api_key : string) :
  preserves world_frame (_get_query_embedding rc query api_key).
Proof.
  unfold _get_query_embedding. repeat frame_step.
Qed.

(** The inner [try] in terms of the score and the match of the record. *)
Lemma consider_eq `{Externals} (threshold : Q) (qe : vector) (d : string)
    (best_match : option hit) (best_similarity : Q) :
  consider threshold qe d (best_match, best_similarity)
  = match score qe d with
    | Some similarity =>
        if Qltb threshold similarity && Qltb best_similarity similarity
        then (match hit_of qe d with Some h => Some h | None => best_match end,
              similarity)
        else (best_match, best_similarity)
    | None => (best_match, best_similarity)
    end.
Proof.
  unfold consider, hit_of, score.
  destruct (json_loads d) as [e|]; [|reflexivity].
  destruct (subscript e "embedding") as [v|]; [|reflexivity].
  destruct (as_vector v) as [c|]; [|reflexivity].
  destruct (cosine_similarity qe c) as [sim|]; [|reflexivity].
  destruct (_ && _); [|reflexivity].
  destruct (subscript e "response"), (subscript e "query"),
    (subscript e "timestamp"); reflexivity.
Qed.

Lemma hit_of_score `{Externals} (qe : vector) (d : string) (h : hit) :
  hit_of qe d = Some h -> score qe d = Some (similarity h).
Proof.
  unfold hit_of. destruct (json_loads d) as [e|]; [|discriminate].
  destruct (score qe d) as [sim|]; [|discriminate].
  destruct (subscript e "response"), (subscript e "query"),
    (subscript e "timestamp"); try discriminate.
  intros [= <-]. reflexivity.
Qed.

Lemma visit_eq `{Externals} (threshold : Q) (qe : vector) (s : Redis.server)
    (k : string) (acc : option hit * Q) :
  visit threshold qe (Redis.live s k) acc
  = match record_value s k with
    | Some d => consider threshold qe d acc
    | None => acc
    end.
Proof.
  unfold visit, record_value. destruct (Redis.live s k) as [d|]; [|reflexivity].
  destruct (negb (d =? "")%string); reflexivity.
Qed.

Lemma consider_above_floor `{Externals} (threshold : Q) (qe : vector)
    (d : string) (acc : option hit * Q) :
  above_floor threshold acc -> above_floor threshold (consider threshold qe d acc).
Proof.
  destruct acc as [bm bs]. intros [Hbs Hbm]. rewrite consider_eq.
  destruct (score qe d) as [sim|] eqn:Hscore; [|split; assumption].
  destruct (Qltb threshold sim && Qltb bs sim) eqn:Hcond; [|split; assumption].
  apply andb_true_iff in Hcond as [Hthr Hbest].
  apply Qltb_lt in Hthr, Hbest. cbn in Hbs.
  split; cbn; [lra|].
  intros h Hh. destruct (hit_of qe d) as [h'|] eqn:Hhit.
  - injection Hh as <-. apply hit_of_score in Hhit.
    rewrite Hscore in Hhit. injection Hhit as ->. split; lra.
  - apply Hbm. exact Hh.
Qed.

Lemma visit_above_floor `{Externals} (threshold : Q) (qe : vector)
    (cached_data : option string) (acc : option hit * Q) :
  above_floor threshold acc ->
  above_floor threshold (visit threshold qe cached_data acc).
Proof.
  intros Hacc. unfold visit. destruct cached_data as [d|]; [|exact Hacc].
  destruct (negb (d =? "")%string); [|exact Hacc].
  apply consider_above_floor. exact Hacc.
Qed.

Lemma scan_above_floor `{Externals} (rc : RedisCache.t) (threshold : Q)
    (qe : vector) (cache_keys : list string) :
  forall acc s r,
    above_floor threshold acc ->
    (scan rc threshold qe cache_keys acc s).1 = Ok r ->
    above_floor threshold r.
Proof.
  induction cache_keys as [|key rest IH]; intros acc s r Hacc Hr.
  - cbn in Hr. injection Hr as <-. exact Hacc.
  - cbn [scan] in Hr. unfold bind in Hr.
    destruct (RedisCache.on_client rc (Redis.get key) s) as [[cached|e] s1];
      [|discriminate].
    eapply IH; [|exact Hr]. apply visit_above_floor. exact Hacc.
Qed.

(** A hit comes out of the loop, run with the threshold of the object on
    the embedding the query resolved to. *)
Lemma find_similar_hit_inv `{Externals} (rc : RedisCache.t)
    (query api_key : string) (w : world) (found : option hit) :
  (find_similar_cached_response rc query api_key w).1 = Ok found ->
  found = None \/
  exists qe w1 cache_keys s best,
    _get_query_embedding rc query api_key w = (Ok (Some qe), w1) /\
    (scan rc (similarity_threshold w.1) qe cache_keys (None, 0%Q) s).1
    = Ok (found, best).
Proof.
  unfold find_similar_cached_response, bind.
  pose proof (_get_query_embedding_frame rc query api_key w) as [Hthr _].
  destruct (_get_query_embedding rc query api_key w) as [[[qe|]|e] w1];
    cbn in *; [| intros [= <-]; auto | discriminate].
  destruct w1 as [self1 s1]. unfold on_server at 1. cbn [fst snd].
  destruct (RedisCache.is_connected rc s1) as [[[]|e] s2]; cbn;
    [| intros [= <-]; auto | discriminate].
  unfold try_except, bind, on_server, get_self, ret. cbn [fst snd].
  destruct (RedisCache.on_client rc (Redis.keys "semantic_cache:") s2)
    as [[cache_keys|e] s3]; cbn; [| intros [= <-]; auto].
  destruct (scan rc (similarity_threshold self1) qe cache_keys (None, 0%Q) s3)
    as [[[bm bs]|e] s4] eqn:Hscan; cbn; [| intros [= <-]; auto].
  intros [= <-]. right. exists qe, (self1, s1), cache_keys, s3, bs.
  split; [reflexivity|]. cbn in Hthr. rewrite <- Hthr, Hscan. reflexivity.
Qed.

(** C10.  Whatever the query, the store, the wire and the configured
    threshold (a negative one too), a match [find_similar_cached_response]
    returns has a similarity strictly above 0, and strictly above the
    threshold: the running best starts at 0 and a record has to exceed
    both. *)
Theorem find_similar_never_at_or_below_zero `{Externals} (rc : RedisCache.t)
    (query api_key : string) (w : world) (h : hit) :
  (find_similar_cached_response rc query api_key w).1 = Ok (Some h) ->
  (0 < similarity h)%Q /\ (similarity_threshold w.1 < similarity h)%Q.
Proof.
  intros Hfound.
  apply find_similar_hit_inv in Hfound
    as [|(qe & w1 & cache_keys & s & best & _ & Hscan)]; [discriminate|].
  apply scan_above_floor in Hscan as [_ Hbest].
  - destruct (Hbest h eq_refl). split; assumption.
  - split; cbn; [lra | discriminate].
Qed.

Lemma bump_0 (s : Redis.server) : bump 0 s = s.
Proof. destruct s. unfold bump. cbn. f_equal. lia. Qed.

Lemma reachable_frame (s s' : Redis.server) :
  server_frame s s' -> reachable s -> reachable s'.
Proof.
  intros (_ & Ha & Ht & _) Hup n Hn. rewrite Ha. apply Hup. lia.
Qed.

Lemma record_value_frame (s s' : Redis.server) (k : string) :
  server_frame s s' -> String.prefix "semantic_cache:" k = true ->
  record_value s' k = record_value s k.
Proof.
  intros (Hn & _ & _ & Hd) Hk. unfold record_value, Redis.live.
  rewrite Hn, (Hd k Hk). reflexivity.
Qed.

(** With the service reachable the loop reads every key and ends. *)
Lemma scan_reachable `{Externals} (rc : RedisCache.t) (threshold : Q)
    (qe : vector) (cache_keys : list string) :
  RedisCache.redis_client rc = Some RedisCache.Client ->
  forall acc s,
    reachable s ->
    scan rc threshold qe cache_keys acc s
    = (Ok (fold_left (fun a k => visit threshold qe (Redis.live s k) a)
                     cache_keys acc),
       bump (length cache_keys) s).
Proof.
  intros Hc. induction cache_keys as [|key rest IH]; intros acc s Hup.
  - cbn. rewrite bump_0. reflexivity.
  - cbn [scan fold_left length].
    unfold bind, RedisCache.on_client, Redis.get, Redis.round_trip.
    rewrite Hc, (Hup (Redis.trips s)) by lia.
    rewrite IH.
    + unfold bump. cbn. do 2 f_equal. lia.
    + intros n Hn. cbn in *. apply Hup. lia.
Qed.

Lemma namespace_keys_spec (s : Redis.server) (k : string) :
  k ∈ namespace_keys s <->
  String.prefix "semantic_cache:" k = true /\ is_Some (Redis.live s k).
Proof.
  unfold namespace_keys. rewrite list_elem_of_filter. split; [tauto|].
  intros [Hk Hlive]. split; [tauto|].
  destruct Hlive as [d Hd]. unfold Redis.live in Hd.
  destruct (Redis.data s !! k) as [e|] eqn:He; [|discriminate].
  apply list_elem_of_In, in_map_iff. exists (k, e). split; [reflexivity|].
  apply list_elem_of_In, elem_of_map_to_list. exact He.
Qed.

Lemma complete_records_spec `{Externals} (s : Redis.server) (qe : vector) :
  complete_records s qe = true ->
  forall k d sim,
    String.prefix "semantic_cache:" k = true ->
    record_value s k = Some d -> score qe d = Some sim ->
    is_Some (hit_of qe d).
Proof.
  intros Hall k d sim Hk Hd Hscore. unfold complete_records in Hall.
  rewrite forallb_forall in Hall.
  assert (exists e, Redis.data s !! k = Some e) as [e He].
  { unfold record_value, Redis.live in Hd.
    destruct (Redis.data s !! k); [eauto | discriminate]. }
  specialize (Hall (k, e)). cbn [fst] in Hall.
  rewrite Hd, Hk, Hscore in Hall. cbn in Hall.
  eapply bool_decide_eq_true_1, Hall.
  apply list_elem_of_In, elem_of_map_to_list. exact He.
Qed.

(** With the service reachable, the answer is what the loop computes over
    the keys of the namespace, in the state the resolution of the embedding
    left. *)
Lemma find_similar_reachable `{Externals} (rc : RedisCache.t)
    (query api_key : string) (w w1 : world) (qe : vector) :
  RedisCache.redis_client rc = Some RedisCache.Client ->
  _get_query_embedding rc query api_key w = (Ok (Some qe), w1) ->
  reachable w1.2 ->
  (find_similar_cached_response rc query api_key w).1
  = Ok (fold_left (fun a k => visit (similarity_threshold w1.1) qe
                                    (Redis.live w1.2 k) a)
                  (namespace_keys w1.2) (None, 0%Q)).1.
Proof.
  intros Hc Hres Hup. unfold find_similar_cached_response, bind.
  rewrite Hres. destruct w1 as [self1 s1]. cbn [fst snd] in *.
  unfold on_server at 1. cbn [fst snd].
  rewrite (RedisCacheFacts.is_connected_up rc s1 Hc) by (apply Hup; lia).
  cbn [negb].
  unfold try_except, bind, on_server, get_self, ret,
    RedisCache.on_client, Redis.keys, Redis.round_trip.
  rewrite Hc. cbv beta. cbn [fst snd Redis.avail Redis.trips].
  rewrite (Hup (S (Redis.trips s1))) by lia.
  cbn [fst snd].
  rewrite scan_reachable; [reflexivity | exact Hc |].
  intros n Hn. cbn in *. apply Hup. lia.
Qed.

Section BestOfScan.
Context `{Externals} (s : Redis.server) (qe : vector) (threshold : Q).

Lemma best_so_far_skip (seen : list string) (k : string)
    (acc : option hit * Q) :
  best_so_far s qe threshold seen acc ->
  (forall h, stands_for s qe k h ->
     (similarity h <= acc.2)%Q \/ (similarity h <= threshold)%Q) ->
  best_so_far s qe threshold (seen ++ [k]) acc.
Proof.
  intros (Hnone & Hsome & Hseen) Hk. split; [exact Hnone|]. split.
  - intros h Hh.
    destruct (Hsome h Hh) as (Hsim & Hthr & Hpos & k' & Hin & Hstands).
    split; [exact Hsim|]. split; [exact Hthr|]. split; [exact Hpos|].
    exists k'. split; [apply elem_of_app; auto | exact Hstands].
  - intros k' h Hin Hstands. apply elem_of_app in Hin as [Hin|Hin].
    + eapply Hseen; eassumption.
    + apply list_elem_of_singleton in Hin as ->. apply Hk. exact Hstands.
Qed.

Lemma visit_best_so_far (seen : list string) (k : string)
    (acc : option hit * Q) :
  (forall d sim, record_value s k = Some d -> score qe d = Some sim ->
                 is_Some (hit_of qe d)) ->
  best_so_far s qe threshold seen acc ->
  best_so_far s qe threshold (seen ++ [k])
              (visit threshold qe (Redis.live s k) acc).
Proof.
  intros Hcomplete Hacc. rewrite visit_eq.
  destruct (record_value s k) as [d|] eqn:Hd.
  2:{ apply best_so_far_skip; [exact Hacc|].
      intros h (d & Hd' & _). congruence. }
  destruct acc as [bm bs]. rewrite consider_eq.
  destruct (score qe d) as [sim|] eqn:Hscore.
  2:{ apply best_so_far_skip; [exact Hacc|].
      intros h (d' & Hd' & Hh). rewrite Hd in Hd'. injection Hd' as <-.
      apply hit_of_score in Hh. congruence. }
  destruct (Hcomplete d sim eq_refl Hscore) as [h Hh]. rewrite Hh.
  assert (Hsim : sim = similarity h).
  { apply hit_of_score in Hh. congruence. }
  assert (Honly : forall h', stands_for s qe k h' -> h' = h).
  { intros h' (d' & Hd' & Hh'). congruence. }
  destruct (Qltb threshold sim && Qltb bs sim) eqn:Hcond.
  - apply andb_true_iff in Hcond as [Hthr Hbest].
    apply Qltb_lt in Hthr, Hbest.
    destruct Hacc as (Hnone & Hsome & Hseen). cbn [fst snd] in *.
    assert (Hfloor : (0 <= bs)%Q).
    { destruct bm as [h0|].
      - destruct (Hsome h0 eq_refl) as (_ & _ & Hpos & _). lra.
      - rewrite (Hnone eq_refl). lra. }
    split; [discriminate|]. split; cbn [fst snd].
    + intros h0 [= <-]. split; [exact Hsim|]. split; [exact Hthr|].
      split; [lra|]. exists k. split.
      * apply elem_of_app. right. apply list_elem_of_singleton. reflexivity.
      * exists d. auto.
    + intros k' h' Hin Hstands. left.
      apply elem_of_app in Hin as [Hin|Hin].
      * destruct (Hseen k' h' Hin Hstands); lra.
      * apply list_elem_of_singleton in Hin as ->.
        rewrite (Honly h' Hstands), <- Hsim. lra.
  - apply best_so_far_skip; [exact Hacc|].
    intros h' Hstands. rewrite (Honly h' Hstands), <- Hsim. cbn [snd].
    apply andb_false_iff in Hcond as [Hcond|Hcond].
    + right. destruct (Qlt_le_dec threshold sim) as [Hlt|Hle]; [|exact Hle].
      apply Qltb_lt in Hlt. congruence.
    + left. destruct (Qlt_le_dec bs sim) as [Hlt|Hle]; [|exact Hle].
      apply Qltb_lt in Hlt. congruence.
Qed.

Lemma fold_best_so_far (cache_keys : list string) :
  forall seen acc,
    (forall k d sim, k ∈ cache_keys -> record_value s k = Some d ->
                     score qe d = Some sim -> is_Some (hit_of qe d)) ->
    best_so_far s qe threshold seen acc ->
    best_so_far s qe threshold (seen ++ cache_keys)
      (fold_left (fun a k => visit threshold qe (Redis.live s k) a)
                 cache_keys acc).
Proof.
  induction cache_keys as [|k rest IH]; intros seen acc Hcomplete Hacc.
  - rewrite app_nil_r. exact Hacc.
  - cbn [fold_left].
    replace (seen ++ k :: rest)%list with ((seen ++ [k]) ++ rest)%list
      by (rewrite <- app_assoc; reflexivity).
    apply IH.
    + intros k' d sim Hin. apply Hcomplete. right. exact Hin.
    + apply visit_best_so_far; [|exact Hacc].
      intros d sim. apply Hcomplete. left.
Qed.

End BestOfScan.

(** The records [cache_response] writes are complete: where the decoder
    gives back the record that was encoded, a score comes with a match. *)
Lemma cache_entry_of_complete `{Externals} (query response api_key : string)
    (context_hash : option string) (stamp : string) (embedding qe : vector)
    (sim : Q) :
  let d := json_dumps (cache_entry_of query response api_key context_hash
                                      stamp embedding) in
  json_loads d = Some (cache_entry_of query response api_key context_hash
                                      stamp embedding) ->
  score qe d = Some sim ->
  hit_of qe d = Some (mk_hit (JStr response) sim (JStr query) (JStr stamp)).
Proof.
  intros d Hloads Hscore. unfold hit_of. rewrite Hloads, Hscore.
  unfold cache_entry_of, subscript.
  rewrite lookup_insert_ne, lookup_insert_eq by discriminate.
  rewrite lookup_insert_eq.
  rewrite !(lookup_insert_ne _ _ "timestamp") by discriminate.
  rewrite lookup_insert_eq. reflexivity.
Qed.

(** C1, as the code has it.  With the service reachable, the embedding of
    the query resolved and every scored record of the namespace complete,
    [find_similar_cached_response] returns; what it returns is decided by
    the records of the semantic-cache namespace, each scored by cosine
    similarity against the query embedding.  A returned match is one of
    these records, it scores strictly above the threshold and strictly
    above 0 (the running best starts at 0), and no record scores higher.
    It returns no match exactly when no record scores strictly above both
    the threshold and 0.  For a threshold that is not negative, "above
    both" is "above the threshold". *)
Theorem find_similar_best_match `{Externals} (rc : RedisCache.t)
    (query api_key : string) (w : world) (qe : vector) :
  RedisCache.redis_client rc = Some RedisCache.Client ->
  reachable w.2 ->
  (_get_query_embedding rc query api_key w).1 = Ok (Some qe) ->
  complete_records w.2 qe = true ->
  let threshold := similarity_threshold w.1 in
  match (find_similar_cached_response rc query api_key w).1 with
  | Ok (Some h) =>
      is_candidate w.2 qe h /\
      (threshold < similarity h)%Q /\ (0 < similarity h)%Q /\
      forall c, is_candidate w.2 qe c -> (similarity c <= similarity h)%Q
  | Ok None =>
      (forall c, is_candidate w.2 qe c ->
         ~ ((threshold < similarity c)%Q /\ (0 < similarity c)%Q)) /\
      ((0 <= threshold)%Q ->
       forall c, is_candidate w.2 qe c -> ~ (threshold < similarity c)%Q)
  | Raise _ => False
  end.
Proof.
  intros Hc Hup Hres Hcomplete threshold.
  destruct (_get_query_embedding rc query api_key w) as [r w1] eqn:Hrun.
  cbn in Hres. subst r.
  pose proof (_get_query_embedding_frame rc query api_key w) as Hframe.
  rewrite Hrun in Hframe. destruct Hframe as [Hthr Hsf]. cbn [snd] in Hthr, Hsf.
  rewrite (find_similar_reachable rc query api_key w w1 qe Hc Hrun
             (reachable_frame _ _ Hsf Hup)).
  rewrite Hthr. fold threshold.
  assert (Hkey : forall k, String.prefix "semantic_cache:" k = true ->
            record_value w1.2 k = record_value w.2 k).
  { intros k Hk. apply record_value_frame; assumption. }
  assert (Hin : forall k d, String.prefix "semantic_cache:" k = true ->
            record_value w.2 k = Some d -> k ∈ namespace_keys w1.2).
  { intros k d Hk Hd. apply namespace_keys_spec. split; [exact Hk|].
    rewrite <- Hkey in Hd by exact Hk. unfold record_value in Hd.
    destruct (Redis.live w1.2 k); [eauto | discriminate]. }
  pose proof (fold_best_so_far w1.2 qe threshold (namespace_keys w1.2)
                [] (None, 0%Q)) as Hinv.
  cbn [app] in Hinv.
  destruct Hinv as (Hnone & Hsome & Hseen).
  { intros k d sim Hk Hd Hscore.
    apply namespace_keys_spec in Hk as [Hk _].
    rewrite Hkey in Hd by exact Hk.
    eapply complete_records_spec; eassumption. }
  { split; [reflexivity|]. split; [discriminate|].
    intros k h Hk. apply elem_of_nil in Hk. destruct Hk. }
  assert (Hall : forall c, is_candidate w.2 qe c ->
            exists k, k ∈ namespace_keys w1.2 /\ stands_for w1.2 qe k c).
  { intros c (k & d & Hk & Hd & Hc'). exists k. split; [eapply Hin; eassumption|].
    exists d. rewrite Hkey by exact Hk. auto. }
  destruct (fold_left _ _ _) as [[h|] bs]; cbn [fst snd] in *.
  - destruct (Hsome h eq_refl) as (Hsim & Hgt & Hpos & k & Hk & d & Hd & Hh).
    subst bs. split; [|split; [exact Hgt | split; [exact Hpos|]]].
    + apply namespace_keys_spec in Hk as [Hk _].
      exists k, d. rewrite <- Hkey by exact Hk. auto.
    + intros c Hcand. destruct (Hall c Hcand) as (k' & Hk' & Hstands).
      destruct (Hseen k' c Hk' Hstands); lra.
  - rewrite (Hnone eq_refl) in Hseen. split.
    + intros c Hcand [Hgt Hpos]. destruct (Hall c Hcand) as (k' & Hk' & Hstands).
      destruct (Hseen k' c Hk' Hstands); lra.
    + intros Hnn c Hcand Hgt. destruct (Hall c Hcand) as (k' & Hk' & Hstands).
      destruct (Hseen k' c Hk' Hstands); lra.
Qed.

(** C1, counterexample.  With a threshold of -1/2 the only record scores
    -7/25 against the query, strictly above the threshold, and is not
    returned. *)
Lemma find_similar_misses_above_negative_threshold :
  let H := Fixture.libs in
  let w : world := (new (-1 # 2), Fixture.server_with_weather) in
  (_get_query_embedding Fixture.redis_cache "what's RAG?" "sk-1" w).1
  = Ok (Some [4; 3]%Q) /\
  (find_similar_cached_response Fixture.redis_cache "what's RAG?" "sk-1" w).1
  = Ok None /\
  exists h, is_candidate w.2 [4; 3]%Q h /\
            (similarity_threshold w.1 < similarity h)%Q.
Proof.
  cbv zeta. split; [vm_compute; reflexivity|].
  split; [vm_compute; reflexivity|].
  exists (mk_hit (JStr "sunny") (-7 # 25) (JStr "how is the weather?")
                 (JStr "2024-01-01T00:00:01")).
  split; [|reflexivity].
  exists ("semantic_cache:" ++ Fixture.hexdigest "how is the weather?"),
         (Fixture.dumps Fixture.weather_entry).
  repeat split; vm_compute; reflexivity.
Qed.

(** Scenario B of the specification: the answer to "what is RAG?" is cached,
    the threshold is 0.85, and "what's RAG?" scores 24/25 against it. *)
Example find_similar_scenario_b :
  let H := Fixture.libs in
  let w0 : world := (new (17 # 20), Fixture.empty_server Fixture.up) in
  let w1 := (cache_response Fixture.redis_cache "what is RAG?"
               "RAG is retrieval augmented generation" "sk-1" None 6
               "2024-01-01T00:00:00" w0).2 in
  (find_similar_cached_response Fixture.redis_cache "what's RAG?" "sk-1" w1).1
  = Ok (Some (mk_hit (JStr "RAG is retrieval augmented generation") (24 # 25)
                     (JStr "what is RAG?") (JStr "2024-01-01T00:00:00"))).
Proof. vm_compute. reflexivity. Qed.

(** [find_similar_best_match] on the sample store with both answers and the
    threshold 0.85: the RAG answer is returned with similarity 24/25, and no
    record scores higher. *)
Lemma find_similar_best_match_witness :
  let H := Fixture.libs in
  let w : world := (new (17 # 20), Fixture.server_with_answers) in
  exists h,
    (find_similar_cached_response Fixture.redis_cache "what's RAG?" "sk-1" w).1
    = Ok (Some h) /\
    similarity h = 24 # 25 /\
    forall c, is_candidate w.2 [4; 3]%Q c -> (similarity c <= similarity h)%Q.
Proof.
  intros H w.
  assert (Hup : reachable w.2) by (intros n _; reflexivity).
  assert (Hres : (_get_query_embedding Fixture.redis_cache "what's RAG?"
                    "sk-1" w).1 = Ok (Some [4; 3]%Q))
    by (vm_compute; reflexivity).
  assert (Hcomplete : complete_records w.2 [4; 3]%Q = true)
    by (vm_compute; reflexivity).
  pose proof (find_similar_best_match Fixture.redis_cache "what's RAG?" "sk-1"
                w [4; 3]%Q eq_refl Hup Hres Hcomplete) as Hbest.
  cbv zeta in Hbest.
  assert (Hrun : (find_similar_cached_response Fixture.redis_cache
                    "what's RAG?" "sk-1" w).1
                 = Ok (Some (mk_hit (JStr "RAG is retrieval augmented generation")
                                    (24 # 25) (JStr "what is RAG?")
                                    (JStr "2024-01-01T00:00:00"))))
    by (vm_compute; reflexivity).
  rewrite Hrun in Hbest. destruct Hbest as (_ & _ & _ & Hmax).
  eexists. split; [exact Hrun|]. split; [reflexivity | exact Hmax].
Defined.

(** [find_similar_never_at_or_below_zero] with the threshold -1/2: the
    weather answer scores -7/25 and stays out, the RAG answer is returned. *)
Lemma find_similar_never_at_or_below_zero_witness :
  let h := mk_hit (JStr "RAG is retrieval augmented generation") (24 # 25)
                  (JStr "what is RAG?") (JStr "2024-01-01T00:00:00") in
  (0 < similarity h)%Q /\ (-1 # 2 < similarity h)%Q.
Proof.
  intros h.
  apply (find_similar_never_at_or_below_zero (H:=Fixture.libs)
           Fixture.redis_cache "what's RAG?" "sk-1"
           (new (-1 # 2), Fixture.server_with_answers) h).
  vm_compute. reflexivity.
Defined.

End SemanticCacheFacts.

(** ** SQLiteConnectionPool *)

Module SQLiteConnectionPoolFacts.
Import SQLiteConnectionPool.

(** One call, case by case. *)
Lemma get_connection_cases (me : thread) (s : t) :
  match _local s !! me with
  | Some c =>
      (get_connection me s).1 = Ok c /\
      _local (get_connection me s).2 = _local s /\
      _pool (get_connection me s).2 = _pool s /\
      allocated (get_connection me s).2 = allocated s
  | None =>
      match last (_pool s) with
      | Some c =>
          (get_connection me s).1 = Ok c /\
          _local (get_connection me s).2 = <[me := c]> (_local s) /\
          _pool (get_connection me s).2 = removelast (_pool s) /\
          allocated (get_connection me s).2 = allocated s
      | None =>
          _pool (get_connection me s).2 = _pool s /\
          if connect_ok s (attempts s)
          then (get_connection me s).1 = Ok (allocated s) /\
               _local (get_connection me s).2 = <[me := allocated s]> (_local s) /\
               allocated (get_connection me s).2 = S (allocated s)
          else (get_connection me s).1 = Raise OperationalError /\
               _local (get_connection me s).2 = _local s /\
               allocated (get_connection me s).2 = allocated s
      end
  end.
Proof.
  unfold get_connection, bind, update, connect, ret.
  destruct (_local s !! me) as [c|]; cbn; [auto|].
  destruct (last (_pool s)) as [c|]; cbn; [auto|].
  destruct (connect_ok s (attempts s)); cbn; auto.
Qed.

(** A thread keeps the connection it holds, and gets it on its calls. *)
Lemma get_connection_keeps (me other : thread) (c : connection) (s : t) :
  _local s !! me = Some c ->
  _local (get_connection other s).2 !! me = Some c /\
  (other = me -> (get_connection other s).1 = Ok c).
Proof.
  intros Hheld. pose proof (get_connection_cases other s) as Hcases.
  destruct (decide (other = me)) as [->|Hne].
  - rewrite Hheld in Hcases. destruct Hcases as (Hr & Hl & _).
    rewrite Hl. auto.
  - split; [|congruence].
    destruct (_local s !! other) as [c'|].
    { destruct Hcases as (_ & -> & _). exact Hheld. }
    destruct (last (_pool s)) as [c'|].
    { destruct Hcases as (_ & -> & _). rewrite lookup_insert_ne; auto. }
    destruct Hcases as [_ Hcases].
    destruct (connect_ok s (attempts s)); destruct Hcases as (_ & -> & _);
      [rewrite lookup_insert_ne; auto | exact Hheld].
Qed.

Lemma get_connection_holds (me : thread) (c : connection) (s : t) :
  (get_connection me s).1 = Ok c ->
  _local (get_connection me s).2 !! me = Some c.
Proof.
  intros Hr. pose proof (get_connection_cases me s) as Hcases.
  destruct (_local s !! me) as [c'|] eqn:Hl.
  { destruct Hcases as (Hr' & -> & _). congruence. }
  destruct (last (_pool s)) as [c'|].
  { destruct Hcases as (Hr' & -> & _). rewrite lookup_insert_eq. congruence. }
  destruct Hcases as [_ Hcases].
  destruct (connect_ok s (attempts s)); destruct Hcases as (Hr' & Hl' & _);
    [|congruence].
  rewrite Hl', lookup_insert_eq. congruence.
Qed.

Lemma held_on_every_call (calls : list thread) :
  forall (s : t) (me : thread) (c : connection) (r : result connection),
    _local s !! me = Some c ->
    (me, r) ∈ (run calls s).1 -> r = Ok c.
Proof.
  induction calls as [|other rest IH]; intros s me c r Hheld Hin.
  - cbn in Hin. apply elem_of_nil in Hin. destruct Hin.
  - cbn [run] in Hin.
    destruct (get_connection_keeps me other c s Hheld) as [Hkept Hsame].
    destruct (get_connection other s) as [r1 s1]. cbn [fst snd] in *.
    specialize (IH s1 me c r Hkept).
    destruct (run rest s1) as [trace s2]. cbn [fst snd] in *.
    apply elem_of_cons in Hin as [[= -> ->]|Hin]; auto.
Qed.

Lemma held_to_the_end (calls : list thread) :
  forall (s : t) (me : thread) (c : connection),
    _local s !! me = Some c -> _local (run calls s).2 !! me = Some c.
Proof.
  induction calls as [|other rest IH]; intros s me c Hheld; [exact Hheld|].
  cbn [run].
  destruct (get_connection_keeps me other c s Hheld) as [Hkept _].
  destruct (get_connection other s) as [r1 s1]. cbn [fst snd] in *.
  specialize (IH s1 me c Hkept).
  destruct (run rest s1) as [trace s2]. exact IH.
Qed.

Lemma new_consistent (path : string) (max : Z) (ok : nat -> bool) :
  consistent (new path max ok).
Proof.
  split; [reflexivity|]. split; [reflexivity|].
  intros me c Hl. cbn in Hl. rewrite lookup_empty in Hl. discriminate.
Qed.

Lemma get_connection_consistent (me : thread) (s : t) :
  consistent s ->
  consistent (get_connection me s).2 /\
  dom (_local (get_connection me s).2) ⊆ dom (_local s) ∪ {[me]}.
Proof.
  intros (Hpool & Hsize & Hlt).
  pose proof (get_connection_cases me s) as Hcases.
  rewrite Hpool in Hcases. cbn [last] in Hcases.
  destruct (_local s !! me) as [c|] eqn:Hl.
  { destruct Hcases as (_ & Hl' & Hp' & Ha').
    unfold consistent. rewrite Hl', Hp', Ha'.
    repeat split; [assumption .. | set_solver]. }
  destruct Hcases as [Hp' Hcases].
  destruct (connect_ok s (attempts s)); destruct Hcases as (_ & Hl' & Ha').
  - unfold consistent. rewrite Hl', Hp', Ha'. repeat split.
    + rewrite map_size_insert_None by exact Hl. congruence.
    + intros me' c. rewrite lookup_insert. case_decide.
      * intros [= <-]. lia.
      * intros Hheld. specialize (Hlt me' c Hheld). lia.
    + rewrite dom_insert_L. set_solver.
  - unfold consistent. rewrite Hl', Hp', Ha'.
    repeat split; [assumption .. | set_solver].
Qed.

Lemma run_consistent (calls : list thread) :
  forall s : t,
    consistent s ->
    consistent (run calls s).2 /\
    dom (_local (run calls s).2) ⊆ dom (_local s) ∪ list_to_set calls /\
    forall me c, (me, Ok c) ∈ (run calls s).1 ->
                 _local (run calls s).2 !! me = Some c.
Proof.
  induction calls as [|other rest IH]; intros s Hs.
  - cbn. split; [exact Hs|]. split; [set_solver|].
    intros me c Hin. apply elem_of_nil in Hin. destruct Hin.
  - cbn [run list_to_set].
    destruct (get_connection_consistent other s Hs) as [Hs1 Hdom1].
    pose proof (get_connection_holds other) as Hholds. specialize (Hholds).
    pose proof (held_to_the_end rest (get_connection other s).2) as Hkeep.
    destruct (IH (get_connection other s).2 Hs1) as (Hs2 & Hdom2 & Htrace).
    destruct (get_connection other s) as [r1 s1] eqn:Hstep. cbn [fst snd] in *.
    destruct (run rest s1) as [trace s2]. cbn [fst snd] in *.
    split; [exact Hs2|]. split; [set_solver|].
    intros me c Hin. apply elem_of_cons in Hin as [[= -> <-]|Hin].
    + apply Hkeep. specialize (Hholds c s). rewrite Hstep in Hholds.
      apply Hholds. reflexivity.
    + apply Htrace. exact Hin.
Qed.

(** C4.  A thread that a call has given a connection gets that same
    connection on every later call, however the calls of other threads
    fall in between; and on a pool built by [new], after any sequence of
    calls, the connection objects ever made are at most as many as the
    distinct threads that called, every connection returned being one of
    them. *)
Theorem one_connection_per_thread :
  (forall (s : t) (me : thread) (c : connection) (calls : list thread)
          (r : result connection),
     (get_connection me s).1 = Ok c ->
     (me, r) ∈ (run calls (get_connection me s).2).1 -> r = Ok c) /\
  (forall (path : string) (max : Z) (ok : nat -> bool) (calls : list thread),
     let out := run calls (new path max ok) in
     (allocated out.2 <= size (list_to_set calls : gset thread))%nat /\
     (forall me c, (me, Ok c) ∈ out.1 -> (c < allocated out.2)%nat) /\
     (forall me c c', (me, Ok c) ∈ out.1 -> (me, Ok c') ∈ out.1 -> c = c')).
Proof.
  split.
  - intros s me c calls r Hr Hin.
    eapply held_on_every_call; [|exact Hin].
    apply get_connection_holds. exact Hr.
  - intros path max ok calls out.
    destruct (run_consistent calls (new path max ok) (new_consistent _ _ _))
      as ((_ & Hsize & Hlt) & Hdom & Htrace).
    fold out in Hsize, Hlt, Hdom, Htrace.
    split; [|split].
    + rewrite Hsize, <- size_dom. apply subseteq_size.
      cbn in Hdom. rewrite dom_empty_L in Hdom. set_solver.
    + intros me c Hin. eapply Hlt, Htrace, Hin.
    + intros me c c' Hin Hin'.
      apply Htrace in Hin, Hin'. congruence.
Qed.

(** Scenario D of the specification: five threads call in turn, three
    times over; each gets its own connection every time, and five objects
    are made. *)
Example five_threads_five_connections :
  let calls := [0; 1; 2; 3; 4; 0; 1; 2; 3; 4; 4; 3; 2; 1; 0]%nat in
  let out := run calls (new "rag_app.db" 10 (fun _ => true)) in
  out.1 = map (fun me => (me, Ok me)) calls /\ allocated out.2 = 5%nat.
Proof. vm_compute. split; reflexivity. Qed.

End SQLiteConnectionPoolFacts.

(** ** ChromaConnectionCache *)

Module ChromaConnectionCacheFacts.
Import ChromaConnectionCache.

Section WithExternals.
Context `{Externals}.

(** A call whose credential has a fresh entry returns it and changes
    nothing. *)
Lemma get_vectorstore_hit (s : t) (api_key : string) (v : vectorstore)
    (stored : Z) :
  api_key <> "" ->
  _connections s !! cache_key_of api_key = Some (v, stored) ->
  now s - stored < cache_ttl_minutes s * 60 ->
  get_vectorstore api_key s = (Ok (Some v), s).
Proof.
  intros Hkey Hentry Hfresh. unfold get_vectorstore.
  destruct (String.eqb_spec api_key ""); [contradiction|].
  unfold bind, check, ret. rewrite Hentry.
  destruct (Z.ltb_spec (now s - stored) (cache_ttl_minutes s * 60)); [|lia].
  reflexivity.
Qed.

(** A call leaves the clock, the TTL, the factory and the entries of other
    fingerprints alone, and invokes the factory with its own credential
    only. *)
Lemma get_vectorstore_frame (s : t) (api_key : string) :
  now (get_vectorstore api_key s).2 = now s /\
  cache_ttl_minutes (get_vectorstore api_key s).2 = cache_ttl_minutes s /\
  factory_ok (get_vectorstore api_key s).2 = factory_ok s /\
  (invocations (get_vectorstore api_key s).2 = invocations s \/
   invocations (get_vectorstore api_key s).2 = (invocations s ++ [api_key])%list) /\
  forall k, k <> cache_key_of api_key ->
            _connections (get_vectorstore api_key s).2 !! k = _connections s !! k.
Proof.
  unfold get_vectorstore.
  destruct (String.eqb api_key ""); [cbn; auto 6|].
  unfold bind, try_except, check, create, store, with_connections, ret.
  destruct (_connections s !! cache_key_of api_key) as [[v stored]|] eqn:Hentry.
  - destruct (now s - stored <? cache_ttl_minutes s * 60); cbn; [auto 6|].
    destruct (factory_ok s api_key (length (invocations s))); cbn;
      repeat split; auto; intros k Hk;
      rewrite ?lookup_insert_ne, ?lookup_delete_ne by congruence; reflexivity.
  - cbn. destruct (factory_ok s api_key (length (invocations s))); cbn;
      repeat split; auto; intros k Hk;
      rewrite ?lookup_insert_ne by congruence; reflexivity.
Qed.

Lemma invocations_for_app (cache_key : string) (s s' : t) (api_key : string) :
  invocations s' = (invocations s ++ [api_key])%list ->
  cache_key_of api_key <> cache_key ->
  invocations_for cache_key s' = invocations_for cache_key s.
Proof.
  intros Hinv Hne. unfold invocations_for.
  rewrite Hinv, filter_app, length_app, filter_cons.
  destruct (decide (cache_key_of api_key = cache_key)); [contradiction|].
  cbn. lia.
Qed.

(** A caller that takes its three steps with nobody in between does what
    [get_vectorstore] does. *)
Lemma alone_is_get_vectorstore (s : t) (api_key : string) :
  exists r,
    get_vectorstore api_key s = (Ok r, (get_vectorstore api_key s).2) /\
    interleave [Run 0; Run 0; Run 0] [Entering api_key] s
    = ([Returned r], (get_vectorstore api_key s).2).
Proof.
  unfold get_vectorstore. cbn [interleave lookup list_lookup step].
  destruct (String.eqb api_key ""); [cbn; eauto|].
  unfold bind, try_except, check, ret.
  destruct (_connections s !! cache_key_of api_key) as [[v stored]|].
  - destruct (now s - stored <? cache_ttl_minutes s * 60); [cbn; eauto|].
    unfold step, create, store, with_connections. cbn.
    destruct (factory_ok s api_key (length (invocations s))); cbn; eauto.
  - unfold step, create, store, with_connections. cbn.
    destruct (factory_ok s api_key (length (invocations s))); cbn; eauto.
Qed.

(** C3, as the code has it.  While the entry of a fingerprint is within its
    expiry window, calls that do not overlap never invoke the factory for
    that fingerprint, and each call with a credential of that fingerprint
    returns the cached vectorstore.  (The lock is held for the check and
    for the store, not across the creation between them.) *)
Theorem no_second_creation_in_turn (calls : list (Z * string)) :
  forall (s : t) (api_key : string) (v : vectorstore) (stored : Z),
    _connections s !! cache_key_of api_key = Some (v, stored) ->
    Forall (fun c => 0 <= c.1) calls ->
    now s + fold_right Z.add 0 (map fst calls) - stored
      < cache_ttl_minutes s * 60 ->
    invocations_for (cache_key_of api_key) (in_turn calls s).2
    = invocations_for (cache_key_of api_key) s /\
    forall k r, (k, r) ∈ (in_turn calls s).1 -> k <> "" ->
                cache_key_of k = cache_key_of api_key -> r = Ok (Some v).
Proof.
  induction calls as [|[d k] rest IH]; intros s api_key v stored Hentry Hpos Hwin.
  - cbn. split; [reflexivity|]. intros k r Hin. apply elem_of_nil in Hin.
    destruct Hin.
  - cbn [in_turn]. cbn [map fst fold_right] in Hwin.
    apply Forall_cons in Hpos as [Hd Hpos]. cbn [fst] in Hd.
    assert (Hrest : 0 <= fold_right Z.add 0 (map fst rest)).
    { clear -Hpos. induction Hpos as [|c rest' Hc _ IH']; cbn; lia. }
    set (s0 := elapse d s).
    assert (Hentry0 : _connections s0 !! cache_key_of api_key = Some (v, stored))
      by exact Hentry.
    destruct (get_vectorstore_frame s0 k) as (Hnow & Httl & _ & Hinv & Hother).
    assert (Hstep :
      _connections (get_vectorstore k s0).2 !! cache_key_of api_key
        = Some (v, stored) /\
      invocations_for (cache_key_of api_key) (get_vectorstore k s0).2
        = invocations_for (cache_key_of api_key) s /\
      (k <> "" -> cache_key_of k = cache_key_of api_key ->
       (get_vectorstore k s0).1 = Ok (Some v))).
    { destruct (decide (cache_key_of k = cache_key_of api_key)) as [Hsame|Hne].
      - destruct (decide (k = "")) as [->|Hk].
        + unfold get_vectorstore. cbn.
          split; [exact Hentry0|]. split; [reflexivity | congruence].
        + rewrite (get_vectorstore_hit s0 k v stored Hk);
            [|rewrite Hsame; exact Hentry0 | cbn; lia].
          cbn. split; [exact Hentry0|]. split; [reflexivity | auto].
      - split; [rewrite Hother by congruence; exact Hentry0|].
        split; [|congruence].
        destruct Hinv as [Hinv|Hinv].
        + unfold invocations_for. rewrite Hinv. reflexivity.
        + rewrite (invocations_for_app _ s0 _ k Hinv Hne). reflexivity. }
    destruct Hstep as (Hentry1 & Hcount1 & Hret).
    destruct (get_vectorstore k s0) as [r1 s1]. cbn [fst snd] in *.
    destruct (IH s1 api_key v stored Hentry1 Hpos) as [Hcount Hall].
    { rewrite Hnow, Httl. cbn. lia. }
    destruct (in_turn rest s1) as [trace s2]. cbn [fst snd] in *.
    split; [congruence|].
    intros k' r Hin Hk' Hsame.
    apply elem_of_cons in Hin as [[= -> ->]|Hin]; [auto | eauto].
Qed.

(** C8.  When a call reaches the factory and the factory fails, the call
    returns unavailable and leaves no entry under the fingerprint of its
    credential, the other entries being untouched.  A following call, after
    any delay, with a credential the factory accepts is never answered with
    a failure, and when its fingerprint has no entry, as when it is the
    fingerprint of the failed call, it goes to the factory and returns the
    vectorstore just made. *)
Theorem failed_creation_is_not_cached (s : t) (api_key : string) :
  api_key <> "" ->
  (check (cache_key_of api_key) s).1 = Ok None ->
  factory_ok s api_key (length (invocations s)) = false ->
  let s' := (get_vectorstore api_key s).2 in
  (get_vectorstore api_key s).1 = Ok None /\
  invocations s' = (invocations s ++ [api_key])%list /\
  _connections s' !! cache_key_of api_key = None /\
  (forall k, k <> cache_key_of api_key ->
             _connections s' !! k = _connections s !! k) /\
  (forall later valid_key,
     valid_key <> "" ->
     factory_ok s' valid_key (length (invocations s')) = true ->
     let out := get_vectorstore valid_key (elapse later s') in
     (exists v, out.1 = Ok (Some v)) /\
     (_connections s' !! cache_key_of valid_key = None ->
      out.1 = Ok (Some (mk_vs valid_key (length (invocations s')))) /\
      invocations out.2 = (invocations s' ++ [valid_key])%list)).
Proof.
  intros Hkey Hcheck Hfail s'.
  assert (Hrun : get_vectorstore api_key s
                 = (Ok None,
                    mk (cache_ttl_minutes s)
                       (delete (cache_key_of api_key) (_connections s))
                       (now s) (factory_ok s) (invocations s ++ [api_key]))).
  { unfold get_vectorstore.
    destruct (String.eqb_spec api_key ""); [contradiction|].
    unfold bind, try_except, check, create, store, with_connections, ret in *.
    destruct (_connections s !! cache_key_of api_key) as [[v stored]|] eqn:Hentry.
    - destruct (now s - stored <? cache_ttl_minutes s * 60); [discriminate|].
      cbn. rewrite Hfail. reflexivity.
    - cbn. rewrite Hfail. rewrite delete_id by exact Hentry.
      reflexivity. }
  subst s'. rewrite Hrun. cbn [fst snd invocations _connections factory_ok].
  split; [reflexivity|]. split; [reflexivity|].
  split; [apply lookup_delete_eq|].
  split; [intros k Hk; apply lookup_delete_ne; congruence|].
  intros later valid_key Hvalid Hok.
  unfold get_vectorstore.
  destruct (String.eqb_spec valid_key ""); [contradiction|].
  unfold bind, try_except, check, create, store, with_connections, ret, elapse.
  cbn [fst snd invocations _connections factory_ok now cache_ttl_minutes].
  destruct (delete (cache_key_of api_key) (_connections s)
              !! cache_key_of valid_key) as [[v stored]|].
  - split; [|discriminate].
    destruct (_ <? _); cbn; [eauto|]. rewrite Hok. cbn. eauto.
  - cbn. rewrite Hok. cbn. split; [eauto|]. intros _. auto.
Qed.

End WithExternals.

(** C3, counterexample.  Two callers enter with the same credential while
    the cache is empty; both pass the check before either stores, and the
    factory is invoked twice for the one fingerprint without the clock
    moving. *)
Lemma two_callers_two_creations :
  let H := Fixture.libs in
  let s0 := new 30 0 (fun _ _ => true) in
  let out := interleave [Run 0; Run 1; Run 0; Run 1; Run 0; Run 1]
                        [Entering "sk-1"; Entering "sk-1"] s0 in
  out.1 = [Returned (Some (mk_vs "sk-1" 0)); Returned (Some (mk_vs "sk-1" 1))] /\
  invocations out.2 = ["sk-1"; "sk-1"] /\
  invocations_for (cache_key_of "sk-1") out.2 = 2%nat /\
  now out.2 = now s0.
Proof. vm_compute. repeat split; reflexivity. Qed.

(** [no_second_creation_in_turn] after a first creation at clock 0 with a
    TTL of 30 minutes: three more calls within the half hour, two of them
    with the same credential. *)
Lemma no_second_creation_in_turn_witness :
  let H := Fixture.libs in
  let s1 := (get_vectorstore "sk-1" (new 30 0 (fun _ _ => true))).2 in
  let calls := [(600, "sk-1"); (300, "sk-2"); (800, "sk-1")] in
  invocations_for (cache_key_of "sk-1") (in_turn calls s1).2 = 1%nat /\
  forall k r, (k, r) ∈ (in_turn calls s1).1 -> k <> "" ->
              cache_key_of k = cache_key_of "sk-1" ->
              r = Ok (Some (mk_vs "sk-1" 0)).
Proof.
  intros H s1 calls.
  destruct (no_second_creation_in_turn calls s1 "sk-1" (mk_vs "sk-1" 0) 0)
    as [Hcount Hall].
  - vm_compute. reflexivity.
  - repeat constructor; cbn; lia.
  - vm_compute. reflexivity.
  - split; [rewrite Hcount; vm_compute; reflexivity | exact Hall].
Defined.

(** [failed_creation_is_not_cached] with a factory that refuses its first
    invocation: the retry is a fresh creation. *)
Lemma failed_creation_is_not_cached_witness :
  let H := Fixture.libs in
  let s := new 30 0 (fun _ n => negb (Nat.eqb n 0)) in
  (get_vectorstore "sk-bad" s).1 = Ok None /\
  _connections (get_vectorstore "sk-bad" s).2 !! cache_key_of "sk-bad" = None /\
  (get_vectorstore "sk-bad" (elapse 1 (get_vectorstore "sk-bad" s).2)).1
  = Ok (Some (mk_vs "sk-bad" 1)).
Proof.
  intros H s.
  destruct (failed_creation_is_not_cached s "sk-bad")
    as (Hr & _ & Hnone & _ & Hnext); [discriminate | reflexivity | reflexivity |].
  split; [exact Hr|]. split; [exact Hnone|].
  destruct (Hnext 1 "sk-bad") as [_ Hfresh]; [discriminate | reflexivity |].
  destruct (Hfresh Hnone) as [Hv _]. exact Hv.
Defined.

End ChromaConnectionCacheFacts.

(** * Further properties of the code *)

(** ** ContextOptimizer: how the pieces compose *)

Module ContextOptimizerMore.
Import ContextOptimizer.

Lemma total_tokens_app (a b : list msg) :
  total_tokens (a ++ b) = (total_tokens a + total_tokens b)%nat.
Proof.
  unfold total_tokens. induction a as [|m a IH]; [reflexivity|].
  cbn [app map sum_list_with]. rewrite IH. unfold id. lia.
Qed.

Lemma total_tokens_drop (n : nat) (h : list msg) :
  (total_tokens (drop n h) <= total_tokens h)%nat.
Proof.
  rewrite <- (take_drop n h) at 2. rewrite total_tokens_app. lia.
Qed.

Lemma last_n_last_n {A} (n m : nat) (l : list A) :
  (n <= m)%nat -> last_n n (last_n m l) = last_n n l.
Proof.
  intros Hnm. unfold last_n. rewrite drop_drop, length_drop. f_equal. lia.
Qed.

Lemma last_n_all {A} (n : nat) (l : list A) :
  (length l <= n)%nat -> last_n n l = l.
Proof.
  intros Hlen. unfold last_n. replace (length l - n)%nat with 0%nat by lia.
  reflexivity.
Qed.

Lemma last_n_nil {A} (n : nat) (l : list A) :
  (0 < n)%nat -> last_n n l = [] -> l = [].
Proof.
  intros Hn Hnil. apply (f_equal length) in Hnil.
  unfold last_n in Hnil. rewrite length_drop in Hnil. cbn in Hnil.
  destruct l; [reflexivity | cbn in Hnil; lia].
Qed.

(** [compress_chat_history] by its two tests, without the case on the empty
    list (the empty list costs 0 tokens and is its own suffix). *)
Lemma compress_by_tests (self : t) (h : list msg) :
  compress_chat_history self h
  = if Z.of_nat (total_tokens h) <=? max_context_tokens self then h
    else if Z.of_nat (total_tokens (last_n 10 h)) <=? max_context_tokens self
         then last_n 10 h else last_n 6 h.
Proof.
  destruct h as [|m h]; [|reflexivity].
  change (total_tokens (last_n 10 (@nil msg))) with 0%nat.
  change (total_tokens (@nil msg)) with 0%nat.
  destruct (Z.of_nat 0 <=? max_context_tokens self); reflexivity.
Qed.

(** X1.  The history [optimize_context] returns is the one
    [compress_chat_history] returns on the whole history: the second
    compression of the ten most recent turns changes nothing more.  The
    summary is empty exactly when the history is within the budget or has at
    most ten turns, and otherwise is the summary of the turns before the last
    ten.  The only way to raise is a ['human'] turn without ['content'] among
    those older turns. *)
Theorem optimize_context_is_compress (self : t) (h : list msg) :
  match optimize_context self h with
  | Ok (recent, summary) =>
      recent = compress_chat_history self h /\
      (summary = "" <->
       Z.of_nat (total_tokens h) <= max_context_tokens self
       \/ (length h <= 10)%nat) /\
      (max_context_tokens self < Z.of_nat (total_tokens h) ->
       summarize_old_context (take (length h - 10) h) = Ok summary)
  | Raise e =>
      e = KeyError /\
      max_context_tokens self < Z.of_nat (total_tokens h) /\
      exists m, m ∈ take (length h - 10) h /\
                m !! "role" = Some "human" /\ m !! "content" = None
  end.
Proof.
  rewrite compress_by_tests. unfold optimize_context.
  destruct h as [|m0 h0] eqn:Eh.
  { change (total_tokens (last_n 10 (@nil msg))) with 0%nat.
    change (total_tokens (@nil msg)) with 0%nat.
    destruct (Z.leb_spec (Z.of_nat 0) (max_context_tokens self));
      (split; [reflexivity|]); (split; [|reflexivity]);
      (split; [intros _; right; cbn; lia | reflexivity]). }
  rewrite <- Eh. assert (Hne : h <> []) by (subst; discriminate). clear Eh.
  destruct (Z.leb_spec (Z.of_nat (total_tokens h)) (max_context_tokens self))
    as [Hfit|Hover].
  { repeat split; auto; intros; lia. }
  change (drop (length h - 10) h) with (last_n 10 h).
  set (old := take (length h - 10) h).
  assert (Hold : old = [] <-> (length h <= 10)%nat).
  { subst old. split.
    - intros Hnil. apply (f_equal length) in Hnil.
      rewrite length_take in Hnil. cbn in Hnil. lia.
    - intros Hlen. replace (length h - 10)%nat with 0%nat by lia. reflexivity. }
  assert (Hrecent : compress_chat_history self (last_n 10 h)
            = if Z.of_nat (total_tokens (last_n 10 h)) <=? max_context_tokens self
              then last_n 10 h else last_n 6 h).
  { rewrite compress_by_tests.
    destruct (Z.leb_spec (Z.of_nat (total_tokens (last_n 10 h)))
                (max_context_tokens self)); [reflexivity|].
    rewrite (last_n_all 10 (last_n 10 h))
      by (rewrite ContextOptimizerFacts.last_n_length; lia).
    destruct (Z.leb_spec (Z.of_nat (total_tokens (last_n 10 h)))
                (max_context_tokens self)); [lia|].
    apply last_n_last_n. lia. }
  unfold summarize_old_context.
  destruct old as [|o old'] eqn:Eold.
  { split; [exact Hrecent|]. split; [|reflexivity].
    split; [intros _; right; apply Hold; reflexivity | reflexivity]. }
  rewrite <- Eold in *.
  assert (Holdne : ~ (length h <= 10)%nat).
  { intros Hlen. apply Hold in Hlen. congruence. }
  assert (Hqueries :
    match user_queries_of old with
    | Ok _ => True
    | Raise e => e = KeyError /\
                 exists m, m ∈ old /\ m !! "role" = Some "human"
                           /\ m !! "content" = None
    end).
  { clear. induction old as [|m old IH]; [exact I|]. cbn [user_queries_of].
    destruct (bool_decide (m !! "role" = Some "human")) eqn:Hrole.
    - apply bool_decide_eq_true_1 in Hrole.
      destruct (m !! "content") as [c|] eqn:Hc.
      + destruct (user_queries_of old) as [cs|e]; [exact I|].
        destruct IH as [-> (m' & Hin & Hm')]. split; [reflexivity|].
        exists m'. split; [right; exact Hin | exact Hm'].
      + split; [reflexivity|]. exists m. split; [left | auto].
    - destruct (user_queries_of old) as [cs|e]; [exact I|].
      destruct IH as [-> (m' & Hin & Hm')]. split; [reflexivity|].
      exists m'. split; [right; exact Hin | exact Hm']. }
  destruct (user_queries_of old) as [user_queries|e].
  - destruct (length user_queries <=? 2)%nat.
    + split; [exact Hrecent|]. split; [|reflexivity].
      split; [discriminate | intros [?|?]; [lia | contradiction]].
    + split; [exact Hrecent|]. split; [|reflexivity].
      split; [discriminate | intros [?|?]; [lia | contradiction]].
  - destruct Hqueries as [-> Hm]. auto.
Qed.

(** X2.  Compressing twice is compressing once; what is returned is a suffix
    of the history, and has at most ten turns once the history is over the
    budget. *)
Theorem compress_chat_history_idempotent (self : t) (h : list msg) :
  compress_chat_history self (compress_chat_history self h)
  = compress_chat_history self h /\
  (exists older, h = (older ++ compress_chat_history self h)%list) /\
  (max_context_tokens self < Z.of_nat (total_tokens h) ->
   (length (compress_chat_history self h) <= 10)%nat).
Proof.
  rewrite !(compress_by_tests self h).
  destruct (Z.leb_spec (Z.of_nat (total_tokens h)) (max_context_tokens self))
    as [Hfit|Hover].
  { rewrite compress_by_tests.
    destruct (Z.leb_spec (Z.of_nat (total_tokens h)) (max_context_tokens self));
      [|lia].
    split; [reflexivity|]. split; [exists []; reflexivity | lia]. }
  destruct (Z.leb_spec (Z.of_nat (total_tokens (last_n 10 h)))
              (max_context_tokens self)) as [Hfit10|Hover10].
  - rewrite compress_by_tests.
    destruct (Z.leb_spec (Z.of_nat (total_tokens (last_n 10 h)))
                (max_context_tokens self)); [|lia].
    split; [reflexivity|]. split.
    + exists (take (length h - 10) h). symmetry.
      apply ContextOptimizerFacts.last_n_suffix.
    + intros _. rewrite ContextOptimizerFacts.last_n_length. lia.
  - rewrite compress_by_tests.
    rewrite (last_n_all 10 (last_n 6 h))
      by (rewrite ContextOptimizerFacts.last_n_length; lia).
    rewrite (last_n_all 6 (last_n 6 h))
      by (rewrite ContextOptimizerFacts.last_n_length; lia).
    split.
    + destruct (Z.of_nat (total_tokens (last_n 6 h)) <=? max_context_tokens self);
        reflexivity.
    + split.
      * exists (take (length h - 6) h). symmetry.
        apply ContextOptimizerFacts.last_n_suffix.
      * intros _. rewrite ContextOptimizerFacts.last_n_length. lia.
Qed.

(** X3.  There is no shrinking to fit: the compressed history is within the
    budget exactly when the last six turns of the history are. *)
Theorem compress_fits_iff_last_six_fit (self : t) (h : list msg) :
  Z.of_nat (total_tokens (compress_chat_history self h))
    <= max_context_tokens self
  <-> Z.of_nat (total_tokens (last_n 6 h)) <= max_context_tokens self.
Proof.
  rewrite compress_by_tests.
  assert (H610 : (total_tokens (last_n 6 h) <= total_tokens (last_n 10 h))%nat).
  { rewrite <- (last_n_last_n 6 10 h) by lia. apply total_tokens_drop. }
  assert (H10 : (total_tokens (last_n 10 h) <= total_tokens h)%nat)
    by apply total_tokens_drop.
  destruct (Z.leb_spec (Z.of_nat (total_tokens h)) (max_context_tokens self)).
  { split; lia. }
  destruct (Z.leb_spec (Z.of_nat (total_tokens (last_n 10 h)))
              (max_context_tokens self)).
  { split; lia. }
  reflexivity.
Qed.

End ContextOptimizerMore.

(** ** RedisCache: round trips, expiry and isolation *)

Module RedisCacheMore.
Import RedisCache RedisCacheFacts.

Lemma history_key_inj (a b : string) :
  "chat_history:" ++ a = "chat_history:" ++ b -> a = b.
Proof. intros Heq. injection Heq. auto. Qed.

Lemma reachable_later (s s' : Redis.server) :
  Redis.avail s' = Redis.avail s -> (Redis.trips s <= Redis.trips s')%nat ->
  reachable s -> reachable s'.
Proof. intros Ha Ht Hup n Hn. rewrite Ha. apply Hup. lia. Qed.

Lemma timedelta_seconds_in_range (unit n : Z) :
  -999999999 <= n * unit / 86400 <= 999999999 ->
  Redis.timedelta_seconds unit n = Ok (n * unit).
Proof.
  intros [Hlo Hhi]. unfold Redis.timedelta_seconds.
  destruct (Z.leb_spec (-999999999) (n * unit / 86400)); [|lia].
  destruct (Z.leb_spec (n * unit / 86400) 999999999); [|lia].
  reflexivity.
Qed.

(** With the service reachable and a TTL a [timedelta] can hold, the write
    goes through: two round trips, one entry replaced. *)
Lemma set_chat_history_reachable `{Externals} (self : t) (session_id : string)
    (chat_history : json) (ttl_hours : Z) (s : Redis.server) :
  redis_client self = Some Client -> reachable s ->
  0 < ttl_hours < 24000000000 ->
  set_chat_history self session_id chat_history ttl_hours s
  = (Ok true,
     Redis.mk_server (Redis.now s)
       (<["chat_history:" ++ session_id :=
            Redis.mk_entry (json_dumps chat_history)
                           (Redis.now s + ttl_hours * 3600)]> (Redis.data s))
       (Redis.avail s) (S (S (Redis.trips s)))).
Proof.
  intros Hc Hup Httl. unfold set_chat_history, bind.
  rewrite (is_connected_up self s Hc) by (apply Hup; lia). cbn [negb].
  unfold try_except, bind, on_client, Redis.setex, Redis.round_trip, ret.
  rewrite timedelta_seconds_in_range, Hc.
  2:{ assert (0 <= ttl_hours * 3600 / 86400) by (apply Z.div_pos; lia).
      assert (ttl_hours * 3600 / 86400 < 1000000000)
        by (apply Z.div_lt_upper_bound; lia).
      lia. }
  cbn [Redis.avail Redis.trips Redis.now Redis.data].
  rewrite (Hup (S (Redis.trips s))) by lia.
  destruct (Z.leb_spec (ttl_hours * 3600) 0); [lia|]. reflexivity.
Qed.

(** X4.  What was written is read back unchanged until its TTL runs out, and
    is a miss from then on.  The codec has to give back the history it
    encoded, and the history must not encode to the empty string or be [None]. *)
Theorem write_then_read `{Externals} (self : t) (session_id : string)
    (chat_history : json) (ttl_hours : Z) (s : Redis.server) :
  redis_client self = Some Client -> reachable s ->
  0 < ttl_hours < 24000000000 ->
  json_loads (json_dumps chat_history) = Some chat_history ->
  chat_history <> JNull -> json_dumps chat_history <> "" ->
  let s' := (set_chat_history self session_id chat_history ttl_hours s).2 in
  (set_chat_history self session_id chat_history ttl_hours s).1 = Ok true /\
  (forall later, 0 <= later < ttl_hours * 3600 ->
     (get_chat_history self session_id (Redis.elapse later s')).1
     = Ok (Some chat_history)) /\
  (forall later, ttl_hours * 3600 <= later ->
     (get_chat_history self session_id (Redis.elapse later s')).1 = Ok None).
Proof.
  intros Hc Hup Httl Hcodec Hnull Hempty s'. subst s'.
  rewrite (set_chat_history_reachable self session_id chat_history ttl_hours s
             Hc Hup Httl).
  cbn [fst snd]. split; [reflexivity|]. split.
  - intros later Hlater. rewrite get_chat_history_reachable; [|exact Hc|].
    2:{ intros n Hn. cbn in *. apply Hup. lia. }
    unfold cached_history, Redis.live, Redis.elapse.
    cbn [Redis.data Redis.now]. rewrite lookup_insert_eq.
    cbn [Redis.expires_at Redis.value].
    destruct (Z.ltb_spec (Redis.now s + later)
                (Redis.now s + ttl_hours * 3600)); [|lia].
    destruct (String.eqb_spec (json_dumps chat_history) ""); [contradiction|].
    cbn [negb]. rewrite Hcodec.
    destruct chat_history; [contradiction | reflexivity ..].
  - intros later Hlater. apply get_chat_history_miss.
    unfold Redis.live, Redis.elapse. cbn [Redis.data Redis.now].
    rewrite lookup_insert_eq. cbn [Redis.expires_at].
    destruct (Z.ltb_spec (Redis.now s + later)
                (Redis.now s + ttl_hours * 3600)); [lia | reflexivity].
Qed.

(** [write_then_read] is Scenario A of the specification on the sample
    data: a history written with a TTL of one hour is read back at once,
    and is a miss an hour later. *)
Lemma write_then_read_witness :
  let H := Fixture.libs in
  let s := Fixture.empty_server Fixture.up in
  let s' := (set_chat_history Fixture.redis_cache "s1" Fixture.greeting 1 s).2 in
  (get_chat_history Fixture.redis_cache "s1" (Redis.elapse 0 s')).1
  = Ok (Some Fixture.greeting) /\
  (get_chat_history Fixture.redis_cache "s1" (Redis.elapse 3600 s')).1
  = Ok None.
Proof.
  intros H s s'.
  destruct (write_then_read Fixture.redis_cache "s1" Fixture.greeting 1 s)
    as (_ & Hhit & Hmiss).
  - reflexivity.
  - intros n _. reflexivity.
  - lia.
  - vm_compute. reflexivity.
  - discriminate.
  - vm_compute. discriminate.
  - split; [apply Hhit; lia | apply Hmiss; lia].
Defined.

Lemma get_chat_history_up `{Externals} (self : t) (session_id : string)
    (s : Redis.server) :
  redis_client self = Some Client -> reachable s ->
  get_chat_history self session_id s
  = (Ok (cached_history s session_id),
     Redis.mk_server (Redis.now s) (Redis.data s) (Redis.avail s)
                     (S (S (Redis.trips s)))).
Proof.
  intros Hc Hup. unfold get_chat_history, bind.
  rewrite (is_connected_up self s Hc) by (apply Hup; lia). cbn [negb].
  unfold cached_history, try_except, bind, on_client, Redis.get,
    Redis.round_trip, loads, of_option, ret, raise.
  rewrite Hc. cbn [Redis.avail Redis.trips Redis.now Redis.data].
  rewrite (Hup (S (Redis.trips s))) by lia.
  unfold Redis.live. cbn [Redis.data Redis.now].
  destruct (Redis.data s !! _) as [e|]; [|reflexivity].
  destruct (Redis.now s <? Redis.expires_at e); [|reflexivity].
  destruct (negb (Redis.value e =? "")%string); [|reflexivity].
  destruct (json_loads (Redis.value e)); reflexivity.
Qed.

(** A live entry whose value the codec decodes is what a reachable service
    answers. *)
Lemma stored_is_read `{Externals} (self : t) (session_id : string)
    (h : json) (expiry : Z) (s : Redis.server) :
  redis_client self = Some Client -> reachable s ->
  Redis.data s !! ("chat_history:" ++ session_id)
  = Some (Redis.mk_entry (json_dumps h) expiry) ->
  Redis.now s < expiry ->
  json_loads (json_dumps h) = Some h -> h <> JNull -> json_dumps h <> "" ->
  (get_chat_history self session_id s).1 = Ok (Some h).
Proof.
  intros Hc Hup Hentry Hlive Hcodec Hnull Hempty.
  rewrite get_chat_history_reachable by assumption.
  unfold cached_history, Redis.live. rewrite Hentry.
  cbn [Redis.expires_at Redis.value].
  destruct (Z.ltb_spec (Redis.now s) expiry); [|lia].
  destruct (String.eqb_spec (json_dumps h) ""); [contradiction|].
  cbn [negb]. rewrite Hcodec. destruct h; [contradiction | reflexivity ..].
Qed.

(** X5.  Turns appended are read back after the turns the session held, in the
    order they were appended, for the next 24 hours. *)
Theorem append_then_read `{Externals} (self : t)
    (session_id user_query ai_response : string) (prior : list json)
    (s : Redis.server) :
  let after := JList (prior ++ [turn "user" user_query;
                                turn "assistant" ai_response]) in
  redis_client self = Some Client -> reachable s ->
  holds_history s session_id prior ->
  json_loads (json_dumps after) = Some after -> json_dumps after <> "" ->
  let s' := (append_to_chat_history self session_id user_query ai_response s).2 in
  (append_to_chat_history self session_id user_query ai_response s).1 = Ok true /\
  forall later, 0 <= later < 86400 ->
    (get_chat_history self session_id (Redis.elapse later s')).1 = Ok (Some after).
Proof.
  intros after Hc Hup Hprior Hcodec Hempty s'. subst s'.
  unfold append_to_chat_history, bind.
  rewrite (is_connected_up self s Hc) by (apply Hup; lia). cbn [negb].
  unfold try_except, bind.
  rewrite get_chat_history_up; [|exact Hc|].
  2:{ intros n Hn. cbn in *. apply Hup. lia. }
  assert (Hsame : forall t1,
            cached_history
              (Redis.mk_server (Redis.now s) (Redis.data s) (Redis.avail s) t1)
              session_id = cached_history s session_id) by reflexivity.
  rewrite Hsame.
  assert (Hcurrent :
    match cached_history s session_id with
    | Some j => if truthy j then j else JList []
    | None => JList []
    end = JList prior).
  { destruct Hprior as [[Hnone Hnil]|Hsome].
    - rewrite Hnone, Hnil. reflexivity.
    - rewrite Hsome. destruct prior; reflexivity. }
  rewrite Hcurrent. unfold extend, ret. fold after.
  rewrite set_chat_history_reachable; [|exact Hc| |lia].
  2:{ intros n Hn. cbn in *. apply Hup. lia. }
  cbn [fst snd Redis.now Redis.data Redis.avail Redis.trips].
  split; [reflexivity|]. intros later Hlater.
  apply (stored_is_read self session_id after (Redis.now s + 24 * 3600));
    try assumption.
  - intros n Hn. cbn in *. apply Hup. lia.
  - cbn. apply lookup_insert_eq.
  - cbn. lia.
  - discriminate.
Qed.

(** Two appends to a session without history, read back in order. *)
Lemma append_then_read_witness :
  let H := Fixture.libs in
  let s := Fixture.empty_server Fixture.up in
  let s' := (append_to_chat_history Fixture.redis_cache "s1" "hi" "hello" s).2 in
  (get_chat_history Fixture.redis_cache "s1" (Redis.elapse 60 s')).1
  = Ok (Some Fixture.greeting).
Proof.
  intros H s s'.
  destruct (append_then_read Fixture.redis_cache "s1" "hi" "hello" [] s)
    as [_ Hread].
  - reflexivity.
  - intros n _. reflexivity.
  - left. split; reflexivity.
  - vm_compute. reflexivity.
  - vm_compute. discriminate.
  - apply Hread. lia.
Defined.

#[local] Instance only_key_preorder (key : string) : PreOrder (only_key key).
Proof.
  split.
  - intros s. unfold only_key. auto.
  - intros s1 s2 s3 (Hn & Ha & Ht & Hd) (Hn' & Ha' & Ht' & Hd').
    unfold only_key. repeat split; try congruence; [lia|].
    intros k Hk. rewrite Hd', Hd by assumption. reflexivity.
Qed.

Lemma round_trip_only_key {A} (key : string)
    (cmd : Redis.server -> result A * Redis.server) :
  (forall s, only_key key s (cmd s).2) ->
  preserves (only_key key) (Redis.round_trip cmd).
Proof.
  intros Hcmd s. unfold Redis.round_trip.
  set (s' := Redis.mk_server _ _ _ _).
  assert (Hs' : only_key key s s').
  { unfold only_key. cbn. repeat split; auto. }
  destruct (Redis.avail s (Redis.trips s)); [|exact Hs'].
  etransitivity; [exact Hs' | apply Hcmd].
Qed.

Lemma is_connected_only_key (key : string) (self : t) :
  preserves (only_key key) (is_connected self).
Proof.
  unfold is_connected.
  destruct (redis_client self); [|apply preserves_ret; apply _].
  apply preserves_try_except; [apply _| |intros; apply preserves_ret; apply _].
  apply preserves_bind; [apply _| |intros; apply preserves_ret; apply _].
  apply round_trip_only_key. intros s. reflexivity.
Qed.

Lemma get_only_key (key k : string) : preserves (only_key key) (Redis.get k).
Proof. apply round_trip_only_key. intros s. reflexivity. Qed.

Lemma setex_only_key (key : string) (seconds : Z) (v : string) :
  preserves (only_key key) (Redis.setex key seconds v).
Proof.
  apply round_trip_only_key. intros s.
  destruct (seconds <=? 0); [reflexivity|].
  unfold only_key. cbn. repeat split; auto.
  intros k Hk. apply lookup_insert_ne. congruence.
Qed.

Lemma delete_only_key (key : string) :
  preserves (only_key key) (Redis.delete key).
Proof.
  apply round_trip_only_key. intros s.
  unfold only_key. cbn. repeat split; auto.
  intros k Hk. apply lookup_delete_ne. congruence.
Qed.

Lemma on_client_only_key {A} (key : string) (self : t) (cmd : M A) :
  preserves (only_key key) cmd -> preserves (only_key key) (on_client self cmd).
Proof.
  intros Hcmd. unfold on_client.
  destruct (redis_client self); [exact Hcmd | apply preserves_raise; apply _].
Qed.

Lemma lifted_only_key {A} (key : string) (r : result A) :
  preserves (only_key key) (fun s : Redis.server => (r, s)).
Proof. intros s. reflexivity. Qed.

Ltac only_key_step :=
  first
    [ apply preserves_ret; apply _
    | apply preserves_raise; apply _
    | apply preserves_of_option; apply _
    | apply lifted_only_key
    | apply is_connected_only_key
    | apply on_client_only_key
    | apply get_only_key
    | apply setex_only_key
    | apply delete_only_key
    | apply preserves_bind; [apply _ | | intros ?]
    | apply preserves_try_except; [apply _ | | intros ?]
    | match goal with |- preserves _ (match ?x with _ => _ end) => destruct x end
    | match goal with |- preserves _ (if ?x then _ else _) => destruct x end ].

Lemma get_chat_history_only_key `{Externals} (self : t) (session_id : string) :
  preserves (only_key ("chat_history:" ++ session_id))
            (get_chat_history self session_id).
Proof. unfold get_chat_history, loads. repeat only_key_step. Qed.

Lemma set_chat_history_only_key `{Externals} (self : t) (session_id : string)
    (chat_history : json) (ttl_hours : Z) :
  preserves (only_key ("chat_history:" ++ session_id))
            (set_chat_history self session_id chat_history ttl_hours).
Proof. unfold set_chat_history. repeat only_key_step. Qed.

Lemma append_only_key `{Externals} (self : t)
    (session_id user_query ai_response : string) :
  preserves (only_key ("chat_history:" ++ session_id))
            (append_to_chat_history self session_id user_query ai_response).
Proof.
  unfold append_to_chat_history, extend.
  repeat first [ apply get_chat_history_only_key
               | apply set_chat_history_only_key
               | only_key_step ].
Qed.

Lemma invalidate_only_key `{Externals} (self : t) (session_id : string) :
  preserves (only_key ("chat_history:" ++ session_id))
            (invalidate_chat_history self session_id).
Proof. unfold invalidate_chat_history. repeat only_key_step. Qed.

Lemma only_key_live (key k : string) (s s' : Redis.server) (later : Z) :
  only_key key s s' -> k <> key ->
  Redis.live (Redis.elapse later s') k = Redis.live (Redis.elapse later s) k.
Proof.
  intros (Hn & _ & _ & Hd) Hk. unfold Redis.live, Redis.elapse.
  cbn [Redis.data Redis.now]. rewrite Hn, (Hd k Hk). reflexivity.
Qed.

(** X6.  A write, an append or an invalidation for one session changes no
    entry under any other key, whatever the service does in the middle: what
    another session, the semantic cache or a chain configuration holds is read
    as before, at any later time. *)
Theorem writes_touch_their_session_only `{Externals} (self : t)
    (session_id user_query ai_response : string) (chat_history : json)
    (ttl_hours : Z) (s : Redis.server) (k : string) (later : Z) :
  k <> "chat_history:" ++ session_id ->
  Redis.live (Redis.elapse later
                (set_chat_history self session_id chat_history ttl_hours s).2) k
  = Redis.live (Redis.elapse later s) k /\
  Redis.live (Redis.elapse later
                (append_to_chat_history self session_id user_query
                                        ai_response s).2) k
  = Redis.live (Redis.elapse later s) k /\
  Redis.live (Redis.elapse later (invalidate_chat_history self session_id s).2) k
  = Redis.live (Redis.elapse later s) k.
Proof.
  intros Hk. repeat split; eapply only_key_live; try exact Hk.
  - apply set_chat_history_only_key.
  - apply append_only_key.
  - apply invalidate_only_key.
Qed.

(** The sample session [s1] keeps its greeting while session [s2] is
    written, appended to and invalidated. *)
Lemma writes_touch_their_session_only_witness :
  let H := Fixture.libs in
  let s := Fixture.server_with_greeting in
  Redis.live (Redis.elapse 10
                (append_to_chat_history Fixture.redis_cache "s2" "bye" "goodbye" s).2)
             "chat_history:s1"
  = Some (Fixture.dumps Fixture.greeting).
Proof.
  intros H s.
  destruct (writes_touch_their_session_only Fixture.redis_cache "s2"
              "bye" "goodbye" JNull 24 s "chat_history:s1" 10)
    as (_ & Happend & _).
  - discriminate.
  - rewrite Happend. vm_compute. reflexivity.
Defined.

(** X7.  After an invalidation that was applied the session is a miss, at once
    and at any later time, whether the service then answers or not. *)
Theorem invalidate_then_miss `{Externals} (self : t) (session_id : string)
    (s : Redis.server) (later : Z) :
  (invalidate_chat_history self session_id s).1 = Ok true ->
  (get_chat_history self session_id
     (Redis.elapse later (invalidate_chat_history self session_id s).2)).1
  = Ok None.
Proof.
  intros Hdone. apply get_chat_history_miss.
  revert Hdone. unfold_ops. unfold Redis.live, Redis.elapse.
  destruct (redis_client self) as [[]|]; cbn; [|discriminate].
  step_trip; cbn; [|discriminate].
  step_trip; cbn; [|discriminate].
  intros _. rewrite lookup_delete_eq. reflexivity.
Qed.

(** The sample session is invalidated and then read. *)
Lemma invalidate_then_miss_witness :
  let H := Fixture.libs in
  let s := Fixture.server_with_greeting in
  (get_chat_history Fixture.redis_cache "s1" s).1 = Ok (Some Fixture.greeting) /\
  (get_chat_history Fixture.redis_cache "s1"
     (Redis.elapse 0 (invalidate_chat_history Fixture.redis_cache "s1" s).2)).1
  = Ok None.
Proof.
  intros H s. split; [vm_compute; reflexivity|].
  apply (invalidate_then_miss Fixture.redis_cache "s1" s 0).
  vm_compute. reflexivity.
Defined.

Lemma get_rag_chain_config_up `{Externals} (self : t) (api_key model : string)
    (s : Redis.server) :
  redis_client self = Some Client -> reachable s ->
  (get_rag_chain_config self api_key model s).1
  = Ok match Redis.live s (rag_chain_key api_key model) with
       | Some d =>
           if negb (d =? "")%string then
             match json_loads d with Some v => py_value v | None => None end
           else None
       | None => None
       end.
Proof.
  intros Hc Hup. unfold get_rag_chain_config, bind.
  rewrite (is_connected_up self s Hc) by (apply Hup; lia). cbn [negb].
  unfold try_except, bind, on_client, Redis.get, Redis.round_trip, loads,
    of_option, ret, raise.
  rewrite Hc. cbn [Redis.avail Redis.trips Redis.now Redis.data].
  rewrite (Hup (S (Redis.trips s))) by lia.
  unfold Redis.live. cbn [Redis.data Redis.now].
  destruct (Redis.data s !! _) as [e|]; [|reflexivity].
  destruct (Redis.now s <? Redis.expires_at e); [|reflexivity].
  destruct (negb (Redis.value e =? "")%string); [|reflexivity].
  destruct (json_loads (Redis.value e)); reflexivity.
Qed.

Lemma set_rag_chain_config_up `{Externals} (self : t) (api_key model : string)
    (config : json) (ttl_minutes : Z) (s : Redis.server) :
  redis_client self = Some Client -> reachable s ->
  0 < ttl_minutes < 1440000000000 ->
  set_rag_chain_config self api_key model config ttl_minutes s
  = (Ok true,
     Redis.mk_server (Redis.now s)
       (<[rag_chain_key api_key model :=
            Redis.mk_entry (json_dumps config)
                           (Redis.now s + ttl_minutes * 60)]> (Redis.data s))
       (Redis.avail s) (S (S (Redis.trips s)))).
Proof.
  intros Hc Hup Httl. unfold set_rag_chain_config, bind.
  rewrite (is_connected_up self s Hc) by (apply Hup; lia). cbn [negb].
  unfold try_except, bind, on_client, Redis.setex, Redis.round_trip, ret.
  rewrite timedelta_seconds_in_range, Hc.
  2:{ assert (0 <= ttl_minutes * 60 / 86400) by (apply Z.div_pos; lia).
      assert (ttl_minutes * 60 / 86400 < 1000000000)
        by (apply Z.div_lt_upper_bound; lia).
      lia. }
  cbn [Redis.avail Redis.trips Redis.now Redis.data].
  rewrite (Hup (S (Redis.trips s))) by lia.
  destruct (Z.leb_spec (ttl_minutes * 60) 0); [lia|]. reflexivity.
Qed.

Lemma rag_chain_key_model `{Externals} (api_key model model' : string) :
  rag_chain_key api_key model = rag_chain_key api_key model' -> model = model'.
Proof.
  unfold rag_chain_key. intros Heq. injection Heq as Heq.
  induction (String.substring 0 16 (sha256_hexdigest api_key)) as [|c h IH].
  - cbn in Heq. injection Heq. auto.
  - cbn in Heq. injection Heq. auto.
Qed.

(** X8.  A chain configuration is read back for the same credential and model
    until its TTL in minutes runs out, and is a miss from then on; the
    configuration cached for another model of the same credential is read as
    before. *)
Theorem config_write_then_read `{Externals} (self : t)
    (api_key model : string) (config : json) (ttl_minutes : Z)
    (s : Redis.server) :
  redis_client self = Some Client -> reachable s ->
  0 < ttl_minutes < 1440000000000 ->
  json_loads (json_dumps config) = Some config ->
  config <> JNull -> json_dumps config <> "" ->
  let s' := (set_rag_chain_config self api_key model config ttl_minutes s).2 in
  (forall later, 0 <= later < ttl_minutes * 60 ->
     (get_rag_chain_config self api_key model (Redis.elapse later s')).1
     = Ok (Some config)) /\
  (forall later, ttl_minutes * 60 <= later ->
     (get_rag_chain_config self api_key model (Redis.elapse later s')).1
     = Ok None) /\
  (forall later other, other <> model ->
     (get_rag_chain_config self api_key other (Redis.elapse later s')).1
     = (get_rag_chain_config self api_key other (Redis.elapse later s)).1).
Proof.
  intros Hc Hup Httl Hcodec Hnull Hempty s'. subst s'.
  rewrite (set_rag_chain_config_up self api_key model config ttl_minutes s
             Hc Hup Httl).
  cbn [snd].
  assert (Hup' : forall later,
            reachable (Redis.elapse later
              (Redis.mk_server (Redis.now s)
                 (<[rag_chain_key api_key model :=
                      Redis.mk_entry (json_dumps config)
                        (Redis.now s + ttl_minutes * 60)]> (Redis.data s))
                 (Redis.avail s) (S (S (Redis.trips s)))))).
  { intros later n Hn. cbn in *. apply Hup. lia. }
  assert (Hup0 : forall later, reachable (Redis.elapse later s)).
  { intros later n Hn. cbn in *. apply Hup. lia. }
  repeat split.
  - intros later Hlater. rewrite get_rag_chain_config_up by auto.
    unfold Redis.live, Redis.elapse. cbn [Redis.data Redis.now].
    rewrite lookup_insert_eq. cbn [Redis.expires_at Redis.value].
    destruct (Z.ltb_spec (Redis.now s + later)
                (Redis.now s + ttl_minutes * 60)); [|lia].
    destruct (String.eqb_spec (json_dumps config) ""); [contradiction|].
    cbn [negb]. rewrite Hcodec. destruct config; [contradiction | reflexivity ..].
  - intros later Hlater. rewrite get_rag_chain_config_up by auto.
    unfold Redis.live, Redis.elapse. cbn [Redis.data Redis.now].
    rewrite lookup_insert_eq. cbn [Redis.expires_at].
    destruct (Z.ltb_spec (Redis.now s + later)
                (Redis.now s + ttl_minutes * 60)); [lia | reflexivity].
  - intros later other Hother. rewrite !get_rag_chain_config_up by auto.
    unfold Redis.live, Redis.elapse. cbn [Redis.data Redis.now].
    rewrite lookup_insert_ne; [reflexivity|].
    intros Heq. apply rag_chain_key_model in Heq. congruence.
Qed.

(** A configuration cached for half an hour, read after ten minutes and
    after thirty. *)
Lemma config_write_then_read_witness :
  let H := Fixture.libs in
  let s := Fixture.empty_server Fixture.up in
  let s' := (set_rag_chain_config Fixture.redis_cache "sk-1" "gpt-4o"
               Fixture.greeting 30 s).2 in
  (get_rag_chain_config Fixture.redis_cache "sk-1" "gpt-4o"
     (Redis.elapse 600 s')).1 = Ok (Some Fixture.greeting) /\
  (get_rag_chain_config Fixture.redis_cache "sk-1" "gpt-4o"
     (Redis.elapse 1800 s')).1 = Ok None.
Proof.
  intros H s s'.
  destruct (config_write_then_read Fixture.redis_cache "sk-1" "gpt-4o"
              Fixture.greeting 30 s) as (Hhit & Hmiss & _).
  - reflexivity.
  - intros n _. reflexivity.
  - lia.
  - vm_compute. reflexivity.
  - discriminate.
  - vm_compute. discriminate.
  - split; [apply Hhit; lia | apply Hmiss; lia].
Defined.

Lemma try_except_returns {S A} (body : S -> result A * S)
    (handler : exn -> S -> result A * S) (s : S) :
  (forall e s', exists a, (handler e s').1 = Ok a) ->
  exists a, (try_except body handler s).1 = Ok a.
Proof.
  intros Hhandler. unfold try_except.
  destruct (body s) as [[a|e] s']; [cbn; eauto | apply Hhandler].
Qed.

Lemma rate_bounds (h m : Q) :
  (0 <= h)%Q -> (0 <= m)%Q -> (0 < h + m)%Q ->
  (0 <= h / (h + m) * 100 <= 100)%Q.
Proof.
  intros Hh Hm Htotal.
  assert (Hlo : (0 <= h / (h + m))%Q).
  { apply Qle_shift_div_l; [exact Htotal | lra]. }
  assert (Hhi : (h / (h + m) <= 1)%Q).
  { apply Qle_shift_div_r; [exact Htotal | lra]. }
  split; lra.
Qed.

(** X9.  [get_cache_stats] never raises.  Without the service it reports
    [{"connected": False}] and nothing else.  With it, and with counters that
    are numbers and not negative, it reports a hit rate between 0 and 100,
    which is 0 when there was no traffic: the division is guarded. *)
Theorem cache_stats_hit_rate (describe : exn -> string)
    (report : gmap string json) (self : t) (s : Redis.server) :
  let out := (RedisCacheStats.get_cache_stats describe report self s).1 in
  (exists stats, out = Ok stats) /\
  (redis_client self = None \/ unreachable s ->
   out = Ok {["connected" := JBool false]}) /\
  (forall stats h m,
     out = Ok stats -> stats !! "connected" = Some (JBool true) ->
     RedisCacheStats.operand
       (RedisCacheStats.get_or report "keyspace_hits" (JNum 0)) = Ok h ->
     RedisCacheStats.operand
       (RedisCacheStats.get_or report "keyspace_misses" (JNum 0)) = Ok m ->
     (0 <= h)%Q -> (0 <= m)%Q ->
     exists rate,
       stats !! "hit_rate" = Some (JNum rate) /\
       (0 <= rate <= 100)%Q /\
       ((h + m == 0)%Q -> rate = 0%Q)).
Proof.
  intros out. subst out. unfold RedisCacheStats.get_cache_stats, bind.
  split; [|split].
  - destruct (is_connected_total self s) as (b & Hb & _).
    destruct (is_connected self s) as [r s1]. cbn in Hb. subst r.
    destruct b; cbn [negb]; [|cbn; eauto].
    apply try_except_returns. intros e s'. cbn. eauto.
  - intros Hdown. destruct (is_connected_down self s Hdown) as [Hr _].
    destruct (is_connected self s) as [r s1]. cbn in Hr. subst r.
    reflexivity.
  - intros stats h m.
    destruct (is_connected_total self s) as (b & Hb & _).
    destruct (is_connected self s) as [r s1]. cbn in Hb. subst r.
    destruct b; cbn [negb].
    2:{ cbn. intros [= <-] Hconn. rewrite lookup_singleton_eq in Hconn.
        discriminate. }
    unfold try_except, bind, on_client, RedisCacheStats.info,
      Redis.round_trip, ret.
    destruct (redis_client self).
    2:{ cbn. intros [= <-] Hconn. rewrite lookup_insert_eq in Hconn.
        discriminate. }
    destruct (Redis.avail s1 (Redis.trips s1)).
    2:{ cbn. intros [= <-] Hconn. rewrite lookup_insert_eq in Hconn.
        discriminate. }
    intros Hout Hconn Hh Hm Hhpos Hmpos. rewrite Hh, Hm in Hout.
    cbn in Hout. injection Hout as <-.
    eexists. split.
    { rewrite !(lookup_insert_ne _ _ "hit_rate") by discriminate.
      apply lookup_insert_eq. }
    destruct (Qltb 0 (h + m)) eqn:Htotal.
    + apply SemanticCacheFacts.Qltb_lt in Htotal.
      split; [apply rate_bounds; assumption|]. intros Hzero. lra.
    + split; [lra | reflexivity].
Qed.

(** Three hits and one miss make a rate of 75; no traffic makes 0. *)
Example cache_stats_of_traffic :
  let busy : gmap string json :=
    <["keyspace_hits" := JNum 3]> {["keyspace_misses" := JNum 1]} in
  match (RedisCacheStats.get_cache_stats (fun _ => "error") busy
           Fixture.redis_cache (Fixture.empty_server Fixture.up)).1,
        (RedisCacheStats.get_cache_stats (fun _ => "error") ∅
           Fixture.redis_cache (Fixture.empty_server Fixture.up)).1 with
  | Ok stats, Ok idle =>
      Qred <$> (stats !! "hit_rate" ≫= RedisCacheStats.operand_value)
      = Some 75%Q /\
      idle !! "hit_rate" = Some (JNum 0)
  | _, _ => False
  end.
Proof. vm_compute. split; reflexivity. Qed.

End RedisCacheMore.

(** ** SemanticCache: the two cache tiers, degradation, and finding again
       what was cached *)

Lemma bind_ok_inv {S A B} (m : M S A) (k : A -> M S B) (s s2 : S) (b : B) :
  bind m k s = (Ok b, s2) ->
  exists a s1, m s = (Ok a, s1) /\ k a s1 = (Ok b, s2).
Proof.
  unfold bind. destruct (m s) as [[a|e] s1]; [eauto | discriminate].
Qed.

Lemma try_except_ok_inv {S A} (body : M S A) (handler : exn -> M S A)
    (s s2 : S) (a : A) :
  try_except body handler s = (Ok a, s2) ->
  body s = (Ok a, s2) \/
  exists e s1, body s = (Raise e, s1) /\ handler e s1 = (Ok a, s2).
Proof.
  unfold try_except. destruct (body s) as [[a'|e] s1]; [auto | eauto].
Qed.

Lemma bind_run {S A B} (m : M S A) (k : A -> M S B) (s s1 : S) (a : A) :
  m s = (Ok a, s1) -> bind m k s = k a s1.
Proof. intros E. unfold bind. rewrite E. reflexivity. Qed.

Lemma bind_raise {S A B} (m : M S A) (k : A -> M S B) (s s1 : S) (e : exn) :
  m s = (Raise e, s1) -> bind m k s = (Raise e, s1).
Proof. intros E. unfold bind. rewrite E. reflexivity. Qed.

Lemma try_except_run {S A} (body : M S A) (handler : exn -> M S A)
    (s s1 : S) (a : A) :
  body s = (Ok a, s1) -> try_except body handler s = (Ok a, s1).
Proof. intros E. unfold try_except. rewrite E. reflexivity. Qed.

Lemma try_except_caught {S A} (body : M S A) (handler : exn -> M S A)
    (s s1 : S) (e : exn) :
  body s = (Raise e, s1) -> try_except body handler s = handler e s1.
Proof. intros E. unfold try_except. rewrite E. reflexivity. Qed.

Module SemanticCacheMore.
Import SemanticCache SemanticCacheFacts.

Section WithExternals.
Context `{Externals} (rc : RedisCache.t).

Lemma on_server_self {A} (m : M Redis.server A) (w w' : world) (r : result A) :
  on_server m w = (r, w') -> w'.1 = w.1 /\ m w.2 = (r, w'.2).
Proof.
  unfold on_server. destruct (m w.2) as [r' s']. intros [= <- <-]. auto.
Qed.

Lemma remember_inv (h : string) (e : vector) (w w' : world) (r : result unit) :
  remember h e w = (r, w') ->
  embeddings_cache w'.1 = <[h := e]> (embeddings_cache w.1) /\
  similarity_threshold w'.1 = similarity_threshold w.1 /\ w'.2 = w.2.
Proof.
  unfold remember, bind, get_self, set_self. intros [= <- <-]. auto.
Qed.

Lemma _get_embedding_model_inv (api_key : string) (w w' : world)
    (r : result string) :
  _get_embedding_model api_key w = (r, w') ->
  embeddings_cache w'.1 = embeddings_cache w.1 /\ w'.2 = w.2.
Proof.
  unfold _get_embedding_model, bind, get_self, set_self, ret. cbn [fst snd].
  destruct (embedding_model w.1); intros [= <- <-]; auto.
Qed.

(** An embedding held in the local map is returned at once: no round trip,
    no call of the provider, no change of state. *)
Lemma local_hit (query api_key : string) (w : world) (e : vector) :
  embeddings_cache w.1 !! md5_hexdigest query = Some e ->
  _get_query_embedding rc query api_key w = (Ok (Some e), w).
Proof.
  intros Hheld. unfold _get_query_embedding, bind, get_self, ret.
  cbn [fst snd]. rewrite Hheld. reflexivity.
Qed.

(** Every way for the resolution to succeed leaves the embedding in the
    local map. *)
Lemma resolution_remembers (query api_key : string) (w w' : world)
    (e : vector) :
  _get_query_embedding rc query api_key w = (Ok (Some e), w') ->
  embeddings_cache w'.1 !! md5_hexdigest query = Some e.
Proof.
  unfold _get_query_embedding. intros E.
  apply bind_ok_inv in E as (self & w0 & Eself & E).
  unfold get_self in Eself. injection Eself as <- <-.
  destruct (embeddings_cache w.1 !! md5_hexdigest query) as [e0|] eqn:Hlocal.
  { unfold ret in E. injection E as <- <-. exact Hlocal. }
  apply bind_ok_inv in E as (connected & w1 & _ & E).
  apply bind_ok_inv in E as (cached & w2 & _ & E).
  apply bind_ok_inv in E as (found & w3 & Efound & E).
  assert (Hfound : forall e1, found = Some e1 ->
            embeddings_cache w3.1 !! md5_hexdigest query = Some e1).
  { intros e1 ->. destruct cached as [d|]; [|discriminate].
    destruct (negb (d =? "")%string); [|discriminate].
    destruct (decode_vector d) as [e2|]; [|discriminate].
    apply bind_ok_inv in Efound as (u & w2' & Erem & Eret).
    unfold ret in Eret. injection Eret as <- <-.
    apply remember_inv in Erem as (-> & _). apply lookup_insert_eq. }
  destruct found as [e1|].
  { unfold ret in E. injection E as <- <-. auto. }
  apply try_except_ok_inv in E as [E|(x & w4 & _ & E)]; [|discriminate].
  apply bind_ok_inv in E as (model & w4 & _ & E).
  apply bind_ok_inv in E as (embedding & w5 & _ & E).
  apply bind_ok_inv in E as (u & w6 & Erem & E).
  apply bind_ok_inv in E as (connected' & w7 & Econn & E).
  apply bind_ok_inv in E as (u' & w8 & Eset & E).
  unfold ret in E. injection E as <- <-.
  apply remember_inv in Erem as (Hcache & _).
  apply on_server_self in Econn as [Hself7 _].
  assert (Hself8 : w8.1 = w7.1).
  { destruct connected'; [apply on_server_self in Eset as [? _]; assumption|].
    unfold ret in Eset. injection Eset as _ <-. reflexivity. }
  rewrite Hself8, Hself7, Hcache. apply lookup_insert_eq.
Qed.

(** X10.  Once a query has been resolved, every later resolution of it with
    the same object returns the same embedding at once, whatever credential is
    passed and whatever has happened to the service: there is no round trip,
    no call of the provider and no change of state. *)
Theorem resolved_once_resolved_locally (query api_key : string) (w : world)
    (e : vector) (api_key' : string) (s' : Redis.server) :
  (_get_query_embedding rc query api_key w).1 = Ok (Some e) ->
  let self' := (_get_query_embedding rc query api_key w).2.1 in
  _get_query_embedding rc query api_key' (self', s')
  = (Ok (Some e), (self', s')).
Proof.
  intros Hres self'. apply local_hit. cbn [fst]. subst self'.
  destruct (_get_query_embedding rc query api_key w) as [r w1] eqn:E.
  cbn in Hres. subst r. exact (resolution_remembers _ _ _ _ _ E).
Qed.

Lemma is_connected_stays_down (s : Redis.server) :
  RedisCache.redis_client rc = None \/ unreachable s ->
  exists s1, RedisCache.is_connected rc s = (Ok false, s1) /\
             Redis.data s1 = Redis.data s /\
             (RedisCache.redis_client rc = None \/ unreachable s1).
Proof.
  intros Hdown. unfold RedisCache.is_connected.
  destruct (RedisCache.redis_client rc) as [c|] eqn:Hc.
  - destruct Hdown as [|Hdown]; [discriminate|].
    unfold try_except, bind, Redis.ping, Redis.round_trip, ret.
    rewrite (Hdown (Redis.trips s)) by lia.
    eexists. split; [reflexivity|]. split; [reflexivity|]. right.
    intros n Hn. cbn in *. apply Hdown. lia.
  - exists s. auto.
Qed.

Lemma on_server_run {A} (m : M Redis.server A) (self : t)
    (s s1 : Redis.server) (r : result A) :
  m s = (r, s1) -> on_server m (self, s) = (r, (self, s1)).
Proof. intros E. unfold on_server. cbn [fst snd]. rewrite E. reflexivity. Qed.

Lemma _get_embedding_model_run (api_key : string) (self : t)
    (s : Redis.server) :
  exists model self1,
    _get_embedding_model api_key (self, s) = (Ok model, (self1, s)) /\
    embeddings_cache self1 = embeddings_cache self /\
    similarity_threshold self1 = similarity_threshold self.
Proof.
  unfold _get_embedding_model, bind, get_self, set_self, ret. cbn [fst snd].
  destruct (embedding_model self) as [model|]; cbn; eauto.
Qed.

Lemma resolution_down (query api_key : string) (w : world) :
  RedisCache.redis_client rc = None \/ unreachable w.2 ->
  exists o w1,
    _get_query_embedding rc query api_key w = (Ok o, w1) /\
    Redis.data w1.2 = Redis.data w.2 /\
    (RedisCache.redis_client rc = None \/ unreachable w1.2).
Proof.
  intros Hdown. destruct w as [self s]. cbn [snd] in Hdown.
  unfold _get_query_embedding.
  rewrite (bind_run get_self _ (self, s) (self, s) self) by reflexivity.
  destruct (embeddings_cache self !! md5_hexdigest query) as [e0|].
  { unfold ret. eauto. }
  destruct (is_connected_stays_down s Hdown) as (s1 & E1 & Hd1 & Hdown1).
  rewrite (bind_run _ _ (self, s) (self, s1) false)
    by (apply on_server_run; exact E1).
  cbv iota.
  rewrite (bind_run (ret None) _ (self, s1) (self, s1) None) by reflexivity.
  rewrite (bind_run _ _ (self, s1) (self, s1) None) by reflexivity.
  destruct (_get_embedding_model_run api_key self s1)
    as (model & self1 & Emodel & _).
  destruct (is_connected_stays_down s1 Hdown1) as (s2 & E2 & Hd2 & Hdown2).
  destruct (embed_query model query) as [e1|] eqn:Eembed.
  - eexists _, _. split.
    + apply try_except_run.
      rewrite (bind_run _ _ _ _ _ Emodel). rewrite Eembed.
      rewrite (bind_run (of_option ValueError (Some e1)) _ _ (self1, s1) e1)
        by reflexivity.
      rewrite (bind_run (remember (md5_hexdigest query) e1) _ (self1, s1)
                 (_, s1) tt) by reflexivity.
      rewrite (bind_run _ _ _ (_, s2) false)
        by (apply on_server_run; exact E2).
      cbv iota.
      rewrite (bind_run (ret true) _ _ _ true) by reflexivity.
      reflexivity.
    + cbn [snd]. split; [congruence | exact Hdown2].
  - eexists _, _. split.
    + erewrite try_except_caught; [reflexivity|].
      rewrite (bind_run _ _ _ _ _ Emodel). rewrite Eembed.
      apply bind_raise. reflexivity.
    + cbn [snd]. split; [congruence | exact Hdown1].
Qed.

(** X11.  The semantic cache degrades with the key-value service: when the
    client was never built or no round trip gets through, a lookup answers
    "none" and a write answers "not applied", neither raises, and no stored
    entry changes. *)
Theorem semantic_cache_fails_open (query response api_key stamp : string)
    (context_hash : option string) (ttl_hours : Z) (w : world) :
  RedisCache.redis_client rc = None \/ unreachable w.2 ->
  ((find_similar_cached_response rc query api_key w).1 = Ok None /\
   Redis.data (find_similar_cached_response rc query api_key w).2.2
   = Redis.data w.2) /\
  ((cache_response rc query response api_key context_hash ttl_hours stamp w).1
   = Ok false /\
   Redis.data (cache_response rc query response api_key context_hash ttl_hours
                              stamp w).2.2
   = Redis.data w.2).
Proof.
  intros Hdown.
  destruct (resolution_down query api_key w Hdown)
    as (o & [self1 s1] & E & Hd & Hdown1).
  cbn [snd] in Hd, Hdown1.
  destruct (is_connected_stays_down s1 Hdown1) as (s2 & E2 & Hd2 & _).
  split.
  - unfold find_similar_cached_response, bind. rewrite E.
    destruct o as [e|]; [|cbn; auto].
    unfold on_server. cbn [fst snd]. rewrite E2. cbn. split; congruence.
  - unfold cache_response, bind. rewrite E.
    destruct o as [e|]; [|cbn; auto].
    unfold try_except, bind, on_server. cbn [fst snd]. rewrite E2. cbn.
    split; congruence.
Qed.

Lemma prefix_app (p x : string) : String.prefix p (p ++ x) = true.
Proof.
  induction p as [|c p IH]; [destruct x; reflexivity|].
  change (String.prefix (String c p) (String c (p ++ x)) = true).
  cbn [String.prefix].
  destruct (Ascii.ascii_dec c c); [exact IH | contradiction].
Qed.

Lemma as_vector_of_list (e : vector) : as_vector (JList (map JNum e)) = Some e.
Proof.
  unfold as_vector. induction e as [|q e IH]; [reflexivity|].
  cbn [map]. cbn. cbn in IH. rewrite IH. reflexivity.
Qed.

(** A write that was applied resolved the embedding and then stored the
    record under the hash of the query, with the TTL asked for. *)
Lemma cache_response_applied (query response api_key stamp : string)
    (context_hash : option string) (ttl_hours : Z) (w w' : world) :
  cache_response rc query response api_key context_hash ttl_hours stamp w
  = (Ok true, w') ->
  exists e wr trips,
    _get_query_embedding rc query api_key w = (Ok (Some e), wr) /\
    0 < ttl_hours /\ (Redis.trips wr.2 <= trips)%nat /\
    w' = (wr.1,
          Redis.mk_server (Redis.now wr.2)
            (<["semantic_cache:" ++ md5_hexdigest query :=
                 Redis.mk_entry
                   (json_dumps (cache_entry_of query response api_key
                                               context_hash stamp e))
                   (Redis.now wr.2 + ttl_hours * 3600)]> (Redis.data wr.2))
            (Redis.avail wr.2) trips).
Proof.
  unfold cache_response. intros E.
  apply bind_ok_inv in E as (o & wr & Eres & E).
  destruct o as [e|]; [|discriminate].
  apply try_except_ok_inv in E as [E|(x & w4 & _ & E)]; [|discriminate].
  apply bind_ok_inv in E as (connected & w2 & Econn & E).
  destruct connected; [|discriminate].
  apply bind_ok_inv in E as (seconds & w3 & Etd & E).
  apply bind_ok_inv in E as (u & w4 & Eset & E).
  unfold ret in E. injection E as <-.
  injection Etd as Etd <-.
  apply RedisCacheFacts.timedelta_seconds_ok in Etd. subst seconds.
  apply on_server_self in Econn as [Hself2 Econn].
  apply on_server_self in Eset as [Hself4 Eset].
  destruct (RedisCacheFacts.is_connected_total rc wr.2)
    as (b & Hb & Hd & Hn & Ha & Htrue).
  rewrite Econn in Hb, Hd, Hn, Ha, Htrue. cbn [fst snd] in *.
  injection Hb as <-. destruct (Htrue eq_refl) as (Hc & _ & Ht).
  revert Eset. unfold RedisCache.on_client, Redis.setex, Redis.round_trip.
  rewrite Hc. destruct (Redis.avail w2.2 (Redis.trips w2.2)); [|discriminate].
  destruct (Z.leb_spec (ttl_hours * 3600) 0); [discriminate|].
  intros [= _ Hw4]. exists e, wr, (S (Redis.trips w2.2)).
  split; [exact Eres|]. split; [lia|]. split; [lia|].
  destruct w4 as [self4 s4]. cbn [fst snd] in *. subst s4.
  unfold Redis.with_data. cbn. rewrite Hself4, Hself2, Hn, Hd, Ha.
  reflexivity.
Qed.

(** X12.  What was cached is found again.  After a write of an answer that was
    applied, and until its TTL runs out, a lookup of the same query text with
    the service reachable returns a match, and one that scores at least what
    the query's embedding scores against itself, provided that score is above
    the threshold and above 0.  The codec has to give back the record it
    encoded. *)
Theorem cached_answer_is_found_again (query response api_key stamp : string)
    (context_hash : option string) (ttl_hours : Z) (w : world) (e : vector)
    (own_score : Q) (later : Z) (api_key' : string) :
  let record := cache_entry_of query response api_key context_hash stamp e in
  RedisCache.redis_client rc = Some RedisCache.Client ->
  reachable w.2 ->
  (_get_query_embedding rc query api_key w).1 = Ok (Some e) ->
  (cache_response rc query response api_key context_hash ttl_hours stamp w).1
  = Ok true ->
  json_loads (json_dumps record) = Some record -> json_dumps record <> "" ->
  cosine_similarity e e = Some own_score ->
  (similarity_threshold w.1 < own_score)%Q -> (0 < own_score)%Q ->
  0 <= later < ttl_hours * 3600 ->
  let w1 := (cache_response rc query response api_key context_hash ttl_hours
                            stamp w).2 in
  complete_records (Redis.elapse later w1.2) e = true ->
  exists h,
    (find_similar_cached_response rc query api_key'
       (w1.1, Redis.elapse later w1.2)).1 = Ok (Some h) /\
    (own_score <= similarity h)%Q.
Proof.
  intros record Hc Hup Hres Hdone Hcodec Hempty Hown Hthr Hpos Hlater w1
    Hcomplete.
  subst w1.
  destruct (cache_response rc query response api_key context_hash ttl_hours
              stamp w) as [r w1] eqn:Ewrite.
  cbn [fst snd] in *. subst r.
  apply cache_response_applied in Ewrite
    as (e' & wr & trips & Eres & Httl & Htrips & ->).
  rewrite Eres in Hres. cbn in Hres. injection Hres as ->.
  pose proof (_get_query_embedding_frame rc query api_key w) as Hframe.
  rewrite Eres in Hframe. destruct Hframe as [Hsame (Hn & Ha & Ht & _)].
  cbn [fst snd] in *.
  set (s' := Redis.elapse later _) in *.
  assert (Hup' : reachable s').
  { intros n Hn'. cbn in *. rewrite Ha. apply Hup. lia. }
  assert (Hrun : _get_query_embedding rc query api_key' (wr.1, s')
                 = (Ok (Some e), (wr.1, s'))).
  { apply local_hit. cbn [fst]. eapply resolution_remembers. exact Eres. }
  rewrite (find_similar_reachable rc query api_key' (wr.1, s') (wr.1, s') e
             Hc Hrun Hup').
  cbn [fst snd]. rewrite Hsame.
  set (k0 := "semantic_cache:" ++ md5_hexdigest query).
  set (h0 := mk_hit (JStr response) own_score (JStr query) (JStr stamp)).
  assert (Hvalue : record_value s' k0 = Some (json_dumps record)).
  { unfold record_value, Redis.live. subst s' k0. cbn.
    rewrite lookup_insert_eq. cbn.
    destruct (Z.ltb_spec (Redis.now wr.2 + later)
                (Redis.now wr.2 + ttl_hours * 3600)); [|lia].
    fold record.
    destruct (String.eqb_spec (json_dumps record) ""); [contradiction|].
    reflexivity. }
  assert (Hscore : score e (json_dumps record) = Some own_score).
  { unfold score. rewrite Hcodec. unfold record at 1, cache_entry_of.
    unfold subscript.
    rewrite !(lookup_insert_ne _ _ "embedding") by discriminate.
    rewrite lookup_insert_eq, as_vector_of_list. exact Hown. }
  assert (Hstands : stands_for s' e k0 h0).
  { exists (json_dumps record). split; [exact Hvalue|].
    apply cache_entry_of_complete; assumption. }
  assert (Hin : k0 ∈ namespace_keys s').
  { apply namespace_keys_spec. split; [apply prefix_app|].
    unfold record_value in Hvalue.
    destruct (Redis.live s' k0); [eauto | discriminate]. }
  pose proof (fold_best_so_far s' e (similarity_threshold w.1)
                (namespace_keys s') [] (None, 0%Q)) as Hinv.
  cbn [app] in Hinv.
  destruct Hinv as (Hnone & Hsome & Hseen).
  { intros k d sim Hk Hd Hsc.
    apply namespace_keys_spec in Hk as [Hk _].
    eapply complete_records_spec; eassumption. }
  { split; [reflexivity|]. split; [discriminate|].
    intros k h Hk. apply elem_of_nil in Hk. destruct Hk. }
  specialize (Hseen k0 h0 Hin Hstands). cbn [similarity h0] in Hseen.
  destruct (fold_left _ _ _) as [[h|] bs]; cbn [fst snd] in *.
  - exists h. split; [reflexivity|].
    destruct (Hsome h eq_refl) as (<- & _). subst h0. cbn in Hseen.
    destruct Hseen; lra.
  - rewrite (Hnone eq_refl) in Hseen. subst h0. cbn in Hseen.
    destruct Hseen; lra.
Qed.

End WithExternals.

(** The answer to "what is RAG?" is cached for six hours and looked up an
    hour later by the same text: it scores 1 against itself. *)
Lemma cached_answer_is_found_again_witness :
  let H := Fixture.libs in
  let w : world := (new (17 # 20), Fixture.empty_server Fixture.up) in
  let w1 := (cache_response Fixture.redis_cache "what is RAG?"
               "RAG is retrieval augmented generation" "sk-1" None 6
               "2024-01-01T00:00:00" w).2 in
  exists h,
    (find_similar_cached_response Fixture.redis_cache "what is RAG?" "sk-2"
       (w1.1, Redis.elapse 3600 w1.2)).1 = Ok (Some h) /\
    (1 <= similarity h)%Q.
Proof.
  intros H w w1.
  apply (cached_answer_is_found_again Fixture.redis_cache "what is RAG?"
           "RAG is retrieval augmented generation" "sk-1"
           "2024-01-01T00:00:00" None 6 w [3; 4]%Q 1%Q 3600 "sk-2").
  - reflexivity.
  - intros n _. reflexivity.
  - vm_compute. reflexivity.
  - vm_compute. reflexivity.
  - vm_compute. reflexivity.
  - vm_compute. discriminate.
  - vm_compute. reflexivity.
  - reflexivity.
  - reflexivity.
  - lia.
  - vm_compute. reflexivity.
Defined.

(** With the service gone the sample query, whose answer is in the store,
    is not found, and nothing is written. *)
Lemma semantic_cache_fails_open_witness :
  let H := Fixture.libs in
  let s := Redis.mk_server 0 (Redis.data Fixture.server_with_answers)
                           Fixture.down 0 in
  (find_similar_cached_response Fixture.redis_cache "what's RAG?" "sk-1"
     (new (17 # 20), s)).1 = Ok None /\
  (cache_response Fixture.redis_cache "tell me a joke" "no" "sk-1" None 6
     "2024-01-01T00:00:02" (new (17 # 20), s)).1 = Ok false.
Proof.
  intros H s.
  destruct (semantic_cache_fails_open Fixture.redis_cache "what's RAG?" "no"
              "sk-1" "2024-01-01T00:00:02" None 6 (new (17 # 20), s))
    as [[Hfind _] _]; [right; intros n _; reflexivity|].
  destruct (semantic_cache_fails_open Fixture.redis_cache "tell me a joke" "no"
              "sk-1" "2024-01-01T00:00:02" None 6 (new (17 # 20), s))
    as [_ [Hwrite _]]; [right; intros n _; reflexivity|].
  split; [exact Hfind | exact Hwrite].
Defined.

(** The sample query is resolved through the provider; the second
    resolution succeeds with an empty credential and the service gone. *)
Lemma resolved_once_resolved_locally_witness :
  let H := Fixture.libs in
  let w : world := (new (17 # 20), Fixture.empty_server Fixture.up) in
  let self' := (_get_query_embedding Fixture.redis_cache "what's RAG?"
                  "sk-1" w).2.1 in
  _get_query_embedding Fixture.redis_cache "what's RAG?" ""
    (self', Fixture.empty_server Fixture.down)
  = (Ok (Some [4; 3]%Q), (self', Fixture.empty_server Fixture.down)).
Proof.
  intros H w self'.
  apply (resolved_once_resolved_locally Fixture.redis_cache "what's RAG?"
           "sk-1" w [4; 3]%Q "" (Fixture.empty_server Fixture.down)).
  vm_compute. reflexivity.
Defined.

End SemanticCacheMore.

(** ** SQLiteConnectionPool: the counters *)

Module SQLiteConnectionPoolMore.
Import SQLiteConnectionPool SQLiteConnectionPoolFacts ConnectionStats.

Lemma get_connection_settings (me : thread) (s : t) :
  db_path (get_connection me s).2 = db_path s /\
  max_connections (get_connection me s).2 = max_connections s /\
  connect_ok (get_connection me s).2 = connect_ok s.
Proof.
  unfold get_connection, bind, update, connect, ret.
  destruct (_local s !! me); [cbn; auto|].
  destruct (last (_pool s)); [cbn; auto|].
  destruct (connect_ok s (attempts s)); cbn; auto.
Qed.

Lemma get_connection_accounted (me : thread) (s : t) (n : nat) :
  consistent s -> accounted s n ->
  accounted (get_connection me s).2
            (if raises (get_connection me s).1 then n else S n).
Proof.
  intros (Hpool & Hsize & _) (Hc & Ha & Hsum).
  unfold accounted, get_connection, bind, update, connect, ret.
  rewrite Hpool. cbn [last].
  destruct (_local s !! me) as [c|] eqn:Hl; [cbn; lia|].
  destruct (connect_ok s (attempts s)); cbn.
  - rewrite map_size_insert_None by exact Hl. lia.
  - lia.
Qed.

Lemma run_accounted (calls : list thread) :
  forall (s : t) (n : nat),
    consistent s -> accounted s n ->
    accounted (run calls s).2 (n + served (run calls s).1) /\
    max_connections (run calls s).2 = max_connections s /\
    db_path (run calls s).2 = db_path s.
Proof.
  induction calls as [|me rest IH]; intros s n Hs Hn.
  - cbn. rewrite Nat.add_0_r. auto.
  - cbn [run].
    destruct (get_connection_consistent me s Hs) as [Hs1 _].
    pose proof (get_connection_accounted me s n Hs Hn) as Hn1.
    destruct (get_connection_settings me s) as (Hpath & Hmax & _).
    destruct (get_connection me s) as [r1 s1]. cbn [fst snd] in *.
    destruct (IH s1 _ Hs1 Hn1) as (Hn2 & Hmax2 & Hpath2).
    destruct (run rest s1) as [trace s2]. cbn [fst snd] in *.
    split; [|split; congruence].
    unfold served in *. rewrite filter_cons. cbn [snd].
    destruct r1 as [c|e]; cbn [raises] in *.
    + rewrite decide_True by reflexivity. cbn [length].
      replace (n + S (length (filter _ trace)))%nat
        with (S n + length (filter (fun c => raises c.2 = false) trace))%nat
        by lia.
      exact Hn2.
    + rewrite decide_False by discriminate. exact Hn2.
Qed.

(** X13.  On a pool built by the constructor, after any sequence of calls
    of [get_connection], [get_stats] reports as [connections_created] the
    number of connection objects made, as [active_connections] the number
    of threads holding one, which is the same number, and as
    [connections_reused] the calls that returned a connection without
    making one; [max_connections] is the constructor's argument. *)
Theorem get_stats_accounts_for_calls (path : string) (max : Z)
    (ok : nat -> bool) (calls : list thread) :
  let out := run calls (new path max ok) in
  let report := get_stats out.2 in
  report !! "connections_created"
    = Some (JNum (inject_Z (Z.of_nat (allocated out.2)))) /\
  report !! "active_connections"
    = Some (JNum (inject_Z (Z.of_nat (size (_local out.2))))) /\
  size (_local out.2) = allocated out.2 /\
  report !! "connections_reused"
    = Some (JNum (inject_Z (Z.of_nat (served out.1)
                            - Z.of_nat (allocated out.2)))) /\
  report !! "max_connections" = Some (JNum (inject_Z max)) /\
  report !! "db_path" = Some (JStr path).
Proof.
  intros out report.
  assert (accounted (new path max ok) 0) as H0.
  { unfold accounted. cbn. rewrite map_size_empty. lia. }
  destruct (run_accounted calls _ 0 (new_consistent path max ok) H0)
    as ((Hc & Ha & Hsum) & Hmax & Hpath).
  destruct (run_consistent calls _ (new_consistent path max ok))
    as ((_ & Hsize & _) & _).
  fold out in Hc, Ha, Hsum, Hmax, Hpath, Hsize.
  subst report. unfold get_stats.
  rewrite Hc, Ha, Hmax, Hpath.
  replace (connections_reused (_stats out.2))
    with (Z.of_nat (served out.1) - Z.of_nat (allocated out.2)) by lia.
  cbn [new max_connections db_path].
  repeat split; try reflexivity. symmetry; exact Hsize.
Qed.

Lemma run_distinct_threads (calls : list thread) :
  forall s : t,
    NoDup calls ->
    (forall me, me ∈ calls -> _local s !! me = None) ->
    _pool s = [] ->
    (forall k, connect_ok s k = true) ->
    allocated (run calls s).2 = (allocated s + length calls)%nat /\
    forall me, me ∈ calls -> exists c, (me, Ok c) ∈ (run calls s).1.
Proof.
  induction calls as [|me rest IH]; intros s Hnd Hnew Hpool Hok.
  - cbn. split; [lia|]. intros me Hin. apply elem_of_nil in Hin. destruct Hin.
  - apply NoDup_cons in Hnd as [Hnotin Hnd]. cbn [run length].
    pose proof (get_connection_cases me s) as Hcases.
    destruct (get_connection_settings me s) as (_ & _ & Hok1).
    rewrite (Hnew me) in Hcases by (apply elem_of_cons; auto).
    rewrite Hpool in Hcases. cbn [last] in Hcases. rewrite Hok in Hcases.
    destruct Hcases as (Hp1 & Hr1 & Hl1 & Ha1).
    destruct (get_connection me s) as [r1 s1]. cbn [fst snd] in *.
    destruct (IH s1 Hnd) as [Hall Hserved].
    { intros other Hin. rewrite Hl1, lookup_insert_ne.
      - apply Hnew. apply elem_of_cons. auto.
      - intros ->. contradiction. }
    { congruence. }
    { intros k. rewrite Hok1. apply Hok. }
    destruct (run rest s1) as [trace s2]. cbn [fst snd] in *.
    split; [lia|].
    intros other Hin. apply elem_of_cons in Hin as [->|Hin].
    + exists (allocated s). subst r1. apply elem_of_cons. auto.
    + destruct (Hserved other Hin) as [c Hc]. exists c.
      apply elem_of_cons. auto.
Qed.

(** X14.  [max_connections] limits nothing: when [sqlite3.connect] does
    not fail, calls by distinct threads on a pool built by the constructor
    make one connection object each, however many they are and whatever
    the maximum, and every one of them is served. *)
Theorem max_connections_is_not_enforced (path : string) (max : Z)
    (ok : nat -> bool) (calls : list thread) :
  NoDup calls ->
  (forall k, ok k = true) ->
  let out := run calls (new path max ok) in
  allocated out.2 = length calls /\
  forall me, me ∈ calls -> exists c, (me, Ok c) ∈ out.1.
Proof.
  intros Hnd Hok out.
  destruct (run_distinct_threads calls (new path max ok) Hnd) as [Hall Hs];
    [intros me _; apply lookup_empty | reflexivity | exact Hok |].
  split; [exact Hall | exact Hs].
Qed.

Lemma max_connections_is_not_enforced_witness :
  let calls := [0; 1; 2]%nat in
  let out := run calls (new "rag_app.db" 2 (fun _ => true)) in
  NoDup calls /\ (Z.of_nat (allocated out.2) > 2) /\
  forall me, me ∈ calls -> exists c, (me, Ok c) ∈ out.1.
Proof.
  intros calls out.
  assert (NoDup calls) as Hnd.
  { unfold calls. repeat constructor; set_solver. }
  destruct (max_connections_is_not_enforced "rag_app.db" 2 (fun _ => true)
              calls Hnd (fun _ => eq_refl)) as [Hall Hs].
  split; [exact Hnd|]. split; [|exact Hs].
  fold out in Hall. rewrite Hall. cbn. lia.
Defined.

End SQLiteConnectionPoolMore.

(** ** ChromaConnectionCache: whose vectorstore a caller gets *)

Module ChromaConnectionCacheMore.
Import ChromaConnectionCache ChromaConnectionCacheFacts ConnectionStats.

Section WithExternals.
Context `{Externals}.

Lemma cache_key_of_hash (a b : string) :
  cache_key_of a = cache_key_of b -> py_hash a = py_hash b.
Proof.
  unfold cache_key_of. intros Heq.
  apply (inj pretty). injection Heq. auto.
Qed.

Lemma new_well_keyed (ttl t0 : Z) (ok : string -> nat -> bool) :
  well_keyed (new ttl t0 ok).
Proof. intros k v stored Hentry. cbn in Hentry. rewrite lookup_empty in Hentry. discriminate. Qed.

(** What a caller holds stays its own while others make the log of the
    factory grow. *)
Lemma caller_ok_later (k : string) (p : pc) (s s' : t) :
  invocations s `prefix_of` invocations s' ->
  caller_ok k p s -> caller_ok k p s'.
Proof.
  intros Hgrow. destruct p as [k'|k' ck|ck v|[v|]]; cbn; auto.
  - intros (Hck & Hmade & Hlog). eauto using prefix_lookup_Some.
  - intros (Hck & Hlog). eauto using prefix_lookup_Some.
Qed.

(** One step of one caller keeps the cache well keyed and the caller with
    what belongs to its credential; the log of the factory only grows. *)
Lemma step_keeps (k : string) (p : pc) (s : t) :
  well_keyed s -> caller_ok k p s ->
  well_keyed (step p s).2 /\ caller_ok k (step p s).1 (step p s).2 /\
  invocations s `prefix_of` invocations (step p s).2.
Proof.
  intros Hs Hp. destruct p as [k'|k' ck|ck v|r]; cbn [step].
  - cbn in Hp. subst k'. destruct (String.eqb k ""); [cbn; auto|].
    unfold check.
    destruct (_connections s !! cache_key_of k) as [[v stored]|] eqn:Hentry;
      [|cbn; auto].
    destruct (now s - stored <? cache_ttl_minutes s * 60); cbn.
    + destruct (Hs _ _ _ Hentry) as [Hkey Hlog]. auto.
    + split; [|auto]. intros ck v' stored' Hentry'. cbn in Hentry'.
      apply lookup_delete_Some in Hentry' as [_ Hentry'].
      apply (Hs _ _ _ Hentry').
  - destruct Hp as [-> ->]. unfold create.
    assert (invocations s `prefix_of` (invocations s ++ [k])%list) as Hgrow
      by (apply prefix_app_r; reflexivity).
    assert (well_keyed
              (mk (cache_ttl_minutes s) (_connections s) (now s)
                  (factory_ok s) (invocations s ++ [k]))) as Hs'.
    { intros ck v stored Hentry. cbn in *.
      destruct (Hs _ _ _ Hentry) as [Hkey Hlog].
      eauto using prefix_lookup_Some. }
    destruct (factory_ok s k (length (invocations s))); cbn; [|auto].
    split; [exact Hs'|]. split; [|exact Hgrow].
    split; [reflexivity|]. split; [reflexivity|].
    rewrite lookup_app_r by lia. rewrite Nat.sub_diag. reflexivity.
  - destruct Hp as (-> & Hmade & Hlog). cbn. split; [|split].
    + intros ck v' stored' Hentry'. cbn in Hentry'.
      apply lookup_insert_Some in Hentry' as [[<- [= <- <-]]|[_ Hentry']].
      * rewrite Hmade. split; [reflexivity | exact Hlog].
      * apply (Hs _ _ _ Hentry').
    + rewrite Hmade. split; [reflexivity | exact Hlog].
    + reflexivity.
  - cbn. auto.
Qed.

(** Callers that entered with the credentials [keys], at any point of any
    schedule. *)
Lemma interleave_keeps (keys : list string) (schedule : list event) :
  forall (callers : list pc) (s : t),
    well_keyed s ->
    length callers = length keys ->
    (forall i k p, keys !! i = Some k -> callers !! i = Some p ->
                   caller_ok k p s) ->
    let out := interleave schedule callers s in
    well_keyed out.2 /\
    (forall i k p, keys !! i = Some k -> out.1 !! i = Some p ->
                   caller_ok k p out.2).
Proof.
  induction schedule as [|[i|d] rest IH]; intros callers s Hs Hlen Hcallers.
  - cbn. auto.
  - cbn [interleave].
    destruct (callers !! i) as [p|] eqn:Hp; [|apply IH; assumption].
    destruct (keys !! i) as [k|] eqn:Hk.
    2:{ apply lookup_lt_Some in Hp. apply lookup_ge_None in Hk. lia. }
    destruct (step_keeps k p s Hs (Hcallers i k p Hk Hp)) as (Hs' & Hp' & Hgrow).
    destruct (step p s) as [p' s']. cbn [fst snd] in *.
    apply IH; [exact Hs' | rewrite length_insert; exact Hlen |].
    intros j kj q Hkj Hq.
    apply list_lookup_insert_Some in Hq as [(<- & <- & _)|[Hne Hq]].
    + congruence.
    + eapply caller_ok_later; eauto.
  - cbn [interleave]. apply IH; [|exact Hlen|].
    + intros ck v stored Hentry. apply (Hs ck v stored Hentry).
    + intros j k p Hk Hp. specialize (Hcallers j k p Hk Hp).
      destruct p as [k'|k' ck|ck v|[v|]]; exact Hcallers.
Qed.

(** X15.  However the steps of concurrent callers of [get_vectorstore] and
    the clock interleave on a cache built by the constructor, a caller that
    is returned a vectorstore is returned one the factory was invoked for
    with a credential whose [hash] is the [hash] of the caller's own
    credential. *)
Theorem served_vectorstore_has_callers_hash (ttl t0 : Z)
    (ok : string -> nat -> bool) (keys : list string) (schedule : list event)
    (i : nat) (k : string) (v : vectorstore) :
  let out := interleave schedule (map Entering keys) (new ttl t0 ok) in
  keys !! i = Some k ->
  out.1 !! i = Some (Returned (Some v)) ->
  py_hash (made_with v) = py_hash k /\
  invocations out.2 !! serial v = Some (made_with v).
Proof.
  intros out Hk Hret.
  destruct (interleave_keeps keys schedule (map Entering keys) (new ttl t0 ok))
    as [_ Hall].
  - apply new_well_keyed.
  - apply length_map.
  - intros j kj p Hkj Hp.
    change (map Entering keys) with (Entering <$> keys) in Hp.
    rewrite list_lookup_fmap, Hkj in Hp. injection Hp as <-. reflexivity.
  - destruct (Hall i k _ Hk Hret) as [Hkey Hlog].
    split; [apply cache_key_of_hash; exact Hkey | exact Hlog].
Qed.

(** X16.  An entry as old as the TTL, or older, is not served: the call
    goes to the factory and, when the factory succeeds, returns a
    vectorstore that is not the expired one, stores it with the time of the
    call, and serves it to the calls of the same credential for the TTL
    that follows. *)
Theorem expired_entry_is_replaced (s : t) (api_key : string)
    (expired : vectorstore) (stored : Z) :
  api_key <> "" ->
  well_keyed s ->
  _connections s !! cache_key_of api_key = Some (expired, stored) ->
  cache_ttl_minutes s * 60 <= now s - stored ->
  factory_ok s api_key (length (invocations s)) = true ->
  let made := mk_vs api_key (length (invocations s)) in
  let out := get_vectorstore api_key s in
  out.1 = Ok (Some made) /\
  made <> expired /\
  invocations out.2 = (invocations s ++ [api_key])%list /\
  _connections out.2 !! cache_key_of api_key = Some (made, now s) /\
  forall later, 0 <= later < cache_ttl_minutes s * 60 ->
    get_vectorstore api_key (elapse later out.2)
    = (Ok (Some made), elapse later out.2).
Proof.
  intros Hkey Hs Hentry Hold Hok made out.
  assert (Hrun : get_vectorstore api_key s
                 = (Ok (Some made),
                    mk (cache_ttl_minutes s)
                       (<[cache_key_of api_key := (made, now s)]>
                          (delete (cache_key_of api_key) (_connections s)))
                       (now s) (factory_ok s) (invocations s ++ [api_key]))).
  { unfold get_vectorstore.
    destruct (String.eqb_spec api_key ""); [contradiction|].
    unfold bind, try_except, check, create, store, with_connections, ret.
    rewrite Hentry.
    destruct (Z.ltb_spec (now s - stored) (cache_ttl_minutes s * 60)); [lia|].
    cbn. rewrite Hok. reflexivity. }
  subst out. rewrite Hrun. cbn [fst snd invocations _connections].
  split; [reflexivity|]. split; [|split; [reflexivity|split]].
  - intros <-. destruct (Hs _ _ _ Hentry) as [_ Hlog].
    apply lookup_lt_Some in Hlog. cbn in Hlog. lia.
  - apply lookup_insert_eq.
  - intros later Hlater.
    apply (get_vectorstore_hit _ api_key made (now s)); [exact Hkey | |].
    + cbn. apply lookup_insert_eq.
    + cbn. lia.
Qed.

(** X17.  After [clear_cache] the statistics report no connection and no
    key, with the TTL unchanged; the factory has not been invoked, and the
    next call with a credential goes to the factory, however young the
    entry of its fingerprint was. *)
Theorem clear_cache_forgets_all (s : t) (api_key : string) (later : Z) :
  api_key <> "" ->
  let s' := clear_cache s in
  get_cache_stats s' !! "cached_connections" = Some (JNum 0) /\
  get_cache_stats s' !! "cache_keys" = Some (JList []) /\
  get_cache_stats s' !! "cache_ttl_minutes"
    = Some (JNum (inject_Z (cache_ttl_minutes s))) /\
  invocations s' = invocations s /\
  invocations (get_vectorstore api_key (elapse later s')).2
  = (invocations s ++ [api_key])%list.
Proof.
  intros Hkey s'. subst s'. unfold clear_cache, get_cache_stats.
  cbn [with_connections _connections cache_ttl_minutes invocations].
  rewrite map_size_empty, map_to_list_empty.
  repeat split; try reflexivity.
  unfold get_vectorstore.
  destruct (String.eqb_spec api_key ""); [contradiction|].
  unfold bind, try_except, check, create, store, with_connections, elapse, ret.
  cbn [_connections]. rewrite lookup_empty. cbn.
  destruct (factory_ok s api_key (length (invocations s))); reflexivity.
Qed.

Lemma interleave_ttl (schedule : list event) :
  forall (callers : list pc) (s : t),
    cache_ttl_minutes (interleave schedule callers s).2 = cache_ttl_minutes s.
Proof.
  induction schedule as [|[i|d] rest IH]; intros callers s; [reflexivity | |].
  - cbn [interleave]. destruct (callers !! i) as [p|]; [|apply IH].
    assert (cache_ttl_minutes (step p s).2 = cache_ttl_minutes s) as Hstep.
    { destruct p as [k|k ck|ck v|r]; cbn [step]; [| | reflexivity ..].
      - destruct (String.eqb k ""); [reflexivity|]. unfold check.
        destruct (_connections s !! cache_key_of k) as [[v stored]|];
          [|reflexivity].
        destruct (now s - stored <? cache_ttl_minutes s * 60); reflexivity.
      - unfold create.
        destruct (factory_ok s k (length (invocations s))); reflexivity. }
    destruct (step p s) as [p' s']. cbn [snd] in Hstep.
    rewrite IH. exact Hstep.
  - cbn [interleave]. rewrite IH. reflexivity.
Qed.

(** X18.  However callers and the clock interleave on a cache built by the
    constructor, [get_cache_stats] lists each key once, reports their
    number as [cached_connections], and every key listed is the
    fingerprint of a credential the factory has been invoked with. *)
Theorem cache_stats_list_invoked_fingerprints (ttl t0 : Z)
    (ok : string -> nat -> bool) (keys : list string)
    (schedule : list event) :
  let out := interleave schedule (map Entering keys) (new ttl t0 ok) in
  exists listed : list string,
    get_cache_stats out.2 !! "cache_keys" = Some (JList (map JStr listed)) /\
    get_cache_stats out.2 !! "cached_connections"
      = Some (JNum (inject_Z (Z.of_nat (length listed)))) /\
    get_cache_stats out.2 !! "cache_ttl_minutes" = Some (JNum (inject_Z ttl)) /\
    NoDup listed /\
    forall cache_key, cache_key ∈ listed ->
      exists k, k ∈ invocations out.2 /\ cache_key = cache_key_of k.
Proof.
  intros out.
  destruct (interleave_keeps keys schedule (map Entering keys) (new ttl t0 ok))
    as [Hs _].
  - apply new_well_keyed.
  - apply length_map.
  - intros j kj p Hkj Hp.
    change (map Entering keys) with (Entering <$> keys) in Hp.
    rewrite list_lookup_fmap, Hkj in Hp. injection Hp as <-. reflexivity.
  - fold out in Hs.
    assert (Httl : cache_ttl_minutes out.2 = ttl) by apply interleave_ttl.
    exists (map_to_list (_connections out.2)).*1.
    unfold get_cache_stats. rewrite Httl.
    split; [|split; [|split; [reflexivity|split]]].
    + rewrite lookup_insert_ne by discriminate.
      rewrite lookup_insert_ne by discriminate.
      rewrite lookup_insert_eq. do 2 f_equal.
      change (map JStr ((map_to_list (_connections out.2)).*1))
        with (JStr <$> (fst <$> map_to_list (_connections out.2))).
      rewrite <- list_fmap_compose. reflexivity.
    + rewrite lookup_insert_eq, length_fmap, length_map_to_list. reflexivity.
    + apply NoDup_fst_map_to_list.
    + intros ck Hin. apply list_elem_of_fmap in Hin as [[ck' [v stored]] [-> Hin]].
      apply elem_of_map_to_list in Hin. cbn [fst].
      destruct (Hs _ _ _ Hin) as [Hkey Hlog].
      exists (made_with v). split; [|congruence].
      eapply list_elem_of_lookup_2; exact Hlog.
Qed.

End WithExternals.

(** [served_vectorstore_has_callers_hash] on two callers with two
    credentials whose steps alternate. *)
Lemma served_vectorstore_has_callers_hash_witness :
  let H := Fixture.libs in
  let out := interleave [Run 0; Run 1; Tick 5; Run 0; Run 0; Run 1; Run 1]
                        (map Entering ["sk-1"; "sk-2"])
                        (new 30 0 (fun _ _ => true)) in
  out.1 !! 0%nat = Some (Returned (Some (mk_vs "sk-1" 0))) /\
  py_hash "sk-1" = py_hash "sk-1" /\
  invocations out.2 !! 0%nat = Some "sk-1".
Proof.
  intros H out.
  assert (out.1 !! 0%nat = Some (Returned (Some (mk_vs "sk-1" 0)))) as Hret
    by (vm_compute; reflexivity).
  split; [exact Hret|].
  exact (served_vectorstore_has_callers_hash 30 0 (fun _ _ => true)
           ["sk-1"; "sk-2"]
           [Run 0; Run 1; Tick 5; Run 0; Run 0; Run 1; Run 1]
           0 "sk-1" (mk_vs "sk-1" 0) eq_refl Hret).
Defined.

(** [expired_entry_is_replaced] on an entry made at clock 0 with a TTL of
    30 minutes and asked for again at clock 1800, to the second the age of
    the TTL. *)
Lemma expired_entry_is_replaced_witness :
  let H := Fixture.libs in
  let s := (interleave [Run 0; Run 0; Run 0; Tick 1800] [Entering "sk-1"]
                       (new 30 0 (fun _ _ => true))).2 in
  _connections s !! cache_key_of "sk-1" = Some (mk_vs "sk-1" 0, 0) /\
  (get_vectorstore "sk-1" s).1 = Ok (Some (mk_vs "sk-1" 1)) /\
  (get_vectorstore "sk-1" (elapse 1799 (get_vectorstore "sk-1" s).2)).1
  = Ok (Some (mk_vs "sk-1" 1)).
Proof.
  intros H s.
  assert (_connections s !! cache_key_of "sk-1" = Some (mk_vs "sk-1" 0, 0))
    as Hentry by (vm_compute; reflexivity).
  split; [exact Hentry|].
  destruct (expired_entry_is_replaced s "sk-1" (mk_vs "sk-1" 0) 0)
    as (Hr & _ & _ & _ & Hnext).
  - discriminate.
  - apply (interleave_keeps ["sk-1"] [Run 0; Run 0; Run 0; Tick 1800]
             [Entering "sk-1"] (new 30 0 (fun _ _ => true))).
    + apply new_well_keyed.
    + reflexivity.
    + intros [|i] k p Hk Hp; [|discriminate].
      injection Hk as <-. injection Hp as <-. reflexivity.
  - exact Hentry.
  - vm_compute. discriminate.
  - reflexivity.
  - split; [exact Hr|]. rewrite Hnext; [reflexivity|].
    vm_compute. split; [discriminate | reflexivity].
Defined.

(** [clear_cache_forgets_all] on a cache holding a young entry. *)
Lemma clear_cache_forgets_all_witness :
  let H := Fixture.libs in
  let s := (get_vectorstore "sk-1" (new 30 0 (fun _ _ => true))).2 in
  (get_vectorstore "sk-1" (elapse 1 s)).2 = elapse 1 s /\
  invocations (get_vectorstore "sk-1" (elapse 1 (clear_cache s))).2
  = ["sk-1"; "sk-1"].
Proof.
  intros H s. split; [vm_compute; reflexivity|].
  destruct (clear_cache_forgets_all s "sk-1" 1) as (_ & _ & _ & _ & Hnext);
    [discriminate | exact Hnext].
Defined.

End ChromaConnectionCacheMore.

(** ** db_utils: the history behind the cache *)

Module DbUtilsMore.
Import RedisCacheFacts RedisCacheMore DbUtils.

Section WithExternals.
Context `{Externals} (rc : RedisCache.t).

Lemma cache_format_of_app (rows more : list (string * string)) :
  cache_format_of (rows ++ more)
  = (cache_format_of rows ++ cache_format_of more)%list.
Proof. apply flat_map_app. Qed.

(** What [get_chat_history] caches converts back to what it returned. *)
Lemma convert_cache_format (rows : list (string * string)) :
  convert (cache_format_of rows) = Ok (messages_of rows).
Proof.
  unfold cache_format_of, messages_of.
  induction rows as [|[q a] rest IH]; [reflexivity|].
  cbn [flat_map app fst snd convert].
  unfold item, RedisCache.turn in *.
  rewrite !lookup_insert_eq.
  rewrite !lookup_insert_ne by discriminate. rewrite !lookup_insert_eq.
  rewrite IH. reflexivity.
Qed.

(** A live entry written by this module is what the next read returns,
    whatever the database would say. *)
Lemma served_from_cache (session_id : string) (rows : list (string * string))
    (again : result (list (string * string))) (expiry : Z) (s : Redis.server) :
  RedisCache.redis_client rc = Some RedisCache.Client -> reachable s ->
  Redis.data s !! ("chat_history:" ++ session_id)
  = Some (Redis.mk_entry (json_dumps (JList (cache_format_of rows))) expiry) ->
  Redis.now s < expiry ->
  json_loads (json_dumps (JList (cache_format_of rows)))
  = Some (JList (cache_format_of rows)) ->
  json_dumps (JList (cache_format_of rows)) <> "" ->
  (get_chat_history rc session_id again s).1 = Ok (messages_of rows).
Proof.
  intros Hc Hup Hentry Hlive Hcodec Hempty. unfold get_chat_history.
  rewrite (bind_run _ _ _ _ _ (get_chat_history_up rc session_id s Hc Hup)).
  assert (cached_history s session_id = Some (JList (cache_format_of rows)))
    as ->.
  { unfold cached_history, Redis.live. rewrite Hentry.
    cbn [Redis.expires_at Redis.value].
    destruct (Z.ltb_spec (Redis.now s) expiry); [|lia].
    destruct (String.eqb_spec (json_dumps (JList (cache_format_of rows))) "");
      [contradiction|].
    cbn [negb]. rewrite Hcodec. reflexivity. }
  unfold bind. cbn [iterate]. rewrite convert_cache_format. reflexivity.
Qed.

(** The append behind [insert_application_logs], on a reachable service. *)
Lemma append_run (session_id user_query ai_response : string)
    (prior : list json) (s : Redis.server) :
  RedisCache.redis_client rc = Some RedisCache.Client -> reachable s ->
  holds_history s session_id prior ->
  exists n,
    RedisCache.append_to_chat_history rc session_id user_query ai_response s
    = (Ok true,
       Redis.mk_server (Redis.now s)
         (<["chat_history:" ++ session_id :=
              Redis.mk_entry
                (json_dumps (JList (prior ++ [RedisCache.turn "user" user_query;
                                              RedisCache.turn "assistant" ai_response])))
                (Redis.now s + 24 * 3600)]> (Redis.data s))
         (Redis.avail s) (Redis.trips s + n)).
Proof.
  intros Hc Hup Hprior.
  unfold RedisCache.append_to_chat_history, bind.
  rewrite (is_connected_up rc s Hc) by (apply Hup; lia). cbn [negb].
  unfold try_except, bind.
  rewrite get_chat_history_up; [|exact Hc|].
  2:{ intros n Hn. cbn in *. apply Hup. lia. }
  assert (Hsame : forall t1,
            cached_history
              (Redis.mk_server (Redis.now s) (Redis.data s) (Redis.avail s) t1)
              session_id = cached_history s session_id) by reflexivity.
  rewrite Hsame.
  assert (Hcurrent :
    match cached_history s session_id with
    | Some j => if truthy j then j else JList []
    | None => JList []
    end = JList prior).
  { destruct Hprior as [[Hnone Hnil]|Hsome].
    - rewrite Hnone, Hnil. reflexivity.
    - rewrite Hsome. destruct prior; reflexivity. }
  rewrite Hcurrent. unfold RedisCache.extend, ret.
  rewrite set_chat_history_reachable; [|exact Hc| |lia].
  2:{ intros n Hn. cbn in *. apply Hup. lia. }
  cbn [fst snd Redis.now Redis.data Redis.avail Redis.trips].
  exists 5%nat. do 3 f_equal. lia.
Qed.

(** X19.  Read-through.  On a miss with the service reachable,
    [get_chat_history] returns the rows of the database as alternating
    human and ai messages and, when there is a row, caches them; for the
    24 hours that follow the same messages are returned without regard to
    the database, be it changed or failing. *)
Theorem history_is_read_through (session_id : string)
    (rows : list (string * string)) (s : Redis.server) :
  let stored := JList (cache_format_of rows) in
  RedisCache.redis_client rc = Some RedisCache.Client -> reachable s ->
  cached_history s session_id = None ->
  rows <> [] ->
  json_loads (json_dumps stored) = Some stored -> json_dumps stored <> "" ->
  let out := get_chat_history rc session_id (Ok rows) s in
  out.1 = Ok (messages_of rows) /\
  forall later again, 0 <= later < 86400 ->
    (get_chat_history rc session_id again (Redis.elapse later out.2)).1
    = Ok (messages_of rows).
Proof.
  intros stored Hc Hup Hmiss Hrows Hcodec Hempty out.
  assert (Hrun : exists n,
    out = (Ok (messages_of rows),
           Redis.mk_server (Redis.now s)
             (<["chat_history:" ++ session_id :=
                  Redis.mk_entry (json_dumps stored)
                                 (Redis.now s + 24 * 3600)]> (Redis.data s))
             (Redis.avail s) (Redis.trips s + n))).
  { subst out. unfold get_chat_history.
    rewrite (bind_run _ _ _ _ _ (get_chat_history_up rc session_id s Hc Hup)).
    rewrite Hmiss. unfold bind at 1.
    assert (exists t1 rest, cache_format_of rows = t1 :: rest)
      as (t1 & rest & Hshape).
    { destruct rows as [|[q a] more]; [contradiction|]. cbn. eauto. }
    fold stored. rewrite Hshape. unfold bind.
    rewrite set_chat_history_reachable; [|exact Hc| |lia].
    2:{ intros n Hn. cbn in *. apply Hup. lia. }
    cbn [fst snd Redis.now Redis.data Redis.avail Redis.trips ret].
    exists 4%nat. unfold ret. do 3 f_equal. lia. }
  destruct Hrun as [n Hrun]. rewrite Hrun. cbn [fst snd].
  split; [reflexivity|]. intros later again Hlater.
  apply (served_from_cache session_id rows again (Redis.now s + 24 * 3600));
    try assumption.
  - intros m Hm. cbn in *. apply Hup. lia.
  - cbn. apply lookup_insert_eq.
  - cbn. lia.
Qed.

(** X20.  An exchange logged while the cache holds the session's earlier
    exchanges is returned after them for the next 24 hours.  Logged while
    the cache holds nothing for the session, it is the whole history
    returned in that time, whatever rows the database holds for the
    session.  When the [INSERT] raises, nothing is appended. *)
Theorem logged_exchange_joins_cached_history
    (session_id user_query gpt_response : string)
    (earlier : list (string * string)) (s : Redis.server) :
  let rows := (earlier ++ [(user_query, gpt_response)])%list in
  let stored := JList (cache_format_of rows) in
  RedisCache.redis_client rc = Some RedisCache.Client -> reachable s ->
  holds_history s session_id (cache_format_of earlier) ->
  json_loads (json_dumps stored) = Some stored -> json_dumps stored <> "" ->
  let out := insert_application_logs rc session_id user_query gpt_response
               (Ok tt) s in
  out.1 = Ok true /\
  (forall later again, 0 <= later < 86400 ->
     (get_chat_history rc session_id again (Redis.elapse later out.2)).1
     = Ok (messages_of rows)) /\
  forall e, insert_application_logs rc session_id user_query gpt_response
              (Raise e) s = (Raise e, s).
Proof.
  intros rows stored Hc Hup Hprior Hcodec Hempty out.
  destruct (append_run session_id user_query gpt_response
              (cache_format_of earlier) s Hc Hup Hprior) as [n Hrun].
  assert (Hshape : (cache_format_of earlier
                    ++ [RedisCache.turn "user" user_query;
                        RedisCache.turn "assistant" gpt_response])%list
                   = cache_format_of rows).
  { unfold rows. rewrite cache_format_of_app. reflexivity. }
  rewrite Hshape in Hrun.
  assert (Hout : out = RedisCache.append_to_chat_history rc session_id
                         user_query gpt_response s) by reflexivity.
  rewrite Hout, Hrun. cbn [fst snd].
  split; [reflexivity|]. split; [|reflexivity].
  intros later again Hlater.
  apply (served_from_cache session_id rows again (Redis.now s + 24 * 3600));
    try assumption.
  - intros m Hm. cbn in *. apply Hup. lia.
  - cbn. apply lookup_insert_eq.
  - cbn. lia.
Qed.

(** A service that cannot be reached declines, and still cannot be reached
    afterwards. *)
Lemma declined_stays_down (s : Redis.server) :
  RedisCache.redis_client rc = None \/ unreachable s ->
  (RedisCache.is_connected rc s).1 = Ok false /\
  Redis.data (RedisCache.is_connected rc s).2 = Redis.data s /\
  (RedisCache.redis_client rc = None
   \/ unreachable (RedisCache.is_connected rc s).2).
Proof.
  intros Hdown. unfold RedisCache.is_connected.
  destruct (RedisCache.redis_client rc) as [[]|]; [|cbn; auto].
  destruct Hdown as [|Hdown]; [discriminate|].
  unfold try_except, bind, Redis.ping, Redis.round_trip, ret.
  rewrite (Hdown (Redis.trips s)) by lia. cbn.
  split; [reflexivity|]. split; [reflexivity|]. right.
  intros n Hn. cbn in *. apply Hdown. lia.
Qed.

Lemma cache_read_declined (session_id : string) (s : Redis.server) :
  RedisCache.redis_client rc = None \/ unreachable s ->
  RedisCache.get_chat_history rc session_id s
  = (Ok None, (RedisCache.is_connected rc s).2).
Proof.
  intros Hdown. destruct (declined_stays_down s Hdown) as (Hr & _).
  unfold RedisCache.get_chat_history, bind.
  destruct (RedisCache.is_connected rc s) as [r s1]. cbn in Hr. subst r.
  reflexivity.
Qed.

Lemma cache_write_declined (session_id : string) (h : json) (ttl : Z)
    (s : Redis.server) :
  RedisCache.redis_client rc = None \/ unreachable s ->
  RedisCache.set_chat_history rc session_id h ttl s
  = (Ok false, (RedisCache.is_connected rc s).2).
Proof.
  intros Hdown. destruct (declined_stays_down s Hdown) as (Hr & _).
  unfold RedisCache.set_chat_history, bind.
  destruct (RedisCache.is_connected rc s) as [r s1]. cbn in Hr. subst r.
  reflexivity.
Qed.

Lemma cache_append_declined (session_id q a : string) (s : Redis.server) :
  RedisCache.redis_client rc = None \/ unreachable s ->
  RedisCache.append_to_chat_history rc session_id q a s
  = (Ok false, (RedisCache.is_connected rc s).2).
Proof.
  intros Hdown. destruct (declined_stays_down s Hdown) as (Hr & _).
  unfold RedisCache.append_to_chat_history, bind.
  destruct (RedisCache.is_connected rc s) as [r s1]. cbn in Hr. subst r.
  reflexivity.
Qed.

(** X21.  Without the key-value service (the client was never built, or no
    round trip gets through) [get_chat_history] answers from the rows of
    the database alone, [insert_application_logs] reports the append as not
    applied, both raise what the database raised and nothing else, and the
    stored entries stay as they were. *)
Theorem history_without_cache (session_id user_query gpt_response : string)
    (rows : result (list (string * string))) (inserted : result unit)
    (s : Redis.server) :
  RedisCache.redis_client rc = None \/ unreachable s ->
  let read := get_chat_history rc session_id rows s in
  let logged := insert_application_logs rc session_id user_query gpt_response
                  inserted s in
  read.1 = match rows with
           | Ok rows => Ok (messages_of rows)
           | Raise e => Raise e
           end /\
  Redis.data read.2 = Redis.data s /\
  logged.1 = match inserted with
             | Ok _ => Ok false
             | Raise e => Raise e
             end /\
  Redis.data logged.2 = Redis.data s.
Proof.
  intros Hdown read logged.
  destruct (declined_stays_down s Hdown) as (_ & Hdata1 & Hdown1).
  assert (Hread : read.1 = match rows with
                           | Ok rows => Ok (messages_of rows)
                           | Raise e => Raise e
                           end /\
                  Redis.data read.2 = Redis.data s).
  { subst read. unfold get_chat_history, bind.
    rewrite (cache_read_declined session_id s Hdown).
    destruct rows as [rows|e]; [|split; [reflexivity | exact Hdata1]].
    destruct (cache_format_of rows) as [|t1 rest].
    - split; [reflexivity | exact Hdata1].
    - rewrite (cache_write_declined session_id _ 24 _ Hdown1).
      destruct (declined_stays_down _ Hdown1) as (_ & Hdata2 & _).
      split; [reflexivity|]. cbn [ret snd]. congruence. }
  destruct Hread as [Hread Hkept]. split; [exact Hread|].
  split; [exact Hkept|].
  subst logged. unfold insert_application_logs.
  destruct inserted as [[]|e]; [|split; reflexivity].
  unfold bind. rewrite (cache_append_declined session_id _ _ s Hdown).
  split; [reflexivity | exact Hdata1].
Qed.

End WithExternals.

(** [history_is_read_through] on one row, the database failing on the
    second read. *)
Lemma history_is_read_through_witness :
  let H := Fixture.libs in
  let rows := [("hi", "hello")] in
  let out := get_chat_history Fixture.redis_cache "s1" (Ok rows)
               (Fixture.empty_server Fixture.up) in
  out.1 = Ok (messages_of rows) /\
  (get_chat_history Fixture.redis_cache "s1" (Raise OperationalError)
     (Redis.elapse 60 out.2)).1 = Ok (messages_of rows).
Proof.
  intros H rows out.
  destruct (history_is_read_through Fixture.redis_cache "s1" rows
              (Fixture.empty_server Fixture.up)) as [Hfirst Hnext].
  - reflexivity.
  - intros n _. reflexivity.
  - reflexivity.
  - discriminate.
  - vm_compute. reflexivity.
  - vm_compute. discriminate.
  - split; [exact Hfirst | apply Hnext; lia].
Defined.

(** [logged_exchange_joins_cached_history] on a session the cache holds
    nothing for: the exchange logged is all that is returned, though the
    database has an older row. *)
Lemma logged_exchange_joins_cached_history_witness :
  let H := Fixture.libs in
  let out := insert_application_logs Fixture.redis_cache "s1" "hi" "hello"
               (Ok tt) (Fixture.empty_server Fixture.up) in
  out.1 = Ok true /\
  (get_chat_history Fixture.redis_cache "s1"
     (Ok [("older", "row"); ("hi", "hello")]) (Redis.elapse 60 out.2)).1
  = Ok (messages_of [("hi", "hello")]).
Proof.
  intros H out.
  destruct (logged_exchange_joins_cached_history Fixture.redis_cache "s1"
              "hi" "hello" [] (Fixture.empty_server Fixture.up))
    as (Hlogged & Hnext & _).
  - reflexivity.
  - intros n _. reflexivity.
  - left. split; reflexivity.
  - vm_compute. reflexivity.
  - vm_compute. discriminate.
  - split; [exact Hlogged | apply Hnext; lia].
Defined.

(** [history_without_cache] on a service that is down. *)
Lemma history_without_cache_witness :
  let H := Fixture.libs in
  let s := Fixture.empty_server Fixture.down in
  (get_chat_history Fixture.redis_cache "s1" (Ok [("hi", "hello")]) s).1
  = Ok (messages_of [("hi", "hello")]) /\
  (insert_application_logs Fixture.redis_cache "s1" "hi" "hello" (Ok tt) s).1
  = Ok false.
Proof.
  intros H s.
  destruct (history_without_cache Fixture.redis_cache "s1" "hi" "hello"
              (Ok [("hi", "hello")]) (Ok tt) s) as (Hread & _ & Hlogged & _).
  - right. intros n _. reflexivity.
  - split; [exact Hread | exact Hlogged].
Defined.

End DbUtilsMore.
